(** * MedDSAgent-App: terminal session manager and reverse proxy

    A shallow embedding of [terminal_manager.py] and of the WebSocket and
    proxy handlers of [server.py].

    The Python objects live in an explicit store: a [TerminalProcess] is an
    address into [w_objects], and the registry [terminals] maps identifiers to
    addresses, so that two references to one session are one address.  The
    operating system (descriptors, child processes, window sizes) and the
    asyncio event loop (registered readers, timer tasks, the clock) are
    fields of the same [World].  Python exceptions are values of [exn],
    threaded through the monad [M]; [try_except] is the [try ... except]
    statement. *)

From stdpp Require Import gmap strings list fin_maps.
From Stdlib Require Import ZArith Ascii String.

Open Scope string_scope.

(** ** Strings and bytes

    Python [bytes] and the Latin-1 [str] values of header names are both
    sequences of 8-bit characters. *)

Definition bytes := string.

Definition dquote : string := String "034"%char EmptyString.
Definition newline : string := String "010"%char EmptyString.

(** [str.lower] on a Latin-1 character: A-Z and the accented capitals
    U+00C0..U+00DE (without the multiplication sign U+00D7) move up by 32. *)
Definition lower_char (c : ascii) : ascii :=
  let n := nat_of_ascii c in
  if Nat.leb 65 n && Nat.leb n 90 then ascii_of_nat (n + 32)
  else if Nat.leb 192 n && Nat.leb n 222 && negb (Nat.eqb n 215)
       then ascii_of_nat (n + 32)
  else c.

Fixpoint lower (s : string) : string :=
  match s with
  | EmptyString => EmptyString
  | String c s' => String (lower_char c) (lower s')
  end.

(** [needle in hay] on strings. *)
Fixpoint str_contains (needle hay : string) : bool :=
  String.prefix needle hay ||
  match hay with
  | EmptyString => false
  | String _ hay' => str_contains needle hay'
  end.

Definition startswith (p s : string) : bool := String.prefix p s.

Fixpoint endswith_char (c : ascii) (s : string) : bool :=
  match s with
  | EmptyString => false
  | String d EmptyString => Ascii.eqb c d
  | String _ s' => endswith_char c s'
  end.

(** ** Python exceptions *)

Inductive exn :=
| OSError
| ProcessLookupError
| FileNotFoundError
| JSONDecodeError
| ValueError
| TypeError
| AttributeError
| OverflowError
| struct_error
| RuntimeError
| WebSocketDisconnect.

Global Instance exn_eq_dec : EqDecision exn.
Proof. solve_decision. Defined.

(** The classes named in the [except] clauses, with their subclasses. *)
Definition is_OSError (e : exn) : bool :=
  match e with
  | OSError | ProcessLookupError | FileNotFoundError => true
  | _ => false
  end.

Definition is_ValueError (e : exn) : bool :=
  match e with
  | ValueError | JSONDecodeError => true
  | _ => false
  end.

Definition is_TypeError (e : exn) : bool :=
  match e with TypeError => true | _ => false end.

Definition is_Exception (e : exn) : bool := true.

Inductive result (A : Type) :=
| Ok (a : A)
| Raise (e : exn).
Arguments Ok {A} a.
Arguments Raise {A} e.

(** ** The operating system *)

Record Process := {
  p_argv : list string;
  p_cwd : option string;
  p_env : gmap string string;
  p_stdio : nat;
  p_alive : bool;
}.

Record OS := {
  os_isdir : string → bool;                 (* os.path.isdir *)
  os_home : string;                         (* os.path.expanduser("~") *)
  os_abspath : string → string;             (* os.path.abspath *)
  os_environ : gmap string string;          (* os.environ *)
  os_pty_available : bool;                  (* os.openpty succeeds *)
  os_exec_ok : list string → option string → bool;
                                            (* the child can be started *)
  os_fds : gset nat;                        (* open descriptors *)
  os_winsize : gmap nat (Z * Z);            (* PTY master -> (rows, cols) *)
  os_procs : gmap nat Process;              (* children, by pid *)
}.

Definition os_set_fds (f : gset nat → gset nat) (o : OS) : OS :=
  {| os_isdir := os_isdir o; os_home := os_home o; os_abspath := os_abspath o;
     os_environ := os_environ o; os_pty_available := os_pty_available o;
     os_exec_ok := os_exec_ok o; os_fds := f (os_fds o);
     os_winsize := os_winsize o; os_procs := os_procs o |}.

Definition os_set_winsize (f : gmap nat (Z * Z) → gmap nat (Z * Z)) (o : OS) : OS :=
  {| os_isdir := os_isdir o; os_home := os_home o; os_abspath := os_abspath o;
     os_environ := os_environ o; os_pty_available := os_pty_available o;
     os_exec_ok := os_exec_ok o; os_fds := os_fds o;
     os_winsize := f (os_winsize o); os_procs := os_procs o |}.

Definition os_set_procs (f : gmap nat Process → gmap nat Process) (o : OS) : OS :=
  {| os_isdir := os_isdir o; os_home := os_home o; os_abspath := os_abspath o;
     os_environ := os_environ o; os_pty_available := os_pty_available o;
     os_exec_ok := os_exec_ok o; os_fds := os_fds o;
     os_winsize := os_winsize o; os_procs := f (os_procs o) |}.

(** ** The asyncio event loop *)

(** A task made by [asyncio.ensure_future(_delayed())].  It sleeps until its
    deadline, then runs [destroy] on the identifier its closure captured.
    [Finished true]: the body ran [destroy]; [Finished false]: the task was
    cancelled in its sleep, and [except asyncio.CancelledError: pass] ended
    it. *)
Inductive task_state :=
| Sleeping (deadline : nat)
| Running
| Finished (fired : bool).

Record Task := {
  task_target : string;
  task_state_of : task_state;
}.

Definition task_done (t : Task) : bool :=
  match task_state_of t with
  | Finished _ => true
  | _ => false
  end.

Record Loop := {
  readers : gmap nat nat;     (* descriptor -> object whose _on_readable runs *)
  tasks : gmap nat Task;
  now : nat;                  (* seconds *)
}.

(** ** Sessions and the world *)

Record TerminalProcess := {
  terminal_id : string;
  master_fd : nat;
  proc : nat;
  output_queue : list (option bytes);     (* None is the sentinel *)
  _destroy_task : option nat;
}.

Inductive log_record :=
| LogCreated (tid : string) (pid : nat) (cwd : string)
| LogDestroyed (tid : string)
| LogAutoDestroyed (tid : string) (secs : nat)
| LogWsError (tid : string) (e : exn).

Record World := {
  w_os : OS;
  w_loop : Loop;
  w_objects : gmap nat TerminalProcess;   (* the TerminalProcess instances *)
  terminals : gmap string nat;            (* TerminalManager.terminals *)
  w_log : list log_record;
  BACKEND_CONTAINER : string;             (* terminal_manager.BACKEND_CONTAINER *)
  WORK_DIR : string;                      (* server.WORK_DIR *)
}.

Definition set_os (f : OS → OS) (w : World) : World :=
  {| w_os := f (w_os w); w_loop := w_loop w; w_objects := w_objects w;
     terminals := terminals w; w_log := w_log w;
     BACKEND_CONTAINER := BACKEND_CONTAINER w; WORK_DIR := WORK_DIR w |}.

Definition set_loop (f : Loop → Loop) (w : World) : World :=
  {| w_os := w_os w; w_loop := f (w_loop w); w_objects := w_objects w;
     terminals := terminals w; w_log := w_log w;
     BACKEND_CONTAINER := BACKEND_CONTAINER w; WORK_DIR := WORK_DIR w |}.

Definition set_objects (f : gmap nat TerminalProcess → gmap nat TerminalProcess)
    (w : World) : World :=
  {| w_os := w_os w; w_loop := w_loop w; w_objects := f (w_objects w);
     terminals := terminals w; w_log := w_log w;
     BACKEND_CONTAINER := BACKEND_CONTAINER w; WORK_DIR := WORK_DIR w |}.

Definition set_terminals (f : gmap string nat → gmap string nat) (w : World) : World :=
  {| w_os := w_os w; w_loop := w_loop w; w_objects := w_objects w;
     terminals := f (terminals w); w_log := w_log w;
     BACKEND_CONTAINER := BACKEND_CONTAINER w; WORK_DIR := WORK_DIR w |}.

Definition add_log (r : log_record) (w : World) : World :=
  {| w_os := w_os w; w_loop := w_loop w; w_objects := w_objects w;
     terminals := terminals w; w_log := (w_log w ++ [r])%list;
     BACKEND_CONTAINER := BACKEND_CONTAINER w; WORK_DIR := WORK_DIR w |}.

Definition set_readers (f : gmap nat nat → gmap nat nat) : World → World :=
  set_loop (λ l, {| readers := f (readers l); tasks := tasks l; now := now l |}).

Definition set_tasks (f : gmap nat Task → gmap nat Task) : World → World :=
  set_loop (λ l, {| readers := readers l; tasks := f (tasks l); now := now l |}).

Definition set_now (f : nat → nat) : World → World :=
  set_loop (λ l, {| readers := readers l; tasks := tasks l; now := f (now l) |}).

(** ** The monad of effectful Python code *)

Definition M (A : Type) : Type := World → result A * World.

Global Instance M_ret : MRet M := λ A a w, (Ok a, w).

Global Instance M_bind : MBind M := λ A B f m w,
  match m w with
  | (Ok a, w') => f a w'
  | (Raise e, w') => (Raise e, w')
  end.

Definition raise {A} (e : exn) : M A := λ w, (Raise e, w).
Definition gets {A} (f : World → A) : M A := λ w, (Ok (f w), w).
Definition modify (f : World → World) : M unit := λ w, (Ok tt, f w).

(** [try: body except <classes>: handler] *)
Definition try_except {A} (body : M A) (classes : exn → bool) (handler : M A) : M A :=
  λ w, match body w with
       | (Raise e, w') => if classes e then handler w' else (Raise e, w')
       | r => r
       end.

Definition pass : M unit := mret tt.

(** A computation that touches no state. *)
Definition pure {A} (r : result A) : M A := λ w, (r, w).

(** ** System calls and event-loop calls used by the code *)

(** [os.openpty()]: two fresh descriptors, master first. *)
Definition os_openpty : M (nat * nat) := λ w,
  if os_pty_available (w_os w) then
    let master := fresh (os_fds (w_os w)) in
    let slave := fresh ({[master]} ∪ os_fds (w_os w)) in
    (Ok (master, slave),
     set_os (λ o, os_set_winsize (<[master := (0, 0)%Z]>)
                    (os_set_fds (λ s, {[master; slave]} ∪ s) o)) w)
  else (Raise OSError, w).

(** [os.close(fd)] *)
Definition os_close (fd : nat) : M unit := λ w,
  if decide (fd ∈ os_fds (w_os w)) then
    (Ok tt, set_os (λ o, os_set_winsize (delete fd)
                           (os_set_fds (λ s, s ∖ {[fd]}) o)) w)
  else (Raise OSError, w).

(** [os.write(fd, data)]: the bytes go to the child, which is not modelled;
    only the failure on a closed descriptor is. *)
Definition os_write (fd : nat) (data : bytes) : M unit := λ w,
  if decide (fd ∈ os_fds (w_os w)) then (Ok tt, w) else (Raise OSError, w).

(** [struct.pack("HHHH", a, b, 0, 0)]: each field is an unsigned 16-bit
    number, anything else raises [struct.error]. *)
Definition fits_H (z : Z) : bool := (0 <=? z)%Z && (z <=? 65535)%Z.

Definition struct_pack_HHHH (a b : Z) : M (Z * Z) :=
  if fits_H a && fits_H b then mret (a, b) else raise struct_error.

(** [fcntl.ioctl(fd, termios.TIOCSWINSZ, packed)] *)
Definition ioctl_TIOCSWINSZ (fd : nat) (packed : Z * Z) : M unit := λ w,
  if decide (fd ∈ os_fds (w_os w)) then
    (Ok tt, set_os (os_set_winsize (<[fd := packed]>)) w)
  else (Raise OSError, w).

(** [asyncio.create_subprocess_exec] with the command [cmd], the three
    standard streams on [fd], and the given [cwd] and [env]. *)
Definition create_subprocess_exec (cmd : list string) (fd : nat)
    (cwd : option string) (env : gmap string string) : M nat := λ w,
  if os_exec_ok (w_os w) cmd cwd then
    let pid := fresh (dom (os_procs (w_os w))) in
    (Ok pid,
     set_os (os_set_procs (<[pid := {| p_argv := cmd; p_cwd := cwd; p_env := env;
                                       p_stdio := fd; p_alive := true |}]>)) w)
  else (Raise FileNotFoundError, w).

(** [proc.kill()]: a child that has already exited raises
    [ProcessLookupError]. *)
Definition proc_kill (pid : nat) : M unit := λ w,
  match os_procs (w_os w) !! pid with
  | Some p =>
      if p_alive p then
        (Ok tt,
         set_os (os_set_procs (<[pid := {| p_argv := p_argv p; p_cwd := p_cwd p;
                                           p_env := p_env p; p_stdio := p_stdio p;
                                           p_alive := false |}]>)) w)
      else (Raise ProcessLookupError, w)
  | None => (Raise ProcessLookupError, w)
  end.

(** [loop.add_reader(fd, callback)], the callback being the bound method
    [_on_readable] of the object [self]. *)
Definition add_reader (fd self : nat) : M unit :=
  modify (set_readers (<[fd := self]>)).

(** [loop.remove_reader(fd)] *)
Definition remove_reader (fd : nat) : M unit :=
  modify (set_readers (delete fd)).

(** [task.done()] and [task.cancel()].  Cancelling a sleeping task ends it
    without running the rest of its body.  Cancelling the task that is
    running only sets a flag that is looked at when the task next suspends,
    and [_delayed] does not suspend again after its sleep. *)
Definition task_is_done (k : nat) : M bool :=
  gets (λ w, match tasks (w_loop w) !! k with
             | Some t => task_done t
             | None => true
             end).

Definition cancel_state (s : task_state) : task_state :=
  match s with
  | Sleeping _ => Finished false
  | Running => Running
  | Finished b => Finished b
  end.

Definition with_state (f : task_state → task_state) (t : Task) : Task :=
  {| task_target := task_target t; task_state_of := f (task_state_of t) |}.

Definition task_cancel (k : nat) : M unit :=
  modify (set_tasks (alter (with_state cancel_state) k)).

(** ** TerminalProcess *)

Definition RECONNECT_TIMEOUT_SECONDS : nat := 300.

(** Run [f] on the object at address [self].  A reference always denotes an
    object (nothing is ever removed from the store); the other branch is
    there for totality only. *)
Definition with_self {A} (self : nat) (dflt : A) (f : TerminalProcess → M A) : M A :=
  λ w, match w_objects w !! self with
       | Some t => f t w
       | None => (Ok dflt, w)
       end.

Definition with_queue (f : list (option bytes) → list (option bytes))
    (t : TerminalProcess) : TerminalProcess :=
  {| terminal_id := terminal_id t; master_fd := master_fd t; proc := proc t;
     output_queue := f (output_queue t); _destroy_task := _destroy_task t |}.

Definition with_destroy_task (k : option nat) (t : TerminalProcess) : TerminalProcess :=
  {| terminal_id := terminal_id t; master_fd := master_fd t; proc := proc t;
     output_queue := output_queue t; _destroy_task := k |}.

(** Assignments to [self.output_queue] (its contents) and to
    [self._destroy_task]. *)
Definition set_output_queue (self : nat)
    (f : list (option bytes) → list (option bytes)) : M unit :=
  modify (set_objects (alter (with_queue f) self)).

Definition set_destroy_task (self : nat) (k : option nat) : M unit :=
  modify (set_objects (alter (with_destroy_task k) self)).

(** [TerminalProcess(terminal_id, master_fd, proc)] *)
Definition TerminalProcess_init (tid : string) (fd pid : nat) : M nat := λ w,
  let self := fresh (dom (w_objects w)) in
  (Ok self,
   set_objects (<[self := {| terminal_id := tid; master_fd := fd; proc := pid;
                             output_queue := []; _destroy_task := None |}]>) w).

(** [while not q.empty(): q.get_nowait()] *)
Fixpoint drain (q : list (option bytes)) : list (option bytes) :=
  match q with
  | [] => []
  | _ :: q' => drain q'
  end.

Definition drain_queue (self : nat) : M unit :=
  set_output_queue self drain.

Definition start_reading (self : nat) : M unit :=
  drain_queue self;;
  with_self self tt (λ t, add_reader (master_fd t) self).

Definition stop_reading (self : nat) : M unit :=
  with_self self tt (λ t,
    try_except (remove_reader (master_fd t)) is_Exception pass).

(** What [os.read(self.master_fd, 4096)] does when the loop calls the
    reader: it returns bytes or raises [OSError]. *)
Inductive read_result :=
| ReadData (data : bytes)
| ReadError.

Definition os_read (r : read_result) : M bytes :=
  match r with
  | ReadData d => mret d
  | ReadError => raise OSError
  end.

Definition _on_readable (self : nat) (r : read_result) : M unit :=
  try_except
    (data ← os_read r;
     set_output_queue self (λ q, (q ++ [Some data])%list))
    is_OSError
    (set_output_queue self (λ q, (q ++ [None])%list)).

Definition write (self : nat) (data : bytes) : M unit :=
  with_self self tt (λ t,
    try_except (os_write (master_fd t) data) is_OSError pass).

Definition resize (self : nat) (cols rows : Z) : M unit :=
  with_self self tt (λ t,
    try_except
      (packed ← struct_pack_HHHH rows cols;
       ioctl_TIOCSWINSZ (master_fd t) packed)
      is_OSError
      pass).

Definition cancel_destroy_timer (self : nat) : M unit :=
  with_self self tt (λ t,
    match _destroy_task t with
    | Some k =>
        d ← task_is_done k;
        if negb d then task_cancel k;; set_destroy_task self None
        else pass
    | None => pass
    end).

Definition close (self : nat) : M unit :=
  stop_reading self;;
  with_self self tt (λ t,
    try_except (proc_kill (proc t)) is_OSError pass;;
    try_except (os_close (master_fd t)) is_OSError pass).

(** ** TerminalManager *)

Definition docker_cmd (work_dir container : string) : list string :=
  ["docker"; "exec"; "-it"; "--workdir=" ++ work_dir; container; "/bin/bash"].

(** The [if BACKEND_CONTAINER: ... else: ...] block of [create]: the command
    and the [cwd] given to the subprocess. *)
Definition spawn_command (container work_dir : string) : list string * option string :=
  if negb (String.eqb container "")
  then (docker_cmd work_dir container, None)
  else (["/bin/bash"], Some work_dir).

(** [os.set_inheritable(slave_fd, True)] sets a flag of the descriptor that
    nothing here reads; [preexec_fn] and [close_fds] concern the child only. *)
Definition create (tid work_dir : string) : M nat :=
  isdir ← gets (λ w, os_isdir (w_os w) work_dir);
  home ← gets (λ w, os_home (w_os w));
  let work_dir := if negb isdir then home else work_dir in
  '(master_fd, slave_fd) ← os_openpty;
  ioctl_TIOCSWINSZ master_fd (24, 80)%Z;;
  environ ← gets (λ w, os_environ (w_os w));
  let env := <["COLORTERM" := "truecolor"]> (<["TERM" := "xterm-256color"]> environ) in
  container ← gets BACKEND_CONTAINER;
  let '(cmd, subprocess_cwd) := spawn_command container work_dir in
  pid ← create_subprocess_exec cmd slave_fd subprocess_cwd env;
  os_close slave_fd;;
  terminal ← TerminalProcess_init tid master_fd pid;
  modify (set_terminals (<[tid := terminal]>));;
  modify (add_log (LogCreated tid pid work_dir));;
  mret terminal.

Definition destroy (tid : string) : M unit :=
  terminal ← gets (λ w, terminals w !! tid);
  modify (set_terminals (delete tid));;
  match terminal with
  | Some t =>
      cancel_destroy_timer t;;
      close t;;
      modify (add_log (LogDestroyed tid))
  | None => pass
  end.

(** [asyncio.ensure_future(_delayed())]: a new task, asleep for
    [RECONNECT_TIMEOUT_SECONDS]. *)
Definition ensure_future_delayed (tid : string) : M nat := λ w,
  let k := fresh (dom (tasks (w_loop w))) in
  (Ok k,
   set_tasks (<[k := {| task_target := tid;
                        task_state_of :=
                          Sleeping (now (w_loop w) + RECONNECT_TIMEOUT_SECONDS) |}]>) w).

Definition schedule_destroy (tid : string) : M unit :=
  terminal ← gets (λ w, terminals w !! tid);
  match terminal with
  | None => mret tt
  | Some t =>
      cancel_destroy_timer t;;
      k ← ensure_future_delayed tid;
      set_destroy_task t (Some k)
  end.

Definition set_task_state (k : nat) (s : task_state) : M unit :=
  modify (set_tasks (alter (with_state (λ _, s)) k)).

(** The rest of [_delayed] once [asyncio.sleep] has returned: it runs only
    for a task that is still asleep and whose deadline has come. *)
Definition _delayed_wakeup (k : nat) : M unit := λ w,
  match tasks (w_loop w) !! k with
  | Some t =>
      match task_state_of t with
      | Sleeping deadline =>
          if Nat.leb deadline (now (w_loop w)) then
            (set_task_state k Running;;
             destroy (task_target t);;
             modify (add_log (LogAutoDestroyed (task_target t)
                                RECONNECT_TIMEOUT_SECONDS));;
             set_task_state k (Finished true)) w
          else (Ok tt, w)
      | _ => (Ok tt, w)
      end
  | None => (Ok tt, w)
  end.

(** [for tid in list(self.terminals.keys()): await self.destroy(tid)].
    Python takes the keys in the order of their insertion; the registry
    here keeps no order, and the keys are taken in the order of the map.
    The order shows in the order of the log records only, and what is
    proved of [destroy_each] is proved for every list of identifiers. *)
Fixpoint destroy_each (tids : list string) : M unit :=
  match tids with
  | [] => mret tt
  | tid :: tids' => destroy tid;; destroy_each tids'
  end.

Definition destroy_all : M unit :=
  tids ← gets (λ w, elements (dom (terminals w)));
  destroy_each tids.

(** ** server.py: the WebSocket terminal *)

(** *** Values decoded from JSON, and the builtins applied to them *)

Inductive pyfloat :=
| FFinite (num : Z) (den : positive)
| FInf (negative : bool)
| FNan.

#[local] Set Warnings "-register-all".
Inductive pyvalue :=
| PNone
| PBool (b : bool)
| PInt (z : Z)
| PFloat (f : pyfloat)
| PStr (s : string)
| PList (l : list pyvalue)
| PDict (items : list (string * pyvalue)).

Fixpoint dict_lookup (key : string) (items : list (string * pyvalue)) : option pyvalue :=
  match items with
  | [] => None
  | (k, v) :: items' => if String.eqb k key then Some v else dict_lookup key items'
  end.

(** [payload.get(key, dflt)]: only a dict has the method. *)
Definition py_get (payload : pyvalue) (key : string) (dflt : pyvalue) : result pyvalue :=
  match payload with
  | PDict items => Ok (default dflt (dict_lookup key items))
  | _ => Raise AttributeError
  end.

(** [v == s] for a string literal [s] *)
Definition py_eq_str (v : pyvalue) (s : string) : bool :=
  match v with
  | PStr s' => String.eqb s' s
  | _ => false
  end.

(** The characters [int] skips around a literal: the ASCII whitespace of C
    (tab, line feed, vertical tab, form feed, carriage return, space), and
    the whitespace above U+007F, which [int] first turns into spaces
    (U+0085 and U+00A0 in Latin-1).  The separators U+001C..U+001F are
    whitespace for [str.strip] but not here: [int] raises [ValueError] on
    them. *)
Definition is_space (c : ascii) : bool :=
  let n := nat_of_ascii c in
  (Nat.leb 9 n && Nat.leb n 13) || Nat.eqb n 32
  || Nat.eqb n 133 || Nat.eqb n 160.

Fixpoint lstrip (s : string) : string :=
  match s with
  | String c s' => if is_space c then lstrip s' else s
  | EmptyString => EmptyString
  end.

Definition strip (s : string) : string :=
  String.rev (lstrip (String.rev (lstrip s))).

Definition digit_of (c : ascii) : option Z :=
  let n := nat_of_ascii c in
  if Nat.leb 48 n && Nat.leb n 57 then Some (Z.of_nat (n - 48)) else None.

(** Decimal digits, single underscores allowed between two digits. *)
Fixpoint parse_digits (s : string) (acc : Z) (after_digit : bool) : option Z :=
  match s with
  | EmptyString => if after_digit then Some acc else None
  | String c s' =>
      match digit_of c with
      | Some d => parse_digits s' (10 * acc + d)%Z true
      | None =>
          if Ascii.eqb c "_" && after_digit then parse_digits s' acc false
          else None
      end
  end.

Fixpoint count_digits (s : string) : nat :=
  match s with
  | EmptyString => 0
  | String c s' =>
      match digit_of c with
      | Some _ => S (count_digits s')
      | None => count_digits s'
      end
  end.

(** [sys.get_int_max_str_digits()], at its default. *)
Definition int_max_str_digits : nat := 4300.

(** [int(s)] for a string: surrounding whitespace and one sign are allowed;
    a literal of more digits than the limit is refused like a malformed
    one. *)
Definition int_of_str (s : string) : option Z :=
  let literal := strip s in
  if Nat.ltb int_max_str_digits (count_digits literal) then None
  else match literal with
       | String "-" s' => Z.opp <$> parse_digits s' 0%Z false
       | String "+" s' => parse_digits s' 0%Z false
       | s' => parse_digits s' 0%Z false
       end.

(** The builtin [int(v)] *)
Definition py_int (v : pyvalue) : result Z :=
  match v with
  | PInt z => Ok z
  | PBool b => Ok (if b then 1 else 0)%Z
  | PFloat (FFinite n d) => Ok (Z.quot n (Z.pos d))
  | PFloat (FInf _) => Raise OverflowError
  | PFloat FNan => Raise ValueError
  | PStr s => match int_of_str s with
              | Some z => Ok z
              | None => Raise ValueError
              end
  | PNone | PList _ | PDict _ => Raise TypeError
  end.

(** *** Frames *)

(** The text of a frame is given by what [json.loads] makes of it. *)
Inductive text_frame :=
| InvalidJSON
| Decoded (v : pyvalue).

Definition json_loads (t : text_frame) : M pyvalue :=
  match t with
  | InvalidJSON => raise JSONDecodeError
  | Decoded v => mret v
  end.

(** The dict returned by [websocket.receive()].  [msg_text = None] stands
    for an absent or empty text: an empty text is falsy and skipped. *)
Record Message := {
  msg_bytes : option bytes;
  msg_text : option text_frame;
}.

Definition truthy_bytes (b : option bytes) : bool :=
  match b with
  | Some (String _ _) => true
  | _ => false
  end.

(** The body of the [while True] loop, after [msg] has been received. *)
Definition terminal_ws_dispatch (terminal : nat) (msg : Message) : M unit :=
  if truthy_bytes (msg_bytes msg) then
    write terminal (default "" (msg_bytes msg))
  else
    match msg_text msg with
    | Some text =>
        try_except
          (payload ← json_loads text;
           ty ← pure (py_get payload "type" PNone);
           if py_eq_str ty "resize" then
             c ← pure (py_get payload "cols" (PInt 80));
             cols ← pure (py_int c);
             r ← pure (py_get payload "rows" (PInt 24));
             rows ← pure (py_int r);
             resize terminal cols rows
           else pass)
          (λ e, is_ValueError e || is_TypeError e)
          pass
    | None => pass
    end.

(** [websocket.receive()] returns a message or raises. *)
Inductive receive_outcome :=
| Received (msg : Message)
| ReceiveRaises (e : exn).

Definition receive (r : receive_outcome) : M Message :=
  match r with
  | Received msg => mret msg
  | ReceiveRaises e => raise e
  end.

(** The [finally] block of the handler ([send_task.cancel()] stops the
    consumer of the queue, which holds no state of its own). *)
Definition terminal_ws_finally (terminal : nat) (tid : string) : M unit :=
  stop_reading terminal;;
  schedule_destroy tid.

(** One turn of the receive loop inside its [try ... except ... finally]:
    [true] when the loop goes on, [false] when the handler has run its
    [finally] block and returned. *)
Definition terminal_ws_turn (terminal : nat) (tid : string) (r : receive_outcome) : M bool :=
  λ w, match (msg ← receive r; terminal_ws_dispatch terminal msg) w with
       | (Ok _, w') => (Ok true, w')
       | (Raise e, w') =>
           ((if decide (e = WebSocketDisconnect) then pass
             else modify (add_log (LogWsError tid e)));;
            terminal_ws_finally terminal tid;;
            mret false) w'
       end.

(** [os.path.join] *)
Definition path_join2 (path b : string) : string :=
  if startswith "/" b then b
  else if String.eqb path "" || endswith_char "/" path then path ++ b
  else path ++ "/" ++ b.

Definition path_join (a : string) (p : list string) : string :=
  foldl path_join2 a p.

(** The handler up to [terminal.start_reading()]. *)
Definition resolve_work_dir (session_id : string) : M string :=
  root ← gets WORK_DIR;
  let work_dir :=
    if negb (String.eqb session_id "")
    then path_join root ["sessions"; session_id]
    else root in
  gets (λ w, os_abspath (w_os w) work_dir).

Definition lookup_or_create (tid work_dir : string) : M nat :=
  terminal ← gets (λ w, terminals w !! tid);
  match terminal with
  | None => create tid work_dir
  | Some t => cancel_destroy_timer t;; mret t
  end.

Definition terminal_ws_attach (tid session_id : string) : M nat :=
  work_dir ← resolve_work_dir session_id;
  terminal ← lookup_or_create tid work_dir;
  start_reading terminal;;
  mret terminal.

(** [_forward_output] run over the chunks in the queue: the frames sent to
    the client, and whether the sentinel was met (the connection is then
    closed). *)
Fixpoint _forward_output (q : list (option bytes)) : list bytes * bool :=
  match q with
  | [] => ([], false)
  | None :: _ => ([], true)
  | Some data :: q' =>
      let '(sent, closed) := _forward_output q' in (data :: sent, closed)
  end.

Definition delete_terminal (tid : string) : M unit := destroy tid.

(** *** The system as a whole: what can happen, one event at a time *)

Inductive event :=
| Connect (tid session_id : string)
| Receive (terminal : nat) (tid : string) (r : receive_outcome)
| Readable (fd : nat) (r : read_result)
| Delete (tid : string)
| Wakeup (k : nat)
| Tick (secs : nat)
| Shutdown.

(** The loop calls the reader registered for a readable descriptor. *)
Definition on_readable_event (fd : nat) (r : read_result) : M unit := λ w,
  match readers (w_loop w) !! fd with
  | Some self => _on_readable self r w
  | None => (Ok tt, w)
  end.

Definition handle (ev : event) : M unit :=
  match ev with
  | Connect tid session_id => terminal_ws_attach tid session_id;; mret tt
  | Receive terminal tid r => terminal_ws_turn terminal tid r;; mret tt
  | Readable fd r => on_readable_event fd r
  | Delete tid => delete_terminal tid
  | Wakeup k => _delayed_wakeup k
  | Tick secs => modify (set_now (λ t, t + secs))
  | Shutdown => destroy_all
  end.

(** An exception that leaves a handler ends that handler only. *)
Definition step (w : World) (ev : event) : World := snd (handle ev w).

Definition run (evs : list event) (w : World) : World := foldl step w evs.

(** *** The suspension inside [create]

    Each event above is a piece of handler code that the loop runs without
    interruption, from one suspension point to the next, with one
    exception: [Connect] stands for a connection during whose [create]
    nothing else runs.  [await asyncio.create_subprocess_exec(...)] starts
    the child and then suspends [create] until the child's transport is
    connected, and the loop runs other handlers in between.  The two
    halves of the connection follow. *)

(** The local variables of [create] that the code after the [await] reads. *)
Record create_frame := {
  cf_terminal_id : string;
  cf_work_dir : string;
  cf_master_fd : nat;
  cf_slave_fd : nat;
  cf_pid : nat;                 (* proc.pid *)
}.

(** [create] up to the suspension: the child has been started. *)
Definition create_until_await (tid work_dir : string) : M create_frame :=
  isdir ← gets (λ w, os_isdir (w_os w) work_dir);
  home ← gets (λ w, os_home (w_os w));
  let work_dir := if negb isdir then home else work_dir in
  '(master_fd, slave_fd) ← os_openpty;
  ioctl_TIOCSWINSZ master_fd (24, 80)%Z;;
  environ ← gets (λ w, os_environ (w_os w));
  let env := <["COLORTERM" := "truecolor"]> (<["TERM" := "xterm-256color"]> environ) in
  container ← gets BACKEND_CONTAINER;
  let '(cmd, subprocess_cwd) := spawn_command container work_dir in
  pid ← create_subprocess_exec cmd slave_fd subprocess_cwd env;
  mret {| cf_terminal_id := tid; cf_work_dir := work_dir; cf_master_fd := master_fd;
          cf_slave_fd := slave_fd; cf_pid := pid |}.

(** [create] from its resumption to its [return]. *)
Definition create_after_await (f : create_frame) : M nat :=
  os_close (cf_slave_fd f);;
  terminal ← TerminalProcess_init (cf_terminal_id f) (cf_master_fd f) (cf_pid f);
  modify (set_terminals (<[cf_terminal_id f := terminal]>));;
  modify (add_log (LogCreated (cf_terminal_id f) (cf_pid f) (cf_work_dir f)));;
  mret terminal.

(** [terminal_ws] from [accept] to its first suspension.  For an identifier
    that is not registered this is the [await] inside [create], and the
    frame is returned; for a registered one the handler runs through
    [start_reading] to the first [receive]. *)
Definition terminal_ws_until_await (tid session_id : string) : M (option create_frame) :=
  work_dir ← resolve_work_dir session_id;
  terminal ← gets (λ w, terminals w !! tid);
  match terminal with
  | None => f ← create_until_await tid work_dir; mret (Some f)
  | Some t => cancel_destroy_timer t;; start_reading t;; mret None
  end.

(** [terminal_ws] from the resumption of [create] to the first [receive]. *)
Definition terminal_ws_after_await (f : create_frame) : M nat :=
  terminal ← create_after_await f;
  start_reading terminal;;
  mret terminal.

(** The world together with the connections suspended in [create]. *)
Record System := {
  sys_world : World;
  suspended : gmap nat create_frame;
}.

Inductive async_event :=
| Atomic (ev : event)
| ConnectBegin (tid session_id : string)
| ConnectResume (h : nat).

Definition async_step (s : System) (ev : async_event) : System :=
  match ev with
  | Atomic ev => {| sys_world := step (sys_world s) ev; suspended := suspended s |}
  | ConnectBegin tid session_id =>
      match terminal_ws_until_await tid session_id (sys_world s) with
      | (Ok (Some f), w') =>
          {| sys_world := w';
             suspended := <[fresh (dom (suspended s)) := f]> (suspended s) |}
      | (_, w') => {| sys_world := w'; suspended := suspended s |}
      end
  | ConnectResume h =>
      match suspended s !! h with
      | Some f =>
          {| sys_world := (terminal_ws_after_await f (sys_world s)).2;
             suspended := delete h (suspended s) |}
      | None => s
      end
  end.

Definition async_run (evs : list async_event) (s : System) : System :=
  foldl async_step s evs.

(** ** server.py: the reverse proxy *)

Definition _HOP_BY_HOP : gset string :=
  {[ "connection"; "keep-alive"; "proxy-authenticate"; "proxy-authorization";
     "te"; "trailers"; "transfer-encoding"; "upgrade" ]}.

(** A dict built from (key, value) pairs, later pairs overwriting. *)
Definition dict_of (items : list (string * string)) : gmap string string :=
  foldl (λ d kv, <[kv.1 := kv.2]> d) ∅ items.

(** [request.headers]: the (name, value) pairs as received. *)
Record Request := {
  req_method : string;
  req_query : string;
  req_headers : list (string * string);
  req_body : bytes;
}.

(** [headers.get(name, dflt)]: the first pair whose key is [name.lower()]. *)
Fixpoint headers_get (hs : list (string * string)) (name dflt : string) : string :=
  match hs with
  | [] => dflt
  | (k, v) :: hs' => if String.eqb k (lower name) then v else headers_get hs' name dflt
  end.

Definition _forward_headers (request : Request) : gmap string string :=
  dict_of (filter (λ kv, (lower (fst kv) ∉ _HOP_BY_HOP) ∧ (lower (fst kv) ≠ "host"))
                  (req_headers request)).

(** What is sent to the backend. *)
Record BackendRequest := {
  b_method : string;
  b_url : string;
  b_headers : gmap string string;
  b_content : bytes;
}.

(** What comes back: an httpx error before any response, or a response whose
    body arrives in chunks and may break off with an error. *)
Inductive httpx_error :=
| ConnectError
| TimeoutException
| OtherTransportError.

Inductive backend_reply :=
| Failed (e : httpx_error)
| Reply (status : Z) (headers : list (string * string)) (chunks : list bytes)
        (broken : option httpx_error).

Inductive response_body :=
| Content (content : bytes)
| Stream (chunks : list bytes) (raised : bool).

(** The arguments of [Response(...)] and [StreamingResponse(...)]. *)
Record Response := {
  status_code : Z;
  headers : gmap string string;
  media_type : option string;
  body : response_body;
}.

(** [json.dumps({"detail": msg})] *)
Definition json_detail (msg : string) : string :=
  "{" ++ dquote ++ "detail" ++ dquote ++ ": " ++ dquote ++ msg ++ dquote ++ "}".

(** The two synthetic events of the streaming mode. *)
Definition sse_error (msg : string) : bytes :=
  "data: {" ++ dquote ++ "type" ++ dquote ++ ":" ++ dquote ++ "error" ++ dquote
  ++ "," ++ dquote ++ "data" ++ dquote ++ ":" ++ dquote ++ msg ++ dquote ++ "}"
  ++ newline ++ newline.

Definition sse_on_error (e : httpx_error) : list bytes * bool :=
  match e with
  | ConnectError => ([sse_error "Backend unreachable"], false)
  | TimeoutException => ([sse_error "Backend request timed out"], false)
  | OtherTransportError => ([], true)
  end.

(** The chunks [_sse_generator] yields, and whether it ends by raising. *)
Definition _sse_generator (reply : backend_reply) : list bytes * bool :=
  match reply with
  | Failed e => sse_on_error e
  | Reply _ _ chunks None => (chunks, false)
  | Reply _ _ chunks (Some e) =>
      let '(tail, raised) := sse_on_error e in ((chunks ++ tail)%list, raised)
  end.

(** [StreamingResponse(content, media_type=..., headers=...)]: the status
    code is left to its default, 200. *)
Definition StreamingResponse (content : list bytes * bool) (mt : string)
    (hs : gmap string string) : Response :=
  {| status_code := 200; headers := hs; media_type := Some mt;
     body := Stream content.1 content.2 |}.

Fixpoint concat_bytes (chunks : list bytes) : bytes :=
  match chunks with
  | [] => ""
  | c :: cs => c ++ concat_bytes cs
  end.

Section Proxy.

Variable BACKEND_URL : string.

Definition is_sse (request : Request) : bool :=
  str_contains "text/event-stream" (headers_get (req_headers request) "accept" "").

Definition forwarded (request : Request) (path : string) : BackendRequest :=
  let qs := req_query request in
  let target := BACKEND_URL ++ "/" ++ path
                ++ (if negb (String.eqb qs "") then "?" ++ qs else "") in
  {| b_method := req_method request; b_url := target;
     b_headers := _forward_headers request; b_content := req_body request |}.

(** [None]: an exception the handler does not catch. *)
Definition buffered_error (e : httpx_error) : option Response :=
  match e with
  | ConnectError =>
      Some {| status_code := 503; headers := ∅;
              media_type := Some "application/json";
              body := Content (json_detail
                "Backend unreachable. Is the MedDSAgent server running?") |}
  | TimeoutException =>
      Some {| status_code := 504; headers := ∅;
              media_type := Some "application/json";
              body := Content (json_detail "Backend request timed out.") |}
  | OtherTransportError => None
  end.

(** [resp.headers.get("content-type")] *)
Fixpoint content_type_of (hs : list (string * string)) : option string :=
  match hs with
  | [] => None
  | (k, v) :: hs' =>
      if String.eqb (lower k) "content-type" then Some v else content_type_of hs'
  end.

Definition proxy (request : Request) (path : string)
    (backend : BackendRequest → backend_reply) : option Response :=
  if is_sse request then
    Some (StreamingResponse
            (_sse_generator (backend (forwarded request path)))
            "text/event-stream"
            {[ "Cache-Control" := "no-cache"; "Connection" := "keep-alive" ]})
  else
    match backend (forwarded request path) with
    | Failed e => buffered_error e
    | Reply _ _ _ (Some e) => buffered_error e
    | Reply status hs chunks None =>
        let resp_headers :=
          dict_of (filter (λ kv, lower (fst kv) ∉ _HOP_BY_HOP) hs) in
        Some {| status_code := status; headers := resp_headers;
                media_type := content_type_of hs;
                body := Content (concat_bytes chunks) |}
    end.

End Proxy.

(** * Definitions used by the statements *)

(** Every state change of the computation [m] lies in the relation [R]. *)
Definition respects (R : relation World) {A} (m : M A) : Prop :=
  ∀ w, R w (m w).2.

(** Changes that leave the registry, the tasks and every [_destroy_task]
    alone. *)
Definition same_core : relation World := λ w w',
  terminals w' = terminals w
  ∧ tasks (w_loop w') = tasks (w_loop w)
  ∧ dom (w_objects w') = dom (w_objects w)
  ∧ ∀ a, _destroy_task <$> (w_objects w' !! a) = _destroy_task <$> (w_objects w !! a).

(** The headers of every streaming response. *)
Definition sse_headers : gmap string string :=
  {[ "Cache-Control" := "no-cache"; "Connection" := "keep-alive" ]}.

(** The queue entry that a read leaves: its bytes, or the sentinel. *)
Definition chunk_of (r : read_result) : option bytes :=
  match r with
  | ReadData d => Some d
  | ReadError => None
  end.

(** ** The world each operation leaves

    The operations of the two classes, written as functions on worlds; the
    lemmas [cancel_destroy_timer_eq], [close_eq], [destroy_eq],
    [schedule_destroy_eq] and [delayed_wakeup_eq] show that the monadic
    definitions compute exactly these. *)

(** [task and not task.done()] *)
Definition pending (k : nat) (w : World) : bool :=
  match tasks (w_loop w) !! k with
  | Some t => negb (task_done t)
  | None => false
  end.

Definition cancel_world (self : nat) (w : World) : World :=
  match w_objects w !! self with
  | Some t =>
      match _destroy_task t with
      | Some k =>
          if pending k w
          then set_objects (alter (with_destroy_task None) self)
                 (set_tasks (alter (with_state cancel_state) k) w)
          else w
      | None => w
      end
  | None => w
  end.

(** The working directory [create] ends up with, and the object and the
    child it makes when it succeeds. *)
Definition resolved_dir (w : World) (work_dir : string) : string :=
  if negb (os_isdir (w_os w) work_dir) then os_home (w_os w) else work_dir.

Definition new_terminal (tid : string) (w : World) : TerminalProcess :=
  {| terminal_id := tid; master_fd := fresh (os_fds (w_os w));
     proc := fresh (dom (os_procs (w_os w))); output_queue := [];
     _destroy_task := None |}.

Definition new_process (w : World) (work_dir : string) : Process :=
  let master := fresh (os_fds (w_os w)) in
  {| p_argv := (spawn_command (BACKEND_CONTAINER w) (resolved_dir w work_dir)).1;
     p_cwd := (spawn_command (BACKEND_CONTAINER w) (resolved_dir w work_dir)).2;
     p_env := <["COLORTERM" := "truecolor"]>
                (<["TERM" := "xterm-256color"]> (os_environ (w_os w)));
     p_stdio := fresh ({[master]} ∪ os_fds (w_os w));
     p_alive := true |}.

(** The command [create] builds can be started. *)
Definition can_spawn (w : World) (work_dir : string) : bool :=
  os_exec_ok (w_os w)
    (spawn_command (BACKEND_CONTAINER w) (resolved_dir w work_dir)).1
    (spawn_command (BACKEND_CONTAINER w) (resolved_dir w work_dir)).2.

(** World after the swallowed [proc.kill()] and [os.close(fd)]. *)
Definition kill_world (pid : nat) (w : World) : World :=
  match os_procs (w_os w) !! pid with
  | Some p =>
      if p_alive p then
        set_os (os_set_procs (<[pid := {| p_argv := p_argv p; p_cwd := p_cwd p;
                                          p_env := p_env p; p_stdio := p_stdio p;
                                          p_alive := false |}]>)) w
      else w
  | None => w
  end.

Definition close_fd_world (fd : nat) (w : World) : World :=
  if decide (fd ∈ os_fds (w_os w))
  then set_os (λ o, os_set_winsize (delete fd) (os_set_fds (λ s, s ∖ {[fd]}) o)) w
  else w.

Definition close_world (self : nat) (w : World) : World :=
  match w_objects w !! self with
  | Some t =>
      close_fd_world (master_fd t)
        (kill_world (proc t) (set_readers (delete (master_fd t)) w))
  | None => w
  end.

Definition destroy_world (tid : string) (w : World) : World :=
  match terminals w !! tid with
  | Some a =>
      add_log (LogDestroyed tid)
        (close_world a (cancel_world a (set_terminals (delete tid) w)))
  | None => set_terminals (delete tid) w
  end.

(** ** Invariants *)

(** Every sleeping timer is the [_destroy_task] of the session registered
    under the identifier the timer will destroy. *)
Definition timer_inv (w : World) : Prop :=
  ∀ k task d,
    tasks (w_loop w) !! k = Some task → task_state_of task = Sleeping d →
    ∃ a t, terminals w !! task_target task = Some a
           ∧ w_objects w !! a = Some t ∧ _destroy_task t = Some k.

(** The registry refers to objects of the store only. *)
Definition registry_closed (w : World) : Prop :=
  ∀ tid a, terminals w !! tid = Some a → is_Some (w_objects w !! a).

Definition wf (w : World) : Prop := timer_inv w ∧ registry_closed w.

(** Well-formedness is kept from [w] to [w']. *)
Definition wf_step : relation World := λ w w', wf w → wf w'.

(** The worlds after [schedule_destroy] and after the wake-up of a timer. *)
Definition schedule_world (tid : string) (w : World) : World :=
  match terminals w !! tid with
  | None => w
  | Some a =>
      let w1 := cancel_world a w in
      let k := fresh (dom (tasks (w_loop w1))) in
      set_objects (alter (with_destroy_task (Some k)) a)
        (set_tasks (<[k := {| task_target := tid;
                              task_state_of :=
                                Sleeping (now (w_loop w1) + RECONNECT_TIMEOUT_SECONDS) |}]>) w1)
  end.

Definition wakeup_world (k : nat) (w : World) : World :=
  match tasks (w_loop w) !! k with
  | Some t =>
      match task_state_of t with
      | Sleeping deadline =>
          if Nat.leb deadline (now (w_loop w)) then
            set_tasks (alter (with_state (λ _, Finished true)) k)
              (add_log (LogAutoDestroyed (task_target t) RECONNECT_TIMEOUT_SECONDS)
                 (destroy_world (task_target t)
                    (set_tasks (alter (with_state (λ _, Running)) k) w)))
          else w
      | _ => w
      end
  | None => w
  end.

(** A finished task stays as it is. *)
Definition keeps_finished : relation World := λ w w',
  ∀ k task b, tasks (w_loop w) !! k = Some task → task_state_of task = Finished b →
              tasks (w_loop w') !! k = Some task.

(** No identifier has two sleeping timers. *)
Definition one_timer_per_session (w : World) : Prop :=
  ∀ k1 k2 t1 t2 d1 d2,
    tasks (w_loop w) !! k1 = Some t1 → task_state_of t1 = Sleeping d1 →
    tasks (w_loop w) !! k2 = Some t2 → task_state_of t2 = Sleeping d2 →
    task_target t1 = task_target t2 → k1 = k2.

(** The resumed [create] finds the registry as its handler's lookup left
    it: without an entry for the identifier. *)
Definition resumes_unraced (s : System) (ev : async_event) : bool :=
  match ev with
  | ConnectResume h =>
      match suspended s !! h with
      | Some f => bool_decide (terminals (sys_world s) !! cf_terminal_id f = None)
      | None => true
      end
  | _ => true
  end.

(** No identifier is registered by another connection while a [create] for
    it is suspended. *)
Fixpoint unraced (evs : list async_event) (s : System) : bool :=
  match evs with
  | [] => true
  | ev :: evs' => resumes_unraced s ev && unraced evs' (async_step s ev)
  end.

(** A text frame whose text decodes to the JSON object [items]. *)
Definition resize_frame (items : list (string * pyvalue)) : Message :=
  {| msg_bytes := None; msg_text := Some (Decoded (PDict items)) |}.

(** A backend reply with its status and headers blanked. *)
Definition strip_meta (r : backend_reply) : backend_reply :=
  match r with
  | Failed e => Failed e
  | Reply _ _ chunks broken => Reply 0 [] chunks broken
  end.

(** ** Further definitions: teardown, paths, live sessions *)

(** [_forward_output] when a send can fail: [ok] is the number of
    [send_bytes] calls that return before one raises, [None] when none
    raises.  A failed send leaves the loop without closing the socket. *)
Fixpoint _forward_output_sends (q : list (option bytes)) (ok : option nat)
    : list bytes * bool :=
  match q with
  | [] => ([], false)
  | None :: _ => ([], true)
  | Some data :: q' =>
      match ok with
      | Some 0 => ([], false)
      | Some (S n) =>
          let '(sent, closed) := _forward_output_sends q' (Some n) in
          (data :: sent, closed)
      | None =>
          let '(sent, closed) := _forward_output_sends q' None in
          (data :: sent, closed)
      end
  end.

(** The value a dict built from [items] holds for [k]: that of the last
    pair with this key. *)
Fixpoint last_value (k : string) (items : list (string * string)) : option string :=
  match items with
  | [] => None
  | (k', v) :: rest =>
      match last_value k rest with
      | Some v' => Some v'
      | None => if String.eqb k' k then Some v else None
      end
  end.

(** The world after the [finally] block of the handler. *)
Definition finally_world (terminal : nat) (tid : string) (w : World) : World :=
  schedule_world tid
    (match w_objects w !! terminal with
     | Some t => set_readers (delete (master_fd t)) w
     | None => w
     end).

(** The world in which a handler ends after the exception [e]. *)
Definition teardown_world (terminal : nat) (tid : string) (e : exn) (w : World) : World :=
  finally_world terminal tid
    (if decide (e = WebSocketDisconnect) then w else add_log (LogWsError tid e) w).

(** The directory [os.path.join(WORK_DIR, "sessions", session_id)] names. *)
Definition session_dir (root session_id : string) : string :=
  if String.eqb session_id "" then root
  else if startswith "/" session_id then session_id
  else (if String.eqb root "" || endswith_char "/" root then root else root ++ "/")
       ++ "sessions/" ++ session_id.

Definition is_dict (v : pyvalue) : bool :=
  match v with
  | PDict _ => true
  | _ => false
  end.

(** A session is closed in a world: descriptor released, child not alive. *)
Definition closed_in (t : TerminalProcess) (w : World) : Prop :=
  (master_fd t ∉ os_fds (w_os w))
  ∧ ∀ p, os_procs (w_os w) !! proc t = Some p → p_alive p = false.

(** Every registered session has an open descriptor and a child in the
    process table, and shares neither with a session registered under
    another identifier. *)
Definition live_sessions (w : World) : Prop :=
  ∀ tid a t,
    terminals w !! tid = Some a → w_objects w !! a = Some t →
    master_fd t ∈ os_fds (w_os w)
    ∧ is_Some (os_procs (w_os w) !! proc t)
    ∧ ∀ tid' a' t',
        terminals w !! tid' = Some a' → w_objects w !! a' = Some t' →
        master_fd t' = master_fd t ∨ proc t' = proc t → tid' = tid.

(** Changes that keep the registry, close no descriptor, forget no process
    and move no session to another descriptor or process. *)
Definition keeps_sessions : relation World := λ w w',
  terminals w' = terminals w
  ∧ os_fds (w_os w) ⊆ os_fds (w_os w')
  ∧ dom (os_procs (w_os w)) ⊆ dom (os_procs (w_os w'))
  ∧ ∀ a, (λ t, (master_fd t, proc t)) <$> (w_objects w' !! a)
         = (λ t, (master_fd t, proc t)) <$> (w_objects w !! a).

(** The invariant [I] is kept from [w] to [w']. *)
Definition inv_step (I : World → Prop) : relation World := λ w w', I w → I w'.

Definition sound (w : World) : Prop := wf w ∧ live_sessions w.

(** Only window sizes differ between [w] and [w']. *)
Definition only_winsize : relation World := λ w w',
  ∃ f, w' = set_os (os_set_winsize f) w.

(** ** Sample inputs *)

(** A machine with one existing directory, on which every PTY allocation and
    every spawn succeeds. *)
Definition sample_os : OS :=
  {| os_isdir := λ s, String.eqb s "/work"; os_home := "/home/user";
     os_abspath := λ s, s; os_environ := ∅; os_pty_available := true;
     os_exec_ok := λ _ _, true; os_fds := {[0; 1; 2]}; os_winsize := ∅;
     os_procs := ∅ |}.

Definition initial_world : World :=
  {| w_os := sample_os; w_loop := {| readers := ∅; tasks := ∅; now := 0 |};
     w_objects := ∅; terminals := ∅; w_log := [];
     BACKEND_CONTAINER := ""; WORK_DIR := "/work" |}.

(** The same machine when no command can be started. *)
Definition no_exec_world : World :=
  set_os (λ o, {| os_isdir := os_isdir o; os_home := os_home o;
                  os_abspath := os_abspath o; os_environ := os_environ o;
                  os_pty_available := true; os_exec_ok := λ _ _, false;
                  os_fds := os_fds o; os_winsize := os_winsize o;
                  os_procs := os_procs o |}) initial_world.

Definition connected_world : World := run [Connect "t1" ""] initial_world.

Definition sample_terminal : TerminalProcess :=
  {| terminal_id := "t1"; master_fd := 3; proc := 0; output_queue := [];
     _destroy_task := None |}.

Definition resize_120x40 : Message :=
  resize_frame [("type", PStr "resize"); ("cols", PInt 120); ("rows", PInt 40)].


(** A session that was left with one undelivered chunk and an armed timer. *)
Definition stale_world : World :=
  run [Readable 3 (ReadData "old");
       Receive 0 "t1" (ReceiveRaises WebSocketDisconnect)] connected_world.

Definition stale_terminal : TerminalProcess :=
  {| terminal_id := "t1"; master_fd := 3; proc := 0; output_queue := [Some "old"];
     _destroy_task := Some 0 |}.

(** Connect, drop the connection twice in a row, wait, and let the first
    and the second timer wake up. *)
Definition reconnect_events : list event :=
  [Connect "t1" "";
   Receive 0 "t1" (ReceiveRaises WebSocketDisconnect);
   Receive 0 "t1" (ReceiveRaises WebSocketDisconnect);
   Tick 300; Wakeup 0; Wakeup 1].


Definition sse_request : Request :=
  {| req_method := "POST"; req_query := "";
     req_headers := [("host", "localhost:8000"); ("accept", "text/event-stream");
                     ("connection", "keep-alive")];
     req_body := "hello" |}.

Definition sample_backend (rq : BackendRequest) : backend_reply :=
  Reply 404 [("content-type", "text/plain"); ("transfer-encoding", "chunked")]
        ["no"; "pe"] None.

(** The session of [connected_world] after an explicit delete: its object
    is still in the store, its descriptor is closed. *)
Definition deleted_world : World := run [Delete "t1"] connected_world.

(** Two sessions side by side. *)
Definition two_sessions_world : World :=
  run [Connect "t1" ""; Connect "t2" ""] initial_world.

Definition second_terminal : TerminalProcess :=
  {| terminal_id := "t2"; master_fd := 4; proc := 1; output_queue := [];
     _destroy_task := None |}.

Definition oversized_cols_items : list (string * pyvalue) :=
  [("type", PStr "resize"); ("cols", PInt 70000)].

Definition disconnect_then_reconnect : list event :=
  [Receive 0 "t1" (ReceiveRaises WebSocketDisconnect); Connect "t1" ""].

Definition disconnect_then_timeout : list event :=
  [Receive 0 "t1" (ReceiveRaises WebSocketDisconnect); Tick 300; Wakeup 0].

Definition initial_system : System :=
  {| sys_world := initial_world; suspended := ∅ |}.

(** Two connections for the unregistered identifier t1.  The first is
    suspended in [create] when the second arrives, creates its session and
    loses its client; then the first is resumed, and registers its own
    session under t1. *)
Definition overlapping_connects : list async_event :=
  [ConnectBegin "t1" "";
   Atomic (Connect "t1" "");
   Atomic (Receive 0 "t1" (ReceiveRaises WebSocketDisconnect));
   ConnectResume 0].

(** The same two connections one after the other. *)
Definition serial_connects : list async_event :=
  [ConnectBegin "t1" "";
   ConnectResume 0;
   Atomic (Receive 0 "t1" (ReceiveRaises WebSocketDisconnect));
   ConnectBegin "t1" "";
   Atomic (Receive 0 "t1" (ReceiveRaises WebSocketDisconnect))].

(** The world after the overlapping connections: t1 is registered to the
    session of the resumed connection, whose client is still connected. *)
Definition raced_world : World :=
  sys_world (async_run overlapping_connects initial_system).

(** * Lemmas and theorems *)

(** ** The reverse proxy *)

Lemma dict_of_foldl_lookup (items : list (string * string)) (d : gmap string string) k v :
  foldl (λ d kv, <[kv.1 := kv.2]> d) d items !! k = Some v →
  d !! k = Some v ∨ (k, v) ∈ items.
Proof.
  revert d. induction items as [|[k' v'] items IH]; intros d H; simpl in *.
  - by left.
  - destruct (IH _ H) as [Hd|Hin].
    + destruct (decide (k' = k)) as [->|Hne].
      * rewrite lookup_insert_eq in Hd. inversion Hd; subst. right. left.
      * rewrite lookup_insert_ne in Hd by done. by left.
    + right. by right.
Qed.

Lemma dict_of_lookup items k v : dict_of items !! k = Some v → (k, v) ∈ items.
Proof.
  intros H. apply dict_of_foldl_lookup in H as [H|H]; [|done].
  by rewrite lookup_empty in H.
Qed.

Lemma dict_of_filter_lookup (P : string * string → Prop) `{∀ kv, Decision (P kv)}
    items k v :
  dict_of (filter P items) !! k = Some v → P (k, v).
Proof.
  intros E. apply dict_of_lookup in E. by apply list_elem_of_filter in E as [HPk _].
Qed.

Lemma forward_headers_drop request k :
  lower k ∈ _HOP_BY_HOP ∨ lower k = "host" → _forward_headers request !! k = None.
Proof.
  intros Hk. unfold _forward_headers.
  destruct (dict_of _ !! k) as [v|] eqn:E; [|done].
  apply dict_of_filter_lookup in E as [H1 H2]. simpl in *. destruct Hk; done.
Qed.

(** C2 (amended).  The headers forwarded to the backend never contain a
    hop-by-hop name or [host], whatever the case of the name and in both
    modes.  In buffered mode no header of the returned response has a
    hop-by-hop name.  In streaming mode the returned response carries exactly
    the two headers the proxy sets itself, [Cache-Control: no-cache] and
    [Connection: keep-alive], and nothing from the backend. *)
Theorem proxy_hop_by_hop (URL : string) request path backend :
  (∀ k, lower k ∈ _HOP_BY_HOP ∨ lower k = "host" →
        b_headers (forwarded URL request path) !! k = None)
  ∧ (is_sse request = false →
     ∀ resp k, proxy URL request path backend = Some resp →
               lower k ∈ _HOP_BY_HOP → headers resp !! k = None)
  ∧ (is_sse request = true →
     ∃ resp, proxy URL request path backend = Some resp
             ∧ headers resp = sse_headers).
Proof.
  split; [|split].
  - intros k Hk. simpl. by apply forward_headers_drop.
  - intros Hs resp k Hp Hk. unfold proxy in Hp. rewrite Hs in Hp.
    assert (Herr : ∀ e, buffered_error e = Some resp → headers resp !! k = None).
    { intros [] He; simplify_eq/=; done. }
    destruct (backend _) as [e|status hs chunks [e|]]; eauto.
    simplify_eq/=.
    destruct (dict_of _ !! k) as [v|] eqn:E; [|done].
    apply dict_of_filter_lookup in E. simpl in E. done.
  - intros Hs. unfold proxy. rewrite Hs. eexists. split; [done|]. done.
Qed.

(** ** The read path *)

Ltac munfold :=
  unfold mbind, M_bind, mret, M_ret, gets, modify, raise, pass, pure,
         try_except, with_self in *.

Lemma on_readable_eq self r w :
  _on_readable self r w =
  (Ok tt, set_objects (alter (with_queue (λ q, (q ++ [chunk_of r])%list)) self) w).
Proof. destruct r; reflexivity. Qed.

Lemma stop_reading_eq self w :
  stop_reading self w =
  (Ok tt, match w_objects w !! self with
          | Some t => set_readers (delete (master_fd t)) w
          | None => w
          end).
Proof. unfold stop_reading. munfold. by destruct (w_objects w !! self). Qed.

Lemma start_reading_eq self t w :
  w_objects w !! self = Some t →
  start_reading self w =
  (Ok tt, set_readers (<[master_fd t := self]>)
            (set_objects (alter (with_queue drain) self) w)).
Proof.
  intros H. unfold start_reading, drain_queue, set_output_queue, add_reader. munfold.
  simpl. rewrite lookup_alter_eq, H. reflexivity.
Qed.

Lemma drain_nil q : drain q = [].
Proof. induction q; auto. Qed.

Lemma on_readable_event_eq fd self r w :
  readers (w_loop w) !! fd = Some self →
  step w (Readable fd r) =
  set_objects (alter (with_queue (λ q, (q ++ [chunk_of r])%list)) self) w.
Proof.
  intros H. unfold step, handle, on_readable_event. rewrite H.
  by rewrite on_readable_eq.
Qed.

Lemma on_readable_event_unregistered fd r w :
  readers (w_loop w) !! fd = None → step w (Readable fd r) = w.
Proof. intros H. unfold step, handle, on_readable_event. by rewrite H. Qed.

(** C1 (amended).  When the loop calls the reader of a session and the read
    raises [OSError], that call appends exactly one sentinel to the queue and
    leaves the reader registered, so a later failing read appends one more.
    Reads end when [stop_reading] unregisters the descriptor: from then on a
    readable descriptor triggers no read and nothing is enqueued. *)
Theorem read_error_enqueues_sentinel w self t :
  w_objects w !! self = Some t →
  readers (w_loop w) !! master_fd t = Some self →
  let w1 := step w (Readable (master_fd t) ReadError) in
  (∃ t1, w_objects w1 !! self = Some t1
         ∧ output_queue t1 = (output_queue t ++ [None])%list)
  ∧ readers (w_loop w1) = readers (w_loop w)
  ∧ (∀ r, let w2 := (stop_reading self w1).2 in
          step w2 (Readable (master_fd t) r) = w2).
Proof.
  intros Ht Hr w1. subst w1. rewrite (on_readable_event_eq _ self) by done.
  split; [|split].
  - eexists. simpl. rewrite lookup_alter_eq, Ht. simpl. done.
  - done.
  - intros r. rewrite stop_reading_eq. simpl. rewrite lookup_alter_eq, Ht. simpl.
    apply on_readable_event_unregistered. simpl. apply lookup_delete_eq.
Qed.

Lemma reads_fill_queue rs : ∀ w self t fd,
  w_objects w !! self = Some t →
  readers (w_loop w) !! fd = Some self →
  ∃ t', w_objects (run (map (Readable fd) rs) w) !! self = Some t'
        ∧ output_queue t' = (output_queue t ++ map chunk_of rs)%list
        ∧ master_fd t' = master_fd t.
Proof.
  induction rs as [|r rs IH]; intros w self t fd Ht Hr; simpl.
  - exists t. by rewrite app_nil_r.
  - rewrite (on_readable_event_eq _ self) by done.
    edestruct (IH (set_objects (alter (with_queue (λ q, (q ++ [chunk_of r])%list)) self) w)
                 self (with_queue (λ q, (q ++ [chunk_of r])%list) t) fd) as (t' & H1 & H2 & H3).
    + simpl. by rewrite lookup_alter_eq, Ht.
    + done.
    + exists t'. split; [done|]. simpl in *. by rewrite H2, <- app_assoc.
Qed.

Lemma cancel_destroy_timer_eq self w :
  cancel_destroy_timer self w = (Ok tt, cancel_world self w).
Proof.
  unfold cancel_destroy_timer, cancel_world, pending, task_is_done, task_cancel,
    set_destroy_task. munfold.
  destruct (w_objects w !! self) as [t|]; [|done].
  destruct (_destroy_task t) as [k|]; [|done].
  destruct (tasks (w_loop w) !! k) as [task|]; [|done].
  by destruct (task_done task).
Qed.

Lemma create_spec tid wd w :
  (os_pty_available (w_os w) = false ∧ create tid wd w = (Raise OSError, w))
  ∨ (os_pty_available (w_os w) = true ∧ can_spawn w wd = false
     ∧ ∃ w', create tid wd w = (Raise FileNotFoundError, w')
             ∧ terminals w' = terminals w ∧ w_objects w' = w_objects w
             ∧ w_loop w' = w_loop w)
  ∨ (os_pty_available (w_os w) = true ∧ can_spawn w wd = true
     ∧ ∃ w', create tid wd w = (Ok (fresh (dom (w_objects w))), w')
             ∧ terminals w' = <[tid := fresh (dom (w_objects w))]> (terminals w)
             ∧ w_objects w' = <[fresh (dom (w_objects w)) := new_terminal tid w]> (w_objects w)
             ∧ w_loop w' = w_loop w
             ∧ os_procs (w_os w') =
                 <[fresh (dom (os_procs (w_os w))) := new_process w wd]> (os_procs (w_os w))
             ∧ os_winsize (w_os w') !! fresh (os_fds (w_os w)) = Some (24, 80)%Z
             ∧ w_log w' = (w_log w ++ [LogCreated tid (fresh (dom (os_procs (w_os w))))
                                         (resolved_dir w wd)])%list).
Proof.
  unfold can_spawn, create.
  unfold os_openpty, ioctl_TIOCSWINSZ, create_subprocess_exec, os_close,
    TerminalProcess_init. munfold. simpl.
  fold (resolved_dir w wd).
  destruct (os_pty_available (w_os w)) eqn:Hpty; [right|by left].
  simpl. destruct (decide (_ ∈ _)) as [_|Hn]; [|exfalso; set_solver].
  destruct (spawn_command (BACKEND_CONTAINER w) (resolved_dir w wd)) as [cmd cwd] eqn:Hcmd.
  simpl.
  destruct (os_exec_ok (w_os w) cmd cwd) eqn:Hexec; [right|left].
  - split; [done|]. split; [done|]. simpl. rewrite Hcmd. simpl. rewrite Hexec.
    destruct (decide (_ ∈ _)) as [_|Hn]; [|exfalso; simpl in Hn; set_solver].
    eexists. split; [reflexivity|]. simpl.
    unfold new_terminal, new_process. rewrite Hcmd. simpl.
    repeat split; try done.
    rewrite lookup_delete_ne, lookup_insert_eq; [done|].
    pose proof (is_fresh ({[fresh (os_fds (w_os w))]} ∪ os_fds (w_os w))). set_solver.
  - split; [done|]. split; [done|]. simpl. rewrite Hcmd. simpl. rewrite Hexec.
    eexists. by split.
Qed.

Lemma kill_eq pid w :
  try_except (proc_kill pid) is_OSError pass w = (Ok tt, kill_world pid w).
Proof.
  unfold proc_kill, kill_world. munfold.
  destruct (os_procs (w_os w) !! pid) as [p|]; [|done]. by destruct (p_alive p).
Qed.

Lemma close_fd_eq fd w :
  try_except (os_close fd) is_OSError pass w = (Ok tt, close_fd_world fd w).
Proof.
  unfold os_close, close_fd_world. munfold. by destruct (decide _).
Qed.

Lemma close_eq self w : close self w = (Ok tt, close_world self w).
Proof.
  unfold close, close_world.
  unfold mbind, M_bind. rewrite stop_reading_eq.
  unfold with_self.
  destruct (w_objects w !! self) as [t|] eqn:Ht; simpl; rewrite Ht; [|done].
  unfold mbind, M_bind. rewrite kill_eq. by rewrite close_fd_eq.
Qed.

Lemma destroy_eq tid w : destroy tid w = (Ok tt, destroy_world tid w).
Proof.
  unfold destroy, destroy_world.
  unfold mbind, M_bind, gets, modify. simpl.
  destruct (terminals w !! tid) as [a|]; [|done].
  unfold mbind, M_bind.
  rewrite cancel_destroy_timer_eq, close_eq. done.
Qed.

(** ** Relational reasoning: every state change of a computation lies in a
    preorder *)

Section Respects.
Context (R : relation World) `{!PreOrder R}.

Lemma respects_ret {A} (a : A) : respects R (mret a).
Proof. intros w. reflexivity. Qed.

Lemma respects_pass : respects R pass.
Proof. intros w. reflexivity. Qed.

Lemma respects_raise {A} e : respects R (@raise A e).
Proof. intros w. reflexivity. Qed.

Lemma respects_gets {A} (f : World → A) : respects R (gets f).
Proof. intros w. reflexivity. Qed.

Lemma respects_pure {A} (r : result A) : respects R (pure r).
Proof. intros w. reflexivity. Qed.

Lemma respects_modify f : (∀ w, R w (f w)) → respects R (modify f).
Proof. intros H w. apply H. Qed.

Lemma respects_bind {A B} (m : M A) (f : A → M B) :
  respects R m → (∀ a, respects R (f a)) → respects R (m ≫= f).
Proof.
  intros Hm Hf w. unfold mbind, M_bind. specialize (Hm w).
  destruct (m w) as [[a|e] w']; simpl in *; [|done].
  etrans; [exact Hm|apply Hf].
Qed.

Lemma respects_try {A} (body handler : M A) classes :
  respects R body → respects R handler → respects R (try_except body classes handler).
Proof.
  intros Hb Hh w. unfold try_except. specialize (Hb w).
  destruct (body w) as [[a|e] w']; simpl in *; [done|].
  destruct (classes e); [|done].
  etrans; [exact Hb|apply Hh].
Qed.

Lemma respects_with_self {A} self (d : A) f :
  (∀ t, respects R (f t)) → respects R (with_self self d f).
Proof.
  intros Hf w. unfold with_self. destruct (w_objects w !! self); [apply Hf|reflexivity].
Qed.
End Respects.

Ltac respects_tac :=
  repeat lazymatch goal with
  | |- respects _ (mret _) => apply respects_ret; tc_solve
  | |- respects _ pass => apply respects_pass; tc_solve
  | |- respects _ (raise _) => apply respects_raise; tc_solve
  | |- respects _ (gets _) => apply respects_gets; tc_solve
  | |- respects _ (pure _) => apply respects_pure; tc_solve
  | |- respects _ (mbind _ _) => apply respects_bind; [tc_solve| |intros ?]
  | |- respects _ (try_except _ _ _) => apply respects_try; [tc_solve| |]
  | |- respects _ (with_self _ _ _) => apply respects_with_self; [tc_solve|intros ?]
  | |- respects _ (if ?b then _ else _) => destruct b
  | |- respects _ (match ?x with _ => _ end) => destruct x
  | _ => fail
  end.

Global Instance same_core_preorder : PreOrder same_core.
Proof.
  split.
  - by intros w.
  - intros w1 w2 w3 (H1 & H2 & H3 & H4) (G1 & G2 & G3 & G4).
    unfold same_core. rewrite G1, G2, G3. repeat split; try done.
    intros a. by rewrite G4.
Qed.

Lemma same_core_os f w : same_core w (set_os f w).
Proof. done. Qed.

Lemma same_core_readers f w : same_core w (set_readers f w).
Proof. done. Qed.

Lemma same_core_log r w : same_core w (add_log r w).
Proof. done. Qed.

Lemma same_core_queue f self w :
  same_core w (set_objects (alter (with_queue f) self) w).
Proof.
  repeat split; simpl.
  - apply dom_alter_L.
  - intros a. rewrite lookup_alter. case_decide; [subst|done].
    by destruct (w_objects w !! a).
Qed.

Lemma respects_core_openpty : respects same_core os_openpty.
Proof. intros w. unfold os_openpty. by destruct (os_pty_available _). Qed.

Lemma respects_core_close_fd fd : respects same_core (os_close fd).
Proof. intros w. unfold os_close. by destruct (decide _). Qed.

Lemma respects_core_write fd data : respects same_core (os_write fd data).
Proof. intros w. unfold os_write. by destruct (decide _). Qed.

Lemma respects_core_pack a b : respects same_core (struct_pack_HHHH a b).
Proof. unfold struct_pack_HHHH. respects_tac. Qed.

Lemma respects_core_ioctl fd p : respects same_core (ioctl_TIOCSWINSZ fd p).
Proof. intros w. unfold ioctl_TIOCSWINSZ. by destruct (decide _). Qed.

Lemma respects_core_exec cmd fd cwd env :
  respects same_core (create_subprocess_exec cmd fd cwd env).
Proof. intros w. unfold create_subprocess_exec. by destruct (os_exec_ok _ _ _). Qed.

Lemma respects_core_kill pid : respects same_core (proc_kill pid).
Proof.
  intros w. unfold proc_kill. destruct (os_procs _ !! pid) as [p|]; [|done].
  by destruct (p_alive p).
Qed.

Lemma respects_core_add_reader fd self : respects same_core (add_reader fd self).
Proof. done. Qed.

Lemma respects_core_remove_reader fd : respects same_core (remove_reader fd).
Proof. done. Qed.

Lemma respects_core_set_queue self f : respects same_core (set_output_queue self f).
Proof. intros w. apply same_core_queue. Qed.

Lemma respects_core_log r : respects same_core (modify (add_log r)).
Proof. done. Qed.

Create HintDb core_frame discriminated.
#[export] Hint Resolve respects_core_openpty respects_core_close_fd respects_core_write
  respects_core_pack respects_core_ioctl respects_core_exec respects_core_kill
  respects_core_add_reader respects_core_remove_reader respects_core_set_queue
  respects_core_log : core_frame.

Ltac core_frame := respects_tac; eauto with core_frame.

Lemma respects_core_stop_reading self : respects same_core (stop_reading self).
Proof. unfold stop_reading. core_frame. Qed.

Lemma respects_core_start_reading self : respects same_core (start_reading self).
Proof. unfold start_reading, drain_queue. core_frame. Qed.

Lemma respects_core_on_readable self r : respects same_core (_on_readable self r).
Proof. unfold _on_readable, os_read. core_frame. Qed.

Lemma respects_core_write_method self data : respects same_core (write self data).
Proof. unfold write. core_frame. Qed.

Lemma respects_core_resize self c r : respects same_core (resize self c r).
Proof. unfold resize. core_frame. Qed.

#[export] Hint Resolve respects_core_stop_reading respects_core_start_reading
  respects_core_on_readable respects_core_write_method respects_core_resize : core_frame.

Lemma respects_core_close self : respects same_core (close self).
Proof. unfold close. core_frame. Qed.

Lemma respects_core_dispatch terminal msg :
  respects same_core (terminal_ws_dispatch terminal msg).
Proof. unfold terminal_ws_dispatch, json_loads. core_frame. Qed.

#[export] Hint Resolve respects_core_close respects_core_dispatch : core_frame.

(** ** The timer invariant *)

Lemma wf_same_core w w' : same_core w w' → wf w → wf w'.
Proof.
  intros (Ht & Hk & Hd & Ho) [Hinv Hreg]. split.
  - intros k task d Hl Hs. rewrite Hk in Hl.
    destruct (Hinv k task d Hl Hs) as (a & t & H1 & H2 & H3).
    specialize (Ho a). rewrite H2 in Ho. simpl in Ho.
    destruct (w_objects w' !! a) as [t'|] eqn:E; simplify_eq/=.
    exists a, t'. rewrite Ht. split; [done|]. split; [done|]. congruence.
  - intros tid a Hl. rewrite Ht in Hl. apply Hreg in Hl.
    apply elem_of_dom. rewrite Hd. by apply elem_of_dom.
Qed.

Lemma cancel_state_not_sleeping s d : cancel_state s ≠ Sleeping d.
Proof. by destruct s. Qed.

(** Either nothing changes, or the one pending timer held by [self] is
    cancelled and forgotten. *)
Lemma cancel_world_cases self w :
  (cancel_world self w = w
   ∧ ∀ t k, w_objects w !! self = Some t → _destroy_task t = Some k → pending k w = false)
  ∨ (∃ t k, w_objects w !! self = Some t ∧ _destroy_task t = Some k
            ∧ pending k w = true
            ∧ cancel_world self w =
                set_objects (alter (with_destroy_task None) self)
                  (set_tasks (alter (with_state cancel_state) k) w)).
Proof.
  unfold cancel_world. destruct (w_objects w !! self) as [t|] eqn:Ht.
  - destruct (_destroy_task t) as [k|] eqn:Hk.
    + destruct (pending k w) eqn:Hp.
      * right. by exists t, k.
      * left. split; [done|]. intros ?? [= <-] ?. by simplify_eq.
    + left. split; [done|]. intros ?? [= <-] ?. by simplify_eq.
  - left. by split.
Qed.

Lemma sleeping_pending k task d w :
  tasks (w_loop w) !! k = Some task → task_state_of task = Sleeping d → pending k w = true.
Proof. intros H1 H2. unfold pending, task_done. by rewrite H1, H2. Qed.

(** A task that sleeps after the cancelling slept before, and is not the one
    held by [self]. *)
Lemma cancel_world_sleeping self w k task d :
  tasks (w_loop (cancel_world self w)) !! k = Some task →
  task_state_of task = Sleeping d →
  tasks (w_loop w) !! k = Some task
  ∧ ∀ t, w_objects w !! self = Some t → _destroy_task t ≠ Some k.
Proof.
  destruct (cancel_world_cases self w) as [[-> Hn]|(t & k0 & Ht & Hk & Hp & ->)];
    intros Hl Hs.
  - split; [done|]. intros t Ht Hk. specialize (Hn _ _ Ht Hk).
    by rewrite (sleeping_pending _ _ _ _ Hl Hs) in Hn.
  - simpl in Hl. rewrite lookup_alter in Hl. case_decide as Hkk.
    + subst k0. destruct (tasks (w_loop w) !! k) as [task0|]; simplify_eq/=.
      by apply cancel_state_not_sleeping in Hs.
    + split; [done|]. intros t' Ht' Hk'. simplify_eq.
Qed.

Lemma cancel_world_terminals self w : terminals (cancel_world self w) = terminals w.
Proof. by destruct (cancel_world_cases self w) as [[-> _]|(?&?&?&?&?& ->)]. Qed.

Lemma cancel_world_os self w : w_os (cancel_world self w) = w_os w.
Proof. by destruct (cancel_world_cases self w) as [[-> _]|(?&?&?&?&?& ->)]. Qed.

Lemma cancel_world_readers self w :
  readers (w_loop (cancel_world self w)) = readers (w_loop w).
Proof. by destruct (cancel_world_cases self w) as [[-> _]|(?&?&?&?&?& ->)]. Qed.

Lemma cancel_world_now self w : now (w_loop (cancel_world self w)) = now (w_loop w).
Proof. by destruct (cancel_world_cases self w) as [[-> _]|(?&?&?&?&?& ->)]. Qed.

Lemma cancel_world_log self w : w_log (cancel_world self w) = w_log w.
Proof. by destruct (cancel_world_cases self w) as [[-> _]|(?&?&?&?&?& ->)]. Qed.

Lemma cancel_world_dom self w : dom (w_objects (cancel_world self w)) = dom (w_objects w).
Proof.
  destruct (cancel_world_cases self w) as [[-> _]|(?&?&?&?&?& ->)]; [done|].
  simpl. apply dom_alter_L.
Qed.

Lemma cancel_world_other self w a :
  a ≠ self → w_objects (cancel_world self w) !! a = w_objects w !! a.
Proof.
  intros Hne. destruct (cancel_world_cases self w) as [[-> _]|(?&?&?&?&?& ->)]; [done|].
  simpl. by rewrite lookup_alter_ne.
Qed.

(** The object itself keeps its descriptor, its process and its queue. *)
Lemma cancel_world_self self w t :
  w_objects w !! self = Some t →
  ∃ t', w_objects (cancel_world self w) !! self = Some t'
        ∧ master_fd t' = master_fd t ∧ proc t' = proc t
        ∧ output_queue t' = output_queue t ∧ terminal_id t' = terminal_id t
        ∧ ∀ k, _destroy_task t' = Some k → pending k (cancel_world self w) = false.
Proof.
  intros Ht. destruct (cancel_world_cases self w) as [[-> Hn]|(t0 & k0 & Ht0 & Hk & Hp & ->)].
  - exists t. repeat split; try done. eauto.
  - simplify_eq. exists (with_destroy_task None t). simpl.
    rewrite lookup_alter_eq, Ht. by repeat split.
Qed.

Lemma cancel_world_wf self w : wf w → wf (cancel_world self w).
Proof.
  intros [Hinv Hreg]. split.
  - intros k task d Hl Hs.
    destruct (cancel_world_sleeping _ _ _ _ _ Hl Hs) as [Hl0 Hne].
    destruct (Hinv _ _ _ Hl0 Hs) as (a & t & H1 & H2 & H3).
    exists a, t. rewrite cancel_world_terminals. split; [done|]. split; [|done].
    rewrite cancel_world_other; [done|]. intros ->. by eapply Hne.
  - intros tid a Hl. rewrite cancel_world_terminals in Hl. apply Hreg in Hl.
    apply elem_of_dom. rewrite cancel_world_dom. by apply elem_of_dom.
Qed.

Lemma respects_weaken (R R' : relation World) {A} (m : M A) :
  (∀ w w', R w w' → R' w w') → respects R m → respects R' m.
Proof. intros H Hm w. apply H, Hm. Qed.

Lemma close_world_same_core self w : same_core w (close_world self w).
Proof. pose proof (respects_core_close self w) as H. by rewrite close_eq in H. Qed.

Lemma destroy_world_wf tid w : wf w → wf (destroy_world tid w).
Proof.
  intros [Hinv Hreg]. unfold destroy_world.
  destruct (terminals w !! tid) as [a|] eqn:Ha.
  - eapply wf_same_core; [apply same_core_log|].
    eapply wf_same_core; [apply close_world_same_core|].
    split.
    + intros k task d Hl Hs.
      destruct (cancel_world_sleeping _ _ _ _ _ Hl Hs) as [Hl0 Hne]. simpl in *.
      destruct (Hinv _ _ _ Hl0 Hs) as (a' & t' & H1 & H2 & H3).
      assert (a' ≠ a) as Hna by (intros ->; by eapply Hne).
      assert (task_target task ≠ tid) as Hnt by (intros E; rewrite E in H1; congruence).
      exists a', t'. rewrite cancel_world_terminals, cancel_world_other by done.
      simpl. by rewrite lookup_delete_ne.
    + intros tid' a' Hl. rewrite cancel_world_terminals in Hl. simpl in Hl.
      apply lookup_delete_Some in Hl as [_ Hl]. apply Hreg in Hl.
      apply elem_of_dom. rewrite cancel_world_dom. by apply elem_of_dom.
  - split.
    + intros k task d Hl Hs. destruct (Hinv _ _ _ Hl Hs) as (a' & t' & H1 & H2 & H3).
      exists a', t'. simpl. rewrite lookup_delete_ne; [done|]. intros E. congruence.
    + intros tid' a' Hl. simpl in Hl. apply lookup_delete_Some in Hl as [_ Hl]. eauto.
Qed.

Lemma schedule_destroy_eq tid w :
  schedule_destroy tid w = (Ok tt, schedule_world tid w).
Proof.
  unfold schedule_destroy, schedule_world. unfold mbind, M_bind, gets. simpl.
  destruct (terminals w !! tid) as [a|]; [|done].
  unfold mbind, M_bind. by rewrite cancel_destroy_timer_eq.
Qed.

Lemma fresh_task_None (w : World) : tasks (w_loop w) !! fresh (dom (tasks (w_loop w))) = None.
Proof. apply not_elem_of_dom, is_fresh. Qed.

Lemma schedule_world_wf tid w : wf w → wf (schedule_world tid w).
Proof.
  intros Hwf. unfold schedule_world.
  destruct (terminals w !! tid) as [a|] eqn:Ha; [|done].
  pose proof (cancel_world_wf a w Hwf) as [Hinv Hreg].
  destruct Hwf as [_ Hreg0]. destruct (Hreg0 _ _ Ha) as [t Ht].
  destruct (cancel_world_self _ _ _ Ht) as (t1 & Ht1 & _ & _ & _ & _ & Hnp).
  set (w1 := cancel_world a w) in *.
  pose proof (fresh_task_None w1) as Hfresh.
  set (k := fresh (dom (tasks (w_loop w1)))) in *.
  cbv zeta. split.
  - intros k' task d Hl Hs. simpl in Hl.
    destruct (decide (k' = k)) as [->|Hne].
    + rewrite lookup_insert_eq in Hl. simplify_eq/=.
      exists a, (with_destroy_task (Some k) t1).
      subst w1. rewrite cancel_world_terminals, lookup_alter_eq, Ht1. done.
    + rewrite lookup_insert_ne in Hl by done.
      destruct (Hinv _ _ _ Hl Hs) as (a' & t' & H1 & H2 & H3).
      assert (a' ≠ a) as Hna.
      { intros ->. simplify_eq. specialize (Hnp _ H3).
        by rewrite (sleeping_pending _ _ _ _ Hl Hs) in Hnp. }
      exists a', t'. simpl. by rewrite lookup_alter_ne.
  - intros tid' a' Hl. simpl in *. apply Hreg in Hl.
    apply elem_of_dom. rewrite dom_alter_L. by apply elem_of_dom.
Qed.

Lemma set_state_wf k s w :
  (∀ d, s ≠ Sleeping d) →
  wf w → wf (set_tasks (alter (with_state (λ _, s)) k) w).
Proof.
  intros Hs [Hinv Hreg]. split; [|done].
  intros k' task d Hl Hsl. simpl in Hl. rewrite lookup_alter in Hl.
  case_decide.
  - subst. destruct (tasks (w_loop w) !! k') as [t0|]; simplify_eq/=. by destruct (Hs d).
  - by apply (Hinv _ _ _ Hl Hsl).
Qed.

Lemma delayed_wakeup_eq k w : _delayed_wakeup k w = (Ok tt, wakeup_world k w).
Proof.
  unfold _delayed_wakeup, wakeup_world.
  destruct (tasks (w_loop w) !! k) as [t|]; [|done].
  destruct (task_state_of t) as [d| |]; try done.
  destruct (Nat.leb d (now (w_loop w))); [|done].
  unfold set_task_state, mbind, M_bind, modify. by rewrite destroy_eq.
Qed.

Lemma wakeup_world_wf k w : wf w → wf (wakeup_world k w).
Proof.
  intros Hwf. unfold wakeup_world.
  destruct (tasks (w_loop w) !! k) as [t|]; [|done].
  destruct (task_state_of t) as [d| |]; try done.
  destruct (Nat.leb d (now (w_loop w))); [|done].
  apply set_state_wf; [done|].
  eapply wf_same_core; [apply same_core_log|].
  apply destroy_world_wf. by apply set_state_wf.
Qed.

Lemma create_wf tid wd w :
  terminals w !! tid = None → wf w → wf (create tid wd w).2.
Proof.
  intros Habs [Hinv Hreg].
  destruct (create_spec tid wd w)
    as [[_ ->]|[(_ & _ & w' & -> & Ht & Ho & Hl)
               |(_ & _ & w' & -> & Ht & Ho & Hl & _)]]; simpl.
  - by split.
  - split.
    + intros k task d. rewrite Hl, Ht, Ho. apply Hinv.
    + intros tid' a'. rewrite Ht, Ho. apply Hreg.
  - assert (w_objects w !! fresh (dom (w_objects w)) = None) as Hfr
      by apply not_elem_of_dom, is_fresh.
    split.
    + intros k task d Hk Hs. rewrite Hl in Hk.
      destruct (Hinv _ _ _ Hk Hs) as (a' & t' & H1 & H2 & H3).
      exists a', t'. rewrite Ht, Ho.
      rewrite !lookup_insert_ne; [done| |]; intros E; congruence.
    + intros tid' a'. rewrite Ht, Ho. intros Hl'.
      destruct (decide (tid = tid')) as [->|Hne].
      * rewrite lookup_insert_eq in Hl'. simplify_eq. by rewrite lookup_insert_eq.
      * rewrite lookup_insert_ne in Hl' by done. apply Hreg in Hl'.
        destruct Hl' as [t' Ht']. rewrite lookup_insert_ne; [eauto|]. intros E. congruence.
Qed.

(** Any preorder that contains [same_core] and the effect of the four
    operations on timers and registry contains the effect of every event. *)
Section HandleRespects.
Context (R : relation World) `{!PreOrder R}.
Hypothesis R_core : ∀ w w', same_core w w' → R w w'.
Hypothesis R_destroy : ∀ tid, respects R (destroy tid).
Hypothesis R_schedule : ∀ tid, respects R (schedule_destroy tid).
Hypothesis R_wakeup : ∀ k, respects R (_delayed_wakeup k).
Hypothesis R_lookup_or_create : ∀ tid wd, respects R (lookup_or_create tid wd).

Lemma respects_of_core {A} (m : M A) : respects same_core m → respects R m.
Proof. apply respects_weaken, R_core. Qed.

Lemma respects_destroy_each tids : respects R (destroy_each tids).
Proof.
  induction tids as [|tid tids IH]; simpl.
  - apply respects_ret; tc_solve.
  - apply respects_bind; [tc_solve|apply R_destroy|done].
Qed.

Lemma respects_receive_turn terminal tid r : respects R (terminal_ws_turn terminal tid r).
Proof.
  intros w. unfold terminal_ws_turn.
  assert (respects same_core (msg ← receive r; terminal_ws_dispatch terminal msg)) as Hd.
  { unfold receive. core_frame. }
  specialize (Hd w). apply R_core in Hd.
  destruct ((msg ← receive r; terminal_ws_dispatch terminal msg) w) as [[[]|e] w']; [done|].
  simpl in Hd. etrans; [exact Hd|].
  assert (respects R
    ((if decide (e = WebSocketDisconnect) then pass
      else modify (add_log (LogWsError tid e)));;
     terminal_ws_finally terminal tid;; mret false)) as Hrest; [|apply Hrest].
  unfold terminal_ws_finally. respects_tac.
  - apply respects_of_core, respects_core_log.
  - apply respects_of_core, respects_core_stop_reading.
  - apply R_schedule.
Qed.

Lemma respects_handle ev : respects R (handle ev).
Proof.
  destruct ev as [tid sid|terminal tid r|fd r|tid|k|secs|]; simpl.
  - unfold terminal_ws_attach, resolve_work_dir. respects_tac.
    + apply R_lookup_or_create.
    + apply respects_of_core, respects_core_start_reading.
  - apply respects_bind; [tc_solve| |intros; apply respects_ret; tc_solve].
    apply respects_receive_turn.
  - apply respects_of_core. intros w. unfold on_readable_event.
    destruct (readers (w_loop w) !! fd); [apply respects_core_on_readable|reflexivity].
  - apply R_destroy.
  - apply R_wakeup.
  - apply respects_of_core. by intros w.
  - unfold destroy_all. respects_tac. apply respects_destroy_each.
Qed.

Lemma respects_run evs w : R w (run evs w).
Proof.
  revert w. induction evs as [|ev evs IH]; intros w; simpl; [reflexivity|].
  etrans; [apply (respects_handle ev w)|apply IH].
Qed.
End HandleRespects.

Global Instance wf_step_preorder : PreOrder wf_step.
Proof. split; unfold wf_step; [by intros w|intros w1 w2 w3 H1 H2 H; auto]. Qed.

Lemma respects_wf_lookup_or_create tid wd : respects wf_step (lookup_or_create tid wd).
Proof.
  intros w. unfold lookup_or_create, mbind, M_bind, gets. simpl.
  destruct (terminals w !! tid) as [a|] eqn:Ha.
  - unfold mbind, M_bind. rewrite cancel_destroy_timer_eq. intros Hwf. by apply cancel_world_wf.
  - intros Hwf. by apply create_wf.
Qed.

Lemma run_wf evs w : wf w → wf (run evs w).
Proof.
  apply (respects_run wf_step).
  - intros w1 w2 H Hwf. by eapply wf_same_core.
  - intros tid w1 Hwf. rewrite destroy_eq. by apply destroy_world_wf.
  - intros tid w1 Hwf. rewrite schedule_destroy_eq. by apply schedule_world_wf.
  - intros k w1 Hwf. rewrite delayed_wakeup_eq. by apply wakeup_world_wf.
  - apply respects_wf_lookup_or_create.
Qed.

Global Instance keeps_finished_preorder : PreOrder keeps_finished.
Proof.
  split.
  - by intros w k task b.
  - intros w1 w2 w3 H1 H2 k task b Hl Hs. eapply H2; [|done]. by eapply H1.
Qed.

Lemma keeps_finished_same_tasks w w' :
  tasks (w_loop w') = tasks (w_loop w) → keeps_finished w w'.
Proof. intros E k task b Hl _. by rewrite E. Qed.

Lemma with_state_finished f task b :
  task_state_of task = Finished b → f (Finished b) = Finished b → with_state f task = task.
Proof. destruct task as [tg st]. simpl. intros -> Hf. unfold with_state. simpl. by rewrite Hf. Qed.

Lemma keeps_finished_cancel self w : keeps_finished w (cancel_world self w).
Proof.
  destruct (cancel_world_cases self w) as [[-> _]|(t & k0 & _ & _ & _ & ->)]; [done|].
  intros k task b Hl Hs. simpl. rewrite lookup_alter. case_decide; [subst|done].
  rewrite Hl. simpl. f_equal. by eapply with_state_finished.
Qed.

Lemma keeps_finished_destroy tid w : keeps_finished w (destroy_world tid w).
Proof.
  unfold destroy_world.
  destruct (terminals w !! tid) as [a|]; [|by apply keeps_finished_same_tasks].
  intros k task b Hl Hs. simpl.
  destruct (close_world_same_core a (cancel_world a (set_terminals (delete tid) w)))
    as (_ & Ht & _).
  rewrite Ht. by apply (keeps_finished_cancel a (set_terminals (delete tid) w) k task b).
Qed.

Lemma keeps_finished_schedule tid w : keeps_finished w (schedule_world tid w).
Proof.
  unfold schedule_world. destruct (terminals w !! tid) as [a|]; [|done].
  etrans; [apply (keeps_finished_cancel a)|].
  intros k task b Hl Hs. simpl. rewrite lookup_insert_ne; [done|].
  intros <-. by rewrite fresh_task_None in Hl.
Qed.

Lemma keeps_finished_set_state k0 s w task0 d :
  tasks (w_loop w) !! k0 = Some task0 → task_state_of task0 = Sleeping d →
  keeps_finished w (set_tasks (alter (with_state (λ _, s)) k0) w).
Proof.
  intros Hl0 Hs0 k task b Hl Hs. simpl. rewrite lookup_alter_ne; [done|].
  intros ->. congruence.
Qed.

Lemma keeps_finished_wakeup k0 w : keeps_finished w (wakeup_world k0 w).
Proof.
  unfold wakeup_world.
  destruct (tasks (w_loop w) !! k0) as [t0|] eqn:Hl0; [|done].
  destruct (task_state_of t0) as [d| |] eqn:Hs0; try done.
  destruct (Nat.leb d (now (w_loop w))); [|done].
  intros k task b Hl Hs.
  assert (k ≠ k0) as Hne by (intros ->; congruence).
  simpl. rewrite lookup_alter_ne by done.
  apply (keeps_finished_destroy (task_target t0) _ k task b); [|done].
  simpl. by rewrite lookup_alter_ne.
Qed.

Lemma keeps_finished_create tid wd w : keeps_finished w (create tid wd w).2.
Proof.
  apply keeps_finished_same_tasks.
  destruct (create_spec tid wd w)
    as [[_ ->]|[(_ & _ & w' & -> & _ & _ & Hl)
               |(_ & _ & w' & -> & _ & _ & Hl & _)]]; simpl; by try rewrite Hl.
Qed.

Lemma run_keeps_finished evs w : keeps_finished w (run evs w).
Proof.
  apply (respects_run keeps_finished).
  - intros w1 w2 (_ & H & _). by apply keeps_finished_same_tasks.
  - intros tid w1. rewrite destroy_eq. apply keeps_finished_destroy.
  - intros tid w1. rewrite schedule_destroy_eq. apply keeps_finished_schedule.
  - intros k w1. rewrite delayed_wakeup_eq. apply keeps_finished_wakeup.
  - intros tid wd w1. unfold lookup_or_create, mbind, M_bind, gets. simpl.
    destruct (terminals w1 !! tid) as [a|].
    + unfold mbind, M_bind. rewrite cancel_destroy_timer_eq. apply keeps_finished_cancel.
    + apply keeps_finished_create.
Qed.

(** ** Attaching, creating and destroying sessions *)

Lemma forward_output_elem q data :
  data ∈ (_forward_output q).1 → Some data ∈ q.
Proof.
  induction q as [|[d|] q IH]; simpl.
  - by intros ?%elem_of_nil.
  - destruct (_forward_output q) as [sent closed]. simpl in *.
    intros [->|H]%elem_of_cons; [left|right; auto].
  - by intros ?%elem_of_nil.
Qed.

Lemma chunk_of_elem data rs : Some data ∈ map chunk_of rs → ReadData data ∈ rs.
Proof.
  intros H. apply list_elem_of_fmap in H as ([d|] & E & Hin); simplify_eq/=. done.
Qed.

Lemma connect_existing tid sid self w :
  terminals w !! tid = Some self →
  terminal_ws_attach tid sid w = (Ok self, (start_reading self (cancel_world self w)).2).
Proof.
  intros H. unfold terminal_ws_attach, resolve_work_dir, lookup_or_create.
  unfold mbind, M_bind, gets. simpl. rewrite H.
  unfold mbind, M_bind. rewrite cancel_destroy_timer_eq. simpl.
  by destruct (start_reading self (cancel_world self w)) as [[[]|e] w'] eqn:E;
    [|unfold start_reading, drain_queue, set_output_queue, add_reader in E;
      unfold mbind, M_bind, modify, with_self in E; simpl in E;
      destruct (_ !! self) in E; simplify_eq].
Qed.

Lemma step_connect_existing tid sid self w :
  terminals w !! tid = Some self →
  step w (Connect tid sid) = (start_reading self (cancel_world self w)).2.
Proof.
  intros H. unfold step, handle, mbind, M_bind. by rewrite (connect_existing _ _ self).
Qed.

(** C4.  [start_reading] empties the queue and registers the reader, so the
    queue afterwards holds exactly the chunks read after the restart.  When a
    connection attaches to a session already in the registry, every frame
    [_forward_output] sends to the new client comes from a read made after
    the reconnect, whatever was buffered before. *)
Theorem start_reading_discards_stale w self t :
  w_objects w !! self = Some t →
  (∃ t0, w_objects (start_reading self w).2 !! self = Some t0
         ∧ output_queue t0 = []
         ∧ readers (w_loop (start_reading self w).2) !! master_fd t = Some self)
  ∧ (∀ rs, ∃ t', w_objects (run (map (Readable (master_fd t)) rs)
                               (start_reading self w).2) !! self = Some t'
                 ∧ output_queue t' = map chunk_of rs)
  ∧ (∀ tid sid rs, terminals w !! tid = Some self →
       ∃ t', w_objects (run (Connect tid sid :: map (Readable (master_fd t)) rs) w)
               !! self = Some t'
             ∧ output_queue t' = map chunk_of rs
             ∧ ∀ data, data ∈ (_forward_output (output_queue t')).1 →
                       ReadData data ∈ rs).
Proof.
  intros Ht.
  assert (Hstart : ∀ w0 t0, w_objects w0 !! self = Some t0 → master_fd t0 = master_fd t →
            ∀ rs, ∃ t', w_objects (run (map (Readable (master_fd t)) rs)
                                     (start_reading self w0).2) !! self = Some t'
                        ∧ output_queue t' = map chunk_of rs).
  { intros w0 t0 Ht0 Hfd rs. rewrite (start_reading_eq _ t0) by done. simpl.
    edestruct (reads_fill_queue rs
                 (set_readers (<[master_fd t0 := self]>)
                    (set_objects (alter (with_queue drain) self) w0))
                 self (with_queue drain t0) (master_fd t)) as (t' & H1 & H2 & _).
    - simpl. by rewrite lookup_alter_eq, Ht0.
    - simpl. rewrite Hfd. apply lookup_insert_eq.
    - exists t'. split; [done|]. simpl in H2. by rewrite drain_nil in H2. }
  split; [|split].
  - rewrite (start_reading_eq _ t) by done. simpl.
    exists (with_queue drain t). rewrite lookup_alter_eq, Ht. simpl.
    rewrite drain_nil, lookup_insert_eq. done.
  - by apply (Hstart w t).
  - intros tid sid rs Htid. unfold run. simpl foldl.
    rewrite (step_connect_existing _ _ self) by done. fold (run (map (Readable (master_fd t)) rs)).
    destruct (cancel_world_self _ _ _ Ht) as (t1 & Ht1 & Hfd & _).
    destruct (Hstart _ _ Ht1 Hfd rs) as (t' & H1 & H2).
    exists t'. split; [done|]. split; [done|].
    intros data Hd. apply chunk_of_elem. rewrite <- H2. by apply forward_output_elem.
Qed.

Lemma lookup_or_create_present tid wd self w :
  terminals w !! tid = Some self →
  lookup_or_create tid wd w = (Ok self, cancel_world self w).
Proof.
  intros H. unfold lookup_or_create, mbind, M_bind, gets. simpl. rewrite H.
  unfold mbind, M_bind. by rewrite cancel_destroy_timer_eq.
Qed.

Lemma lookup_or_create_absent tid wd w :
  terminals w !! tid = None → lookup_or_create tid wd w = create tid wd w.
Proof.
  intros H. unfold lookup_or_create, mbind, M_bind, gets. simpl. by rewrite H.
Qed.

Lemma create_registers tid wd w self w1 :
  create tid wd w = (Ok self, w1) → terminals w1 !! tid = Some self.
Proof.
  intros H.
  destruct (create_spec tid wd w)
    as [[_ E]|[(_ & _ & w' & E & _)|(_ & _ & w' & E & Ht & _)]];
    rewrite E in H; simplify_eq.
  rewrite Ht. apply lookup_insert_eq.
Qed.

(** C6.  If the identifier is in the registry, the lookup returns the
    registered object and neither spawns a process nor allocates an object;
    a process table that changed means the identifier was absent; and a
    lookup that returned a session returns the same object when repeated,
    with the operating system state untouched. *)
Theorem lookup_or_create_reuses w tid wd :
  (∀ self, terminals w !! tid = Some self →
     ∃ w', lookup_or_create tid wd w = (Ok self, w')
           ∧ terminals w' = terminals w ∧ w_os w' = w_os w
           ∧ dom (w_objects w') = dom (w_objects w))
  ∧ (os_procs (w_os (lookup_or_create tid wd w).2) ≠ os_procs (w_os w) →
     terminals w !! tid = None)
  ∧ (∀ self w1 wd', lookup_or_create tid wd w = (Ok self, w1) →
       ∃ w2, lookup_or_create tid wd' w1 = (Ok self, w2)
             ∧ w_os w2 = w_os w1 ∧ terminals w2 = terminals w1).
Proof.
  split; [|split].
  - intros self H. exists (cancel_world self w).
    rewrite (lookup_or_create_present _ _ self) by done.
    by rewrite cancel_world_terminals, cancel_world_os, cancel_world_dom.
  - intros Hne. destruct (terminals w !! tid) as [self|] eqn:H; [|done].
    rewrite (lookup_or_create_present _ _ self) in Hne by done. simpl in Hne.
    by rewrite cancel_world_os in Hne.
  - intros self w1 wd' H.
    assert (terminals w1 !! tid = Some self) as H1.
    { destruct (terminals w !! tid) as [a|] eqn:Ha.
      - rewrite (lookup_or_create_present _ _ a) in H by done. simplify_eq.
        by rewrite cancel_world_terminals.
      - rewrite lookup_or_create_absent in H by done. by eapply create_registers. }
    exists (cancel_world self w1). rewrite (lookup_or_create_present _ _ self) by done.
    by rewrite cancel_world_terminals, cancel_world_os.
Qed.

(** C5.  If the PTY cannot be allocated or the process cannot be started,
    [create] raises, the registry and the object store are as before, and
    the handler's lookup for an absent identifier raises the same
    exception. *)
Theorem create_failure_leaves_registry w tid wd :
  os_pty_available (w_os w) = false ∨ can_spawn w wd = false →
  ∃ e w', create tid wd w = (Raise e, w')
          ∧ terminals w' = terminals w
          ∧ w_objects w' = w_objects w
          ∧ (terminals w !! tid = None → lookup_or_create tid wd w = (Raise e, w')).
Proof.
  intros Hfail.
  destruct (create_spec tid wd w)
    as [[Hp E]|[(Hp & Hs & w' & E & Ht & Ho & _)|(Hp & Hs & _)]].
  - exists OSError, w. repeat split; try done.
    intros Habs. by rewrite lookup_or_create_absent.
  - exists FileNotFoundError, w'. repeat split; try done.
    intros Habs. by rewrite lookup_or_create_absent.
  - destruct Hfail; congruence.
Qed.

(** C9.  For a working directory that is not an existing directory,
    [create] behaves exactly as if it had been called with the home
    directory; when a PTY is available and the command can be started from
    the home directory it succeeds, the child running with the home
    directory as its [cwd] (or as its [--workdir] in container mode). *)
Theorem create_missing_dir_uses_home w tid wd :
  os_isdir (w_os w) wd = false →
  create tid wd w = create tid (os_home (w_os w)) w
  ∧ (os_pty_available (w_os w) = true →
     os_exec_ok (w_os w)
       (spawn_command (BACKEND_CONTAINER w) (os_home (w_os w))).1
       (spawn_command (BACKEND_CONTAINER w) (os_home (w_os w))).2 = true →
     ∃ self w' t p,
       create tid wd w = (Ok self, w')
       ∧ w_objects w' !! self = Some t
       ∧ os_procs (w_os w') !! proc t = Some p
       ∧ p_alive p = true
       ∧ p_argv p = (spawn_command (BACKEND_CONTAINER w) (os_home (w_os w))).1
       ∧ p_cwd p = (spawn_command (BACKEND_CONTAINER w) (os_home (w_os w))).2).
Proof.
  intros Hdir.
  assert (resolved_dir w wd = os_home (w_os w)) as Hres
    by (unfold resolved_dir; by rewrite Hdir).
  split.
  - unfold create, mbind, M_bind, gets. simpl. rewrite Hdir. simpl.
    by destruct (os_isdir (w_os w) (os_home (w_os w))).
  - intros Hpty Hexec.
    destruct (create_spec tid wd w)
      as [[Hp _]|[(_ & Hs & _)|(_ & _ & w' & E & Ht & Ho & _ & Hpr & _)]].
    + congruence.
    + unfold can_spawn in Hs. rewrite Hres in Hs. congruence.
    + exists (fresh (dom (w_objects w))), w', (new_terminal tid w), (new_process w wd).
      split; [done|]. rewrite Ho, Hpr, lookup_insert_eq. simpl.
      rewrite lookup_insert_eq. unfold new_process. simpl. by rewrite Hres.
Qed.

Lemma kill_world_dead pid w p :
  os_procs (w_os (kill_world pid w)) !! pid = Some p → p_alive p = false.
Proof.
  unfold kill_world. destruct (os_procs (w_os w) !! pid) as [p0|] eqn:E.
  - destruct (p_alive p0) eqn:Ha; simpl.
    + rewrite lookup_insert_eq. intros ?. by simplify_eq.
    + rewrite E. intros ?. by simplify_eq.
  - by rewrite E.
Qed.

Lemma kill_world_rest pid w :
  w_loop (kill_world pid w) = w_loop w
  ∧ os_fds (w_os (kill_world pid w)) = os_fds (w_os w)
  ∧ terminals (kill_world pid w) = terminals w.
Proof.
  unfold kill_world. destruct (os_procs (w_os w) !! pid) as [p0|]; [|done].
  by destruct (p_alive p0).
Qed.

Lemma close_fd_world_closed fd w : fd ∉ os_fds (w_os (close_fd_world fd w)).
Proof.
  unfold close_fd_world. destruct (decide _) as [Hin|Hout]; simpl; [|done].
  rewrite elem_of_difference, elem_of_singleton. tauto.
Qed.

Lemma close_fd_world_rest fd w :
  w_loop (close_fd_world fd w) = w_loop w
  ∧ os_procs (w_os (close_fd_world fd w)) = os_procs (w_os w)
  ∧ terminals (close_fd_world fd w) = terminals w.
Proof. unfold close_fd_world. by destruct (decide _). Qed.

(** What [close] leaves behind for a session whose object is [t]. *)
Lemma close_world_closed self t w :
  w_objects w !! self = Some t →
  readers (w_loop (close_world self w)) !! master_fd t = None
  ∧ (master_fd t ∉ os_fds (w_os (close_world self w)))
  ∧ (∀ p, os_procs (w_os (close_world self w)) !! proc t = Some p → p_alive p = false).
Proof.
  intros Ht. unfold close_world. rewrite Ht.
  destruct (close_fd_world_rest (master_fd t)
              (kill_world (proc t) (set_readers (delete (master_fd t)) w)))
    as (Hl & Hp & _).
  destruct (kill_world_rest (proc t) (set_readers (delete (master_fd t)) w))
    as (Hl' & _).
  split; [|split].
  - rewrite Hl, Hl'. simpl. apply lookup_delete_eq.
  - apply close_fd_world_closed.
  - intros p. rewrite Hp. apply kill_world_dead.
Qed.

Lemma set_terminals_id (w : World) : set_terminals (λ _, terminals w) w = w.
Proof. by destruct w. Qed.

(** C8.  [destroy] always returns normally and removes the identifier from
    the registry.  For an unknown identifier the world is unchanged.  For a
    registered session the reader of its descriptor is unregistered, the
    descriptor is closed, the child is not alive, and a sleeping eviction
    timer held by the session is finished without having fired. *)
Theorem destroy_closes_session w tid :
  ∃ w', destroy tid w = (Ok tt, w')
        ∧ terminals w' = delete tid (terminals w)
        ∧ match terminals w !! tid with
          | None => w' = w
          | Some self =>
              ∀ t, w_objects w !! self = Some t →
                   readers (w_loop w') !! master_fd t = None
                   ∧ (master_fd t ∉ os_fds (w_os w'))
                   ∧ (∀ p, os_procs (w_os w') !! proc t = Some p → p_alive p = false)
                   ∧ (∀ k task d,
                        _destroy_task t = Some k →
                        tasks (w_loop w) !! k = Some task →
                        task_state_of task = Sleeping d →
                        tasks (w_loop w') !! k =
                          Some {| task_target := task_target task;
                                  task_state_of := Finished false |})
          end.
Proof.
  exists (destroy_world tid w). split; [apply destroy_eq|].
  unfold destroy_world. destruct (terminals w !! tid) as [self|] eqn:Hs.
  - set (w1 := set_terminals (delete tid) w).
    destruct (close_world_same_core self (cancel_world self w1)) as (Ht & Hk & _).
    split.
    + simpl. by rewrite Ht, cancel_world_terminals.
    + intros t Hobj.
      destruct (cancel_world_self self w1 t Hobj) as (t1 & Ht1 & Hfd & Hpr & _).
      destruct (close_world_closed self t1 (cancel_world self w1) Ht1) as (H1 & H2 & H3).
      rewrite Hfd in H1, H2. rewrite Hpr in H3.
      split; [done|]. split; [done|]. split; [done|].
      intros k task d Hdt Hl Hsl. simpl. rewrite Hk.
      destruct (cancel_world_cases self w1) as [[_ Hn]|(t0 & k0 & Ht0 & Hk0 & _ & ->)].
      * specialize (Hn _ _ Hobj Hdt).
        by rewrite (sleeping_pending k task d w1) in Hn.
      * assert (t0 = t) as -> by (subst w1; simpl in *; congruence).
        assert (k0 = k) as -> by congruence.
        simpl. rewrite lookup_alter_eq, Hl. simpl. unfold with_state. by rewrite Hsl.
  - split; [done|]. simpl. rewrite <- (set_terminals_id w) at 2.
    unfold set_terminals. simpl. by rewrite delete_id.
Qed.

Lemma wf_one_timer w : wf w → one_timer_per_session w.
Proof.
  intros [Hinv _] k1 k2 t1 t2 d1 d2 Hl1 Hs1 Hl2 Hs2 Htg.
  destruct (Hinv _ _ _ Hl1 Hs1) as (a1 & o1 & H1 & H2 & H3).
  destruct (Hinv _ _ _ Hl2 Hs2) as (a2 & o2 & G1 & G2 & G3).
  rewrite Htg in H1. congruence.
Qed.

Lemma cancel_world_tasks_dom self w :
  dom (tasks (w_loop (cancel_world self w))) = dom (tasks (w_loop w)).
Proof.
  destruct (cancel_world_cases self w) as [[-> _]|(?&?&?&?&?& ->)]; [done|].
  simpl. apply dom_alter_L.
Qed.

Lemma cancel_world_target self w k :
  task_target <$> (tasks (w_loop (cancel_world self w)) !! k)
  = task_target <$> (tasks (w_loop w) !! k).
Proof.
  destruct (cancel_world_cases self w) as [[-> _]|(?&k0&?&?&?& ->)]; [done|].
  simpl. rewrite lookup_alter. case_decide; [subst|done].
  by destruct (tasks (w_loop w) !! k).
Qed.

(** Cancelling the sleeping timer a session holds finishes it unfired. *)
Lemma cancel_world_cancels self w t k task d :
  w_objects w !! self = Some t → _destroy_task t = Some k →
  tasks (w_loop w) !! k = Some task → task_state_of task = Sleeping d →
  tasks (w_loop (cancel_world self w)) !! k =
    Some {| task_target := task_target task; task_state_of := Finished false |}.
Proof.
  intros Ht Hk Hl Hs.
  destruct (cancel_world_cases self w) as [[_ Hn]|(t0 & k0 & Ht0 & Hk0 & _ & ->)].
  - specialize (Hn _ _ Ht Hk). by rewrite (sleeping_pending k task d w) in Hn.
  - simplify_eq. simpl. rewrite lookup_alter_eq, Hl. simpl. unfold with_state. by rewrite Hs.
Qed.

Lemma destroy_world_terminals tid w :
  terminals (destroy_world tid w) = delete tid (terminals w).
Proof.
  unfold destroy_world. destruct (terminals w !! tid) as [a|]; [|done].
  destruct (close_world_same_core a (cancel_world a (set_terminals (delete tid) w)))
    as (Ht & _).
  simpl. by rewrite Ht, cancel_world_terminals.
Qed.

Lemma destroy_world_target tid w k :
  task_target <$> (tasks (w_loop (destroy_world tid w)) !! k)
  = task_target <$> (tasks (w_loop w) !! k).
Proof.
  unfold destroy_world. destruct (terminals w !! tid) as [a|]; [|done].
  destruct (close_world_same_core a (cancel_world a (set_terminals (delete tid) w)))
    as (_ & Ht & _).
  simpl. by rewrite Ht, cancel_world_target.
Qed.

(** ** Connections suspended in [create] *)

(** The two halves of [create], run one after the other, are [create]. *)
Lemma create_split tid wd w :
  create tid wd w = (f ← create_until_await tid wd; create_after_await f) w.
Proof.
  unfold create, create_until_await, create_after_await.
  unfold mbind, M_bind, gets. simpl.
  destruct (os_openpty w) as [[[master slave]|e] w1]; [|done].
  destruct (ioctl_TIOCSWINSZ master (24, 80)%Z w1) as [[[]|e] w2]; [|done].
  destruct (spawn_command _ _) as [cmd cwd].
  by destruct (create_subprocess_exec cmd slave cwd _ w2) as [[pid|e] w3].
Qed.

Lemma respects_core_create_until_await tid wd :
  respects same_core (create_until_await tid wd).
Proof.
  unfold create_until_await.
  apply respects_bind; [tc_solve|apply respects_gets; tc_solve|intros isdir].
  apply respects_bind; [tc_solve|apply respects_gets; tc_solve|intros home].
  apply respects_bind; [tc_solve|apply respects_core_openpty|intros [master slave]].
  apply respects_bind; [tc_solve|apply respects_core_ioctl|intros _].
  apply respects_bind; [tc_solve|apply respects_gets; tc_solve|intros environ].
  apply respects_bind; [tc_solve|apply respects_gets; tc_solve|intros container].
  destruct (spawn_command _ _) as [cmd cwd].
  apply respects_bind; [tc_solve|apply respects_core_exec|intros pid].
  apply respects_ret; tc_solve.
Qed.

Lemma start_reading_ok self w : (start_reading self w).1 = Ok tt.
Proof.
  unfold start_reading, drain_queue, set_output_queue, add_reader. munfold. simpl.
  by destruct (alter (with_queue drain) self (w_objects w) !! self).
Qed.

(** A connection for a registered identifier does not suspend. *)
Lemma until_await_registered tid sid w t :
  terminals w !! tid = Some t →
  terminal_ws_until_await tid sid w = (Ok None, (terminal_ws_attach tid sid w).2).
Proof.
  intros Ht. unfold terminal_ws_until_await, terminal_ws_attach, lookup_or_create.
  unfold resolve_work_dir, mbind, M_bind, gets. simpl. rewrite Ht.
  unfold mbind, M_bind. rewrite cancel_destroy_timer_eq.
  unfold mret, M_ret.
  pose proof (start_reading_ok t (cancel_world t w)) as Hok.
  destruct (start_reading t (cancel_world t w)) as [r w']. simpl in Hok. by subst r.
Qed.

(** Up to its suspension a connection for an unregistered identifier
    touches the operating system only. *)
Lemma until_await_absent tid sid w :
  terminals w !! tid = None →
  same_core w (terminal_ws_until_await tid sid w).2.
Proof.
  intros Ht.
  assert (respects same_core
            (f ← create_until_await tid
                   (os_abspath (w_os w)
                      (if negb (String.eqb sid "")
                       then path_join (WORK_DIR w) ["sessions"; sid] else WORK_DIR w));
             mret (Some f))) as H.
  { apply respects_bind; [tc_solve|apply respects_core_create_until_await|].
    intros f. apply respects_ret; tc_solve. }
  specialize (H w).
  unfold terminal_ws_until_await, resolve_work_dir, mbind, M_bind, gets in *.
  simpl in *. by rewrite Ht.
Qed.

(** The resumed half of [create]: either the slave descriptor is no longer
    open and [os.close] raises, or the session is made and registered. *)
Lemma create_after_await_spec f w :
  ((cf_slave_fd f ∉ os_fds (w_os w)) ∧ create_after_await f w = (Raise OSError, w))
  ∨ (cf_slave_fd f ∈ os_fds (w_os w)
     ∧ ∃ w', create_after_await f w = (Ok (fresh (dom (w_objects w))), w')
             ∧ terminals w' = <[cf_terminal_id f := fresh (dom (w_objects w))]> (terminals w)
             ∧ w_objects w' =
                 <[fresh (dom (w_objects w)) :=
                     {| terminal_id := cf_terminal_id f; master_fd := cf_master_fd f;
                        proc := cf_pid f; output_queue := []; _destroy_task := None |}]>
                   (w_objects w)
             ∧ w_loop w' = w_loop w).
Proof.
  unfold create_after_await, os_close, TerminalProcess_init. munfold.
  destruct (decide (cf_slave_fd f ∈ os_fds (w_os w))) as [Hin|Hout]; [right|by left].
  split; [done|]. eexists. split; [reflexivity|]. by repeat split.
Qed.

Lemma create_after_await_wf f w :
  terminals w !! cf_terminal_id f = None → wf w → wf (create_after_await f w).2.
Proof.
  intros Habs [Hinv Hreg].
  destruct (create_after_await_spec f w) as [[_ ->]|(_ & w' & -> & Ht & Ho & Hl)]; simpl.
  - by split.
  - assert (w_objects w !! fresh (dom (w_objects w)) = None) as Hfr
      by apply not_elem_of_dom, is_fresh.
    split.
    + intros k task d Hk Hs. rewrite Hl in Hk.
      destruct (Hinv _ _ _ Hk Hs) as (a' & t' & H1 & H2 & H3).
      exists a', t'. rewrite Ht, Ho.
      rewrite !lookup_insert_ne; [done| |]; intros E; congruence.
    + intros tid' a'. rewrite Ht, Ho. intros Hl'.
      destruct (decide (cf_terminal_id f = tid')) as [<-|Hne].
      * rewrite lookup_insert_eq in Hl'. simplify_eq. by rewrite lookup_insert_eq.
      * rewrite lookup_insert_ne in Hl' by done. apply Hreg in Hl'.
        destruct Hl' as [t' Ht']. rewrite lookup_insert_ne; [eauto|]. intros E. congruence.
Qed.

Lemma after_await_eq f w :
  (terminal_ws_after_await f w).2
  = match create_after_await f w with
    | (Ok terminal, w') => (start_reading terminal w').2
    | (Raise _, w') => w'
    end.
Proof.
  unfold terminal_ws_after_await, mbind, M_bind.
  destruct (create_after_await f w) as [[terminal|e] w']; [|done].
  pose proof (start_reading_ok terminal w') as Hok.
  destruct (start_reading terminal w') as [r w'']. simpl in Hok. by subst r.
Qed.

Lemma after_await_wf f w :
  terminals w !! cf_terminal_id f = None → wf w → wf (terminal_ws_after_await f w).2.
Proof.
  intros Habs Hwf. rewrite after_await_eq.
  pose proof (create_after_await_wf f w Habs Hwf) as H.
  destruct (create_after_await f w) as [[terminal|e] w']; [|done].
  eapply wf_same_core; [apply respects_core_start_reading|done].
Qed.

Lemma after_await_tasks f w :
  tasks (w_loop (terminal_ws_after_await f w).2) = tasks (w_loop w).
Proof.
  rewrite after_await_eq.
  destruct (create_after_await_spec f w) as [[_ ->]|(_ & w' & -> & _ & _ & Hl)]; [done|].
  destruct (respects_core_start_reading (fresh (dom (w_objects w))) w') as (_ & -> & _).
  by rewrite Hl.
Qed.

Lemma step_wf w ev : wf w → wf (step w ev).
Proof. apply (run_wf [ev]). Qed.

Lemma step_connect w tid sid :
  step w (Connect tid sid) = (terminal_ws_attach tid sid w).2.
Proof.
  unfold step. simpl. unfold mbind, M_bind.
  by destruct (terminal_ws_attach tid sid w) as [[?|?] ?].
Qed.

Lemma async_step_wf s ev :
  resumes_unraced s ev = true → wf (sys_world s) → wf (sys_world (async_step s ev)).
Proof.
  destruct ev as [ev|tid sid|h]; simpl.
  - intros _. apply step_wf.
  - intros _ Hwf.
    assert (wf (terminal_ws_until_await tid sid (sys_world s)).2) as H.
    { destruct (terminals (sys_world s) !! tid) as [t|] eqn:Ht.
      - rewrite (until_await_registered _ _ _ _ Ht). simpl.
        rewrite <- step_connect. by apply step_wf.
      - eapply wf_same_core; [by apply until_await_absent|done]. }
    by destruct (terminal_ws_until_await tid sid (sys_world s)) as [[[f|]|e] w'].
  - destruct (suspended s !! h) as [f|]; [|done].
    intros Habs%bool_decide_eq_true. simpl. by apply after_await_wf.
Qed.

(** Well-formedness is an invariant of every run in which no resumed
    [create] finds its identifier registered. *)
Lemma async_run_wf evs s :
  unraced evs s = true → wf (sys_world s) → wf (sys_world (async_run evs s)).
Proof.
  revert s. induction evs as [|ev evs IH]; intros s; simpl; [done|].
  intros [H1 H2]%andb_true_iff Hwf. apply IH; [done|]. by apply async_step_wf.
Qed.

Lemma async_step_keeps_finished s ev :
  keeps_finished (sys_world s) (sys_world (async_step s ev)).
Proof.
  destruct ev as [ev|tid sid|h]; simpl.
  - apply (run_keeps_finished [ev]).
  - assert (keeps_finished (sys_world s)
              (terminal_ws_until_await tid sid (sys_world s)).2) as H.
    { destruct (terminals (sys_world s) !! tid) as [t|] eqn:Ht.
      - rewrite (until_await_registered _ _ _ _ Ht). simpl.
        rewrite <- step_connect. apply (run_keeps_finished [Connect tid sid]).
      - destruct (until_await_absent tid sid _ Ht) as (_ & Hk & _).
        by apply keeps_finished_same_tasks. }
    by destruct (terminal_ws_until_await tid sid (sys_world s)) as [[[f|]|e] w'].
  - destruct (suspended s !! h) as [f|]; [|done]. simpl.
    apply keeps_finished_same_tasks, after_await_tasks.
Qed.

Lemma async_run_keeps_finished evs s :
  keeps_finished (sys_world s) (sys_world (async_run evs s)).
Proof.
  revert s. induction evs as [|ev evs IH]; intros s; simpl; [done|].
  etrans; [apply async_step_keeps_finished|apply IH].
Qed.

(** The runs of whole events are the runs in which every connection goes
    through [create] without another handler in between. *)
Lemma async_run_atomic evs s :
  async_run (map Atomic evs) s
  = {| sys_world := run evs (sys_world s); suspended := suspended s |}.
Proof.
  revert s. induction evs as [|ev evs IH]; intros s; simpl; [by destruct s|].
  by rewrite IH.
Qed.

Lemma unraced_atomic evs s : unraced (map Atomic evs) s = true.
Proof. revert s. induction evs as [|ev evs IH]; intros s; simpl; [done|apply IH]. Qed.

(** A connection that is resumed at once is the event [Connect]. *)
Lemma connect_resumed_at_once tid sid s :
  async_run [ConnectBegin tid sid; ConnectResume (fresh (dom (suspended s)))] s
  = async_step s (Atomic (Connect tid sid)).
Proof.
  assert (suspended s !! fresh (dom (suspended s)) = None) as Hfr
    by apply not_elem_of_dom, is_fresh.
  simpl. rewrite step_connect.
  destruct (terminals (sys_world s) !! tid) as [t|] eqn:Ht.
  - rewrite (until_await_registered _ _ _ _ Ht). simpl. by rewrite Hfr.
  - unfold terminal_ws_until_await, terminal_ws_attach, lookup_or_create,
      terminal_ws_after_await.
    unfold resolve_work_dir, mbind, M_bind, gets. simpl. rewrite Ht.
    rewrite create_split. unfold mbind, M_bind.
    destruct (create_until_await tid _ (sys_world s)) as [[f|e] w1]; simpl.
    + rewrite lookup_insert_eq. simpl. rewrite delete_insert_id by done.
      unfold mbind, M_bind.
      destruct (create_after_await f w1) as [[terminal|e] w2]; [|done].
      by destruct (start_reading terminal w2) as [[[]|e] w3].
    + by rewrite Hfr.
Qed.

(** C7 (amended).  From a well-formed state, in every run in which no
    resumed [create] finds its identifier already registered, each
    sleeping eviction timer is the one held by the session registered
    under its target, so no identifier has two.  In every state,
    [schedule_destroy] on a registered identifier cancels the sleeping
    timer that the registered session holds and arms one new timer due 300
    seconds later, which that session then holds; in a well-formed state
    it is the only sleeping one for the identifier.  A timer does nothing
    before its deadline; at or after it, it runs [destroy] on its target.
    A timer cancelled in its sleep stays finished without having fired,
    whatever happens next, suspended connections included. *)
Theorem one_eviction_timer_per_session s :
  let w := sys_world s in
  (wf w → ∀ evs, unraced evs s = true →
     wf (sys_world (async_run evs s))
     ∧ one_timer_per_session (sys_world (async_run evs s)))
  ∧ (∀ tid self t,
       terminals w !! tid = Some self → w_objects w !! self = Some t →
       let k := fresh (dom (tasks (w_loop w))) in
       ∃ w', schedule_destroy tid w = (Ok tt, w')
             ∧ (∀ k0 task d, _destroy_task t = Some k0 →
                  tasks (w_loop w) !! k0 = Some task → task_state_of task = Sleeping d →
                  tasks (w_loop w') !! k0 =
                    Some {| task_target := task_target task;
                            task_state_of := Finished false |})
             ∧ tasks (w_loop w') !! k =
                 Some {| task_target := tid;
                         task_state_of := Sleeping (now (w_loop w) + 300) |}
             ∧ (∃ t', w_objects w' !! self = Some t' ∧ _destroy_task t' = Some k)
             ∧ (wf w →
                ∀ k' task' d', tasks (w_loop w') !! k' = Some task' →
                  task_state_of task' = Sleeping d' → task_target task' = tid → k' = k))
  ∧ (∀ k task d,
       tasks (w_loop w) !! k = Some task → task_state_of task = Sleeping d →
       ((now (w_loop w) < d)%nat → _delayed_wakeup k w = (Ok tt, w))
       ∧ ((d ≤ now (w_loop w))%nat →
          ∃ w', _delayed_wakeup k w = (Ok tt, w')
                ∧ w' = set_tasks (alter (with_state (λ _, Finished true)) k)
                         (add_log (LogAutoDestroyed (task_target task) 300)
                            (destroy (task_target task)
                               (set_tasks (alter (with_state (λ _, Running)) k) w)).2)
                ∧ terminals w' !! task_target task = None
                ∧ tasks (w_loop w') !! k =
                    Some {| task_target := task_target task;
                            task_state_of := Finished true |}))
  ∧ (∀ self t k task d,
       w_objects w !! self = Some t → _destroy_task t = Some k →
       tasks (w_loop w) !! k = Some task → task_state_of task = Sleeping d →
       ∀ evs, let w' := sys_world
                          (async_run evs {| sys_world := (cancel_destroy_timer self w).2;
                                            suspended := suspended s |}) in
              tasks (w_loop w') !! k =
                Some {| task_target := task_target task;
                        task_state_of := Finished false |}
              ∧ _delayed_wakeup k w' = (Ok tt, w')).
Proof.
  intros w. subst w. set (w := sys_world s). split; [|split; [|split]].
  - intros Hwf evs Hun. pose proof (async_run_wf evs s Hun Hwf). split; [done|].
    by apply wf_one_timer.
  - intros tid self t Htid Hobj k.
    exists (schedule_world tid w). split; [apply schedule_destroy_eq|].
    assert (tasks (w_loop (cancel_world self w)) !! k = None) as Hfresh.
    { apply not_elem_of_dom. rewrite cancel_world_tasks_dom. apply is_fresh. }
    destruct (cancel_world_self _ _ _ Hobj) as (t1 & Ht1 & _).
    assert (Heq : schedule_world tid w
                  = set_objects (alter (with_destroy_task (Some k)) self)
                      (set_tasks (<[k := {| task_target := tid;
                          task_state_of :=
                            Sleeping (now (w_loop w) + RECONNECT_TIMEOUT_SECONDS) |}]>)
                         (cancel_world self w))).
    { unfold schedule_world. rewrite Htid. cbv zeta.
      by rewrite cancel_world_tasks_dom, cancel_world_now. }
    assert (Hself : w_objects (schedule_world tid w) !! self
                    = Some (with_destroy_task (Some k) t1)).
    { rewrite Heq. simpl. by rewrite lookup_alter_eq, Ht1. }
    split; [|split; [|split]].
    + intros k0 task d Hk0 Hl Hs. rewrite Heq. simpl.
      rewrite lookup_insert_ne.
      * by eapply cancel_world_cancels.
      * intros <-. erewrite cancel_world_cancels in Hfresh; done.
    + rewrite Heq. simpl. by rewrite lookup_insert_eq.
    + eexists. split; [exact Hself|done].
    + intros Hwf k' task' d' Hl Hs Htg.
      pose proof (schedule_world_wf tid w Hwf) as [Hinv' _].
      destruct (Hinv' _ _ _ Hl Hs) as (a' & t' & H1 & H2 & H3).
      rewrite Htg in H1. rewrite Heq in H1. simpl in H1.
      rewrite cancel_world_terminals in H1.
      assert (a' = self) as -> by congruence.
      rewrite Hself in H2. simplify_eq. simpl in H3. congruence.
  - intros k task d Hl Hs. split.
    + intros Hlt. rewrite delayed_wakeup_eq. unfold wakeup_world. rewrite Hl, Hs.
      destruct (Nat.leb_spec d (now (w_loop w))); [lia|done].
    + intros Hle. exists (wakeup_world k w). split; [apply delayed_wakeup_eq|].
      unfold wakeup_world. rewrite Hl, Hs.
      destruct (Nat.leb_spec d (now (w_loop w))); [|lia].
      rewrite destroy_eq. split; [done|]. split.
      * simpl. rewrite destroy_world_terminals. apply lookup_delete_eq.
      * simpl. rewrite lookup_alter_eq.
        pose proof (destroy_world_target (task_target task)
                      (set_tasks (alter (with_state (λ _, Running)) k) w) k) as Htg.
        simpl in Htg. rewrite lookup_alter_eq, Hl in Htg. simpl in Htg.
        destruct (tasks (w_loop (destroy_world _ _)) !! k) as [task'|]; [|done].
        simpl in *. unfold with_state. congruence.
  - intros self t k task d Hobj Hk Hl Hs evs w'. subst w'.
    rewrite cancel_destroy_timer_eq. simpl.
    pose proof (cancel_world_cancels _ _ _ _ _ _ Hobj Hk Hl Hs) as Hc.
    pose proof (async_run_keeps_finished evs
                  {| sys_world := cancel_world self w; suspended := suspended s |}
                  k _ false Hc eq_refl) as Hr.
    split; [done|].
    rewrite delayed_wakeup_eq. unfold wakeup_world. by rewrite Hr.
Qed.

(** ** Frames *)

Lemma resize_eq self cols rows w :
  resize self cols rows w =
  match w_objects w !! self with
  | None => (Ok tt, w)
  | Some t =>
      if fits_H rows && fits_H cols then
        if decide (master_fd t ∈ os_fds (w_os w))
        then (Ok tt, set_os (os_set_winsize (<[master_fd t := (rows, cols)]>)) w)
        else (Ok tt, w)
      else (Raise struct_error, w)
  end.
Proof.
  unfold resize, with_self, try_except, struct_pack_HHHH, ioctl_TIOCSWINSZ.
  unfold mbind, M_bind, mret, M_ret, raise, pass.
  destruct (w_objects w !! self) as [t|]; [|done].
  destruct (fits_H rows && fits_H cols); [|done].
  by destruct (decide _).
Qed.

Lemma dispatch_resize_frame terminal items w :
  dict_lookup "type" items = Some (PStr "resize") →
  terminal_ws_dispatch terminal (resize_frame items) w =
  match py_int (default (PInt 80) (dict_lookup "cols" items)) with
  | Ok cols =>
      match py_int (default (PInt 24) (dict_lookup "rows" items)) with
      | Ok rows => resize terminal cols rows w
      | Raise e => if is_ValueError e || is_TypeError e then (Ok tt, w) else (Raise e, w)
      end
  | Raise e => if is_ValueError e || is_TypeError e then (Ok tt, w) else (Raise e, w)
  end.
Proof.
  intros Hty. unfold terminal_ws_dispatch, resize_frame. simpl.
  unfold try_except, json_loads, py_get, mbind, M_bind, mret, M_ret, pure, pass.
  rewrite Hty. simpl.
  destruct (py_int (default (PInt 80) (dict_lookup "cols" items))) as [c|e]; [|done].
  destruct (py_int (default (PInt 24) (dict_lookup "rows" items))) as [r|e]; [|done].
  rewrite resize_eq. destruct (w_objects w !! terminal) as [t|]; [|done].
  destruct (fits_H r && fits_H c); [|done]. by destruct (decide _).
Qed.

Lemma terminal_ws_turn_ok terminal tid msg w w' :
  terminal_ws_dispatch terminal msg w = (Ok tt, w') →
  terminal_ws_turn terminal tid (Received msg) w = (Ok true, w').
Proof.
  intros H. unfold terminal_ws_turn, receive, mbind, M_bind, mret, M_ret. by rewrite H.
Qed.


(** C10.  In streaming mode the response has status 200, media type
    [text/event-stream] and the proxy's own two headers; replacing the
    backend's status and headers by anything leaves the response unchanged;
    the stream is the backend's body chunks, followed by a synthetic event
    when the transfer ends in a connect error or a timeout. *)
Theorem sse_response_is_fixed URL request path backend :
  is_sse request = true →
  ∃ chunks raised,
    proxy URL request path backend =
      Some {| status_code := 200; headers := sse_headers;
              media_type := Some "text/event-stream";
              body := Stream chunks raised |}
    ∧ (chunks, raised) = _sse_generator (backend (forwarded URL request path))
    ∧ proxy URL request path (λ rq, strip_meta (backend rq))
      = proxy URL request path backend
    ∧ match backend (forwarded URL request path) with
      | Failed e => chunks = (sse_on_error e).1
      | Reply _ _ cs None => chunks = cs
      | Reply _ _ cs (Some e) => chunks = (cs ++ (sse_on_error e).1)%list
      end.
Proof.
  intros Hs. unfold proxy. rewrite Hs.
  destruct (backend (forwarded URL request path)) as [e|st hs cs [e|]] eqn:Hb.
  - exists (sse_on_error e).1, (sse_on_error e).2. simpl.
    repeat split; try done. by destruct (sse_on_error e).
  - exists (cs ++ (sse_on_error e).1)%list, (sse_on_error e).2. simpl.
    destruct (sse_on_error e); simpl. done.
  - exists cs, false. done.
Qed.

Lemma sse_response_is_fixed_witness :
  ∃ chunks raised,
    proxy "http://localhost:5000" sse_request "chat" sample_backend =
      Some {| status_code := 200; headers := sse_headers;
              media_type := Some "text/event-stream";
              body := Stream chunks raised |}
    ∧ chunks = ["no"; "pe"].
Proof.
  destruct (sse_response_is_fixed "http://localhost:5000" sse_request "chat"
              sample_backend eq_refl) as (chunks & raised & H1 & H2 & H3 & H4).
  exists chunks, raised. split; [exact H1|exact H4].
Defined.

Lemma streaming_response_has_connection_header :
  ∃ resp, proxy "http://localhost:5000" sse_request "chat" sample_backend = Some resp
          ∧ headers resp !! "Connection" = Some "keep-alive"
          ∧ lower "Connection" ∈ _HOP_BY_HOP.
Proof.
  eexists. split; [reflexivity|]. split; [reflexivity|].
  apply (bool_decide_unpack (lower "Connection" ∈ _HOP_BY_HOP)). vm_compute. exact I.
Qed.

Lemma second_read_error_second_sentinel :
  readers (w_loop (run [Readable 3 ReadError] connected_world)) !! 3 = Some 0
  ∧ output_queue <$>
      (w_objects (run [Readable 3 ReadError; Readable 3 ReadError] connected_world) !! 0)
    = Some [None; None].
Proof. split; vm_compute; reflexivity. Qed.


(** After two overlapping connections for t1, the identifier is registered
    to the session of the resumed [create], and the timer armed for the
    session it replaced is asleep.  [schedule_destroy] on t1 leaves that
    timer asleep and arms another: two timers sleep for one identifier. *)
Lemma overlapping_connects_leave_two_timers :
  unraced overlapping_connects initial_system = false
  ∧ terminals raced_world !! "t1" = Some 1
  ∧ tasks (w_loop raced_world) !! 0
    = Some {| task_target := "t1"; task_state_of := Sleeping 300 |}
  ∧ tasks (w_loop (schedule_destroy "t1" raced_world).2) !! 0
    = Some {| task_target := "t1"; task_state_of := Sleeping 300 |}
  ∧ tasks (w_loop (schedule_destroy "t1" raced_world).2) !! 1
    = Some {| task_target := "t1"; task_state_of := Sleeping 300 |}
  ∧ ¬ one_timer_per_session (schedule_destroy "t1" raced_world).2.
Proof.
  assert (tasks (w_loop (schedule_destroy "t1" raced_world).2) !! 0
          = Some {| task_target := "t1"; task_state_of := Sleeping 300 |}) as H0
    by (vm_compute; reflexivity).
  assert (tasks (w_loop (schedule_destroy "t1" raced_world).2) !! 1
          = Some {| task_target := "t1"; task_state_of := Sleeping 300 |}) as H1
    by (vm_compute; reflexivity).
  split; [vm_compute; reflexivity|]. split; [vm_compute; reflexivity|].
  split; [vm_compute; reflexivity|]. split; [exact H0|]. split; [exact H1|].
  intros Hone. by specialize (Hone 0 1 _ _ 300 300 H0 eq_refl H1 eq_refl eq_refl).
Qed.

(** With the client of the resumed connection still connected, the timer
    left by the replaced session destroys the registered one, and the
    replaced session keeps its descriptor and its child. *)
Example stale_timer_destroys_live_session :
  terminals (run [Tick 300; Wakeup 0] raced_world) !! "t1" = None
  ∧ os_fds (w_os raced_world) = {[0; 1; 2; 3; 5]}
  ∧ os_fds (w_os (run [Tick 300; Wakeup 0; Shutdown] raced_world)) = {[0; 1; 2; 5]}
  ∧ p_alive <$> (os_procs (w_os (run [Tick 300; Wakeup 0; Shutdown] raced_world)) !! 1)
    = Some true.
Proof. repeat split; vm_compute; reflexivity. Qed.

Example json_string_frame_ends_handler :
  (terminal_ws_turn 0 "t1"
     (Received {| msg_bytes := None; msg_text := Some (Decoded (PStr "not json")) |})
     connected_world).1 = Ok false.
Proof. vm_compute. reflexivity. Qed.

(** [int] does not skip the separators U+001C..U+001F: a cols value made
    of one of them and a digit is malformed, and the resize frame that
    carries it is ignored. *)
Example separator_before_digit_is_malformed :
  py_int (PStr (String "028" "7")) = Raise ValueError
  ∧ terminal_ws_turn 0 "t1"
      (Received (resize_frame [("type", PStr "resize"); ("cols", PStr (String "028" "7"))]))
      connected_world
    = (Ok true, connected_world).
Proof. split; vm_compute; reflexivity. Qed.

Lemma initial_wf : wf initial_world.
Proof.
  split.
  - intros k task d H. unfold initial_world in H. simpl in H. by rewrite lookup_empty in H.
  - intros tid a H. unfold initial_world in H. simpl in H. by rewrite lookup_empty in H.
Qed.

Lemma read_error_enqueues_sentinel_witness :
  let w1 := step connected_world (Readable 3 ReadError) in
  (∃ t1, w_objects w1 !! 0 = Some t1 ∧ output_queue t1 = [None])
  ∧ readers (w_loop w1) = readers (w_loop connected_world)
  ∧ (∀ r, let w2 := (stop_reading 0 w1).2 in step w2 (Readable 3 r) = w2).
Proof.
  apply (read_error_enqueues_sentinel connected_world 0 sample_terminal);
    vm_compute; reflexivity.
Defined.


Lemma start_reading_discards_stale_witness :
  ∃ t', w_objects (run [Connect "t1" ""; Readable 3 (ReadData "new")] stale_world) !! 0
          = Some t'
        ∧ output_queue t' = [Some "new"].
Proof.
  destruct (start_reading_discards_stale stale_world 0 stale_terminal eq_refl)
    as (_ & _ & H).
  destruct (H "t1" "" [ReadData "new"] eq_refl) as (t' & H1 & H2 & _).
  exists t'. split; [exact H1|exact H2].
Defined.

Lemma create_failure_leaves_registry_witness :
  ∃ e w', create "t1" "/work" no_exec_world = (Raise e, w')
          ∧ terminals w' = terminals no_exec_world
          ∧ w_objects w' = w_objects no_exec_world
          ∧ (terminals no_exec_world !! "t1" = None →
             lookup_or_create "t1" "/work" no_exec_world = (Raise e, w')).
Proof.
  apply (create_failure_leaves_registry no_exec_world "t1" "/work").
  right. reflexivity.
Defined.

Lemma one_eviction_timer_per_session_witness :wf (sys_world (async_run serial_connects initial_system))
  ∧ one_timer_per_session (sys_world (async_run serial_connects initial_system)).
Proof.
  exact (proj1 (one_eviction_timer_per_session initial_system) initial_wf
           serial_connects eq_refl).
Defined.

Lemma create_missing_dir_uses_home_witness :
  create "t1" "/missing" initial_world = create "t1" "/home/user" initial_world.
Proof.
  exact (proj1 (create_missing_dir_uses_home initial_world "t1" "/missing" eq_refl)).
Defined.

(** * Further properties of the code *)

(** ** Stopping and closing twice *)

Lemma set_readers_delete_twice fd w :
  set_readers (delete fd) (set_readers (delete fd) w) = set_readers (delete fd) w.
Proof.
  destruct w as [o [rd tk nw] ob tm lg bc wd]. unfold set_readers, set_loop. simpl.
  by rewrite delete_delete_eq.
Qed.

(** X1. [stop_reading] returns normally whether or not a reader is
    registered, touches only the loop's reader table, where it removes the
    entry of the session's descriptor, and a second call changes nothing. *)
Theorem stop_reading_idempotent self w :
  ∃ w1, stop_reading self w = (Ok tt, w1)
        ∧ stop_reading self w1 = (Ok tt, w1)
        ∧ w_os w1 = w_os w ∧ w_objects w1 = w_objects w
        ∧ terminals w1 = terminals w ∧ tasks (w_loop w1) = tasks (w_loop w)
        ∧ (∀ t, w_objects w !! self = Some t →
             readers (w_loop w1) = delete (master_fd t) (readers (w_loop w))).
Proof.
  eexists. split; [apply stop_reading_eq|].
  rewrite stop_reading_eq.
  destruct (w_objects w !! self) as [t|] eqn:Ht; simpl; rewrite Ht.
  - rewrite set_readers_delete_twice. repeat split; try done. by intros ? [= <-].
  - repeat split; done.
Qed.

Lemma kill_world_twice pid w : kill_world pid (kill_world pid w) = kill_world pid w.
Proof.
  unfold kill_world at 2 3.
  destruct (os_procs (w_os w) !! pid) as [p|] eqn:E.
  - destruct (p_alive p) eqn:Ha.
    + unfold kill_world. simpl. by rewrite lookup_insert_eq.
    + unfold kill_world. by rewrite E, Ha.
  - unfold kill_world. by rewrite E.
Qed.

Lemma close_fd_world_twice fd w :
  close_fd_world fd (close_fd_world fd w) = close_fd_world fd w.
Proof.
  unfold close_fd_world at 1. rewrite decide_False; [done|]. apply close_fd_world_closed.
Qed.

Lemma kill_world_objects pid w : w_objects (kill_world pid w) = w_objects w.
Proof.
  unfold kill_world. destruct (os_procs (w_os w) !! pid) as [p|]; [|done].
  by destruct (p_alive p).
Qed.

Lemma close_fd_world_objects fd w : w_objects (close_fd_world fd w) = w_objects w.
Proof. unfold close_fd_world. by destruct (decide _). Qed.

Lemma close_world_objects self w : w_objects (close_world self w) = w_objects w.
Proof.
  unfold close_world. destruct (w_objects w !! self) as [t|]; [|done].
  by rewrite close_fd_world_objects, kill_world_objects.
Qed.

(** The three steps of [close] touch different parts of the world. *)
Lemma set_readers_kill f pid w :
  set_readers f (kill_world pid w) = kill_world pid (set_readers f w).
Proof.
  unfold kill_world. simpl. destruct (os_procs (w_os w) !! pid) as [p|]; [|done].
  by destruct (p_alive p).
Qed.

Lemma set_readers_close_fd f fd w :
  set_readers f (close_fd_world fd w) = close_fd_world fd (set_readers f w).
Proof. unfold close_fd_world. simpl. by destruct (decide _). Qed.

Lemma kill_close_fd pid fd w :
  kill_world pid (close_fd_world fd w) = close_fd_world fd (kill_world pid w).
Proof.
  unfold close_fd_world, kill_world.
  destruct (decide (fd ∈ os_fds (w_os w))) as [Hin|Hout];
    destruct (os_procs (w_os w) !! pid) as [p|] eqn:E; simpl; rewrite ?E;
    try destruct (p_alive p); simpl;
    first [by rewrite decide_True by done | by rewrite decide_False by done].
Qed.

Lemma close_world_twice self w : close_world self (close_world self w) = close_world self w.
Proof.
  unfold close_world at 1. rewrite close_world_objects.
  unfold close_world. destruct (w_objects w !! self) as [t|]; [|done].
  rewrite set_readers_close_fd, set_readers_kill, set_readers_delete_twice.
  rewrite kill_close_fd, kill_world_twice. apply close_fd_world_twice.
Qed.

(** X2. [close] never raises, and closing a session a second time leaves
    the world as the first call left it: the failures of the repeated
    [kill] and [os.close] are swallowed. *)
Theorem close_idempotent self w :
  ∃ w1, close self w = (Ok tt, w1) ∧ close self w1 = (Ok tt, w1).
Proof.
  exists (close_world self w). split; [apply close_eq|].
  by rewrite close_eq, close_world_twice.
Qed.

(** ** The receive loop and its teardown *)

Lemma write_eq self data w : write self data w = (Ok tt, w).
Proof.
  unfold write, with_self, try_except, os_write, pass, mret, M_ret.
  destruct (w_objects w !! self) as [t|]; [|done]. by destruct (decide _).
Qed.

Lemma terminal_ws_finally_eq terminal tid w :
  terminal_ws_finally terminal tid w = (Ok tt, finally_world terminal tid w).
Proof.
  unfold terminal_ws_finally, finally_world, mbind, M_bind.
  by rewrite stop_reading_eq, schedule_destroy_eq.
Qed.

Lemma terminal_ws_turn_raise terminal tid r e w w' :
  (msg ← receive r; terminal_ws_dispatch terminal msg) w = (Raise e, w') →
  terminal_ws_turn terminal tid r w = (Ok false, teardown_world terminal tid e w').
Proof.
  intros H. unfold terminal_ws_turn. rewrite H. unfold teardown_world.
  unfold mbind, M_bind, pass, modify, mret, M_ret.
  destruct (decide (e = WebSocketDisconnect)); by rewrite terminal_ws_finally_eq.
Qed.

Lemma terminal_ws_turn_dispatch_raise terminal tid msg e w w' :
  terminal_ws_dispatch terminal msg w = (Raise e, w') →
  terminal_ws_turn terminal tid (Received msg) w
  = (Ok false, teardown_world terminal tid e w').
Proof.
  intros H. apply terminal_ws_turn_raise. unfold receive, mbind, M_bind, mret, M_ret.
  by rewrite H.
Qed.

(** X3. A frame with non-empty [bytes] is handed to [write], whatever its
    [text] field holds, and never ends the receive loop: a write on a
    closed descriptor raises OSError inside [write] and is swallowed, and
    registry, descriptors, timers and window sizes stay as they are. *)
Theorem binary_frame_is_written terminal tid c data text w :
  let msg := {| msg_bytes := Some (String c data); msg_text := text |} in
  terminal_ws_dispatch terminal msg w = write terminal (String c data) w
  ∧ terminal_ws_turn terminal tid (Received msg) w = (Ok true, w).
Proof.
  intros msg. split; [done|]. apply terminal_ws_turn_ok.
  unfold terminal_ws_dispatch. simpl. apply write_eq.
Qed.

(** X4. A well-formed resize frame for a session whose descriptor is
    already closed is ignored: the [ioctl] raises OSError inside [resize],
    the world is unchanged and the receive loop goes on. *)
Theorem resize_on_closed_pty_is_ignored w terminal tid t items c r :
  dict_lookup "type" items = Some (PStr "resize") →
  py_int (default (PInt 80) (dict_lookup "cols" items)) = Ok c →
  py_int (default (PInt 24) (dict_lookup "rows" items)) = Ok r →
  fits_H c = true → fits_H r = true →
  w_objects w !! terminal = Some t → master_fd t ∉ os_fds (w_os w) →
  terminal_ws_turn terminal tid (Received (resize_frame items)) w = (Ok true, w).
Proof.
  intros Hty Hc Hr Hfc Hfr Hobj Hfd. apply terminal_ws_turn_ok.
  rewrite dispatch_resize_frame, Hc, Hr, resize_eq, Hobj, Hfc, Hfr by done. simpl.
  by rewrite decide_False.
Qed.

(** X5. A resize frame whose sizes [int] accepts but [struct.pack] does
    not (outside 0..65535), or whose [cols] is an infinite float, raises
    an exception the inner [except] does not name: the receive loop ends,
    the error is logged, and the handler runs its [finally] block. *)
Theorem unpackable_size_ends_handler w terminal tid t items :
  dict_lookup "type" items = Some (PStr "resize") →
  w_objects w !! terminal = Some t →
  let cols := default (PInt 80) (dict_lookup "cols" items) in
  let rows := default (PInt 24) (dict_lookup "rows" items) in
  (∀ c r, py_int cols = Ok c → py_int rows = Ok r →
          fits_H r && fits_H c = false →
          terminal_ws_turn terminal tid (Received (resize_frame items)) w
          = (Ok false, teardown_world terminal tid struct_error w))
  ∧ (∀ negative, cols = PFloat (FInf negative) →
          terminal_ws_turn terminal tid (Received (resize_frame items)) w
          = (Ok false, teardown_world terminal tid OverflowError w)).
Proof.
  intros Hty Hobj cols rows. subst cols rows. split.
  - intros c r Hc Hr Hfit. apply terminal_ws_turn_dispatch_raise.
    by rewrite dispatch_resize_frame, Hc, Hr, resize_eq, Hobj, Hfit.
  - intros negative Hc. apply terminal_ws_turn_dispatch_raise.
    by rewrite dispatch_resize_frame, Hc.
Qed.

(** X6. A text frame holding valid JSON that is not an object ends the
    handler: [payload.get] raises AttributeError, which only the outer
    [except Exception] catches. *)
Theorem non_object_json_ends_handler w terminal tid v :
  is_dict v = false →
  terminal_ws_turn terminal tid
    (Received {| msg_bytes := None; msg_text := Some (Decoded v) |}) w
  = (Ok false, teardown_world terminal tid AttributeError w).
Proof.
  intros Hv. apply terminal_ws_turn_dispatch_raise.
  unfold terminal_ws_dispatch. simpl.
  unfold try_except, json_loads, mbind, M_bind, mret, M_ret, pure.
  by destruct v.
Qed.

(** X7. A JSON object whose [type] is absent or differs from the string
    resize changes nothing and keeps the connection. *)
Theorem other_object_is_ignored w terminal tid items :
  py_eq_str (default PNone (dict_lookup "type" items)) "resize" = false →
  terminal_ws_turn terminal tid (Received (resize_frame items)) w = (Ok true, w).
Proof.
  intros Hty. apply terminal_ws_turn_ok.
  unfold terminal_ws_dispatch, resize_frame. simpl.
  unfold try_except, json_loads, py_get, mbind, M_bind, mret, M_ret, pure, pass.
  by rewrite Hty.
Qed.

Lemma finally_world_readers terminal tid t w :
  w_objects w !! terminal = Some t →
  readers (w_loop (finally_world terminal tid w)) = delete (master_fd t) (readers (w_loop w)).
Proof.
  intros Ht. unfold finally_world, schedule_world. rewrite Ht. simpl.
  destruct (terminals w !! tid) as [a|]; [|done]. simpl.
  by rewrite cancel_world_readers.
Qed.

(** X8. When [receive] raises, the handler ends without raising; the
    registry is as before, the reader of the handler's session is
    unregistered, and either the identifier is still registered and its
    session now holds a timer sleeping until 300 seconds from now, or it
    is not registered and the task table is unchanged. *)
Theorem teardown_arms_timer_or_finds_no_session w terminal tid e :
  registry_closed w →
  ∃ w', terminal_ws_turn terminal tid (ReceiveRaises e) w = (Ok false, w')
        ∧ terminals w' = terminals w
        ∧ (∀ t, w_objects w !! terminal = Some t →
                readers (w_loop w') !! master_fd t = None)
        ∧ match terminals w !! tid with
          | None => tasks (w_loop w') = tasks (w_loop w)
          | Some self =>
              ∃ t k, w_objects w' !! self = Some t ∧ _destroy_task t = Some k
                     ∧ tasks (w_loop w') !! k =
                         Some {| task_target := tid;
                                 task_state_of := Sleeping (now (w_loop w) + 300) |}
          end.
Proof.
  intros Hreg. exists (teardown_world terminal tid e w).
  split; [by apply terminal_ws_turn_raise|].
  unfold teardown_world.
  set (w0 := if decide (e = WebSocketDisconnect) then w else add_log (LogWsError tid e) w).
  assert (terminals w0 = terminals w ∧ w_objects w0 = w_objects w
          ∧ w_loop w0 = w_loop w) as (E1 & E2 & E3)
    by (subst w0; by destruct (decide _)).
  split; [|split].
  - unfold finally_world, schedule_world.
    destruct (w_objects w0 !! terminal) as [t0|]; simpl; rewrite E1;
      destruct (terminals w !! tid) as [a|]; simpl; try done;
      by rewrite cancel_world_terminals.
  - intros t Ht. rewrite (finally_world_readers _ _ t) by by rewrite E2.
    apply lookup_delete_eq.
  - unfold finally_world, schedule_world.
    set (w1 := match w_objects w0 !! terminal with
               | Some t => set_readers (delete (master_fd t)) w0
               | None => w0
               end).
    assert (terminals w1 = terminals w ∧ w_objects w1 = w_objects w
            ∧ tasks (w_loop w1) = tasks (w_loop w)
            ∧ now (w_loop w1) = now (w_loop w)) as (F1 & F2 & F3 & F4).
    { subst w1. destruct (w_objects w0 !! terminal); simpl; by rewrite ?E1, ?E2, ?E3. }
    rewrite F1. destruct (terminals w !! tid) as [self|] eqn:Hs; [|done].
    destruct (Hreg _ _ Hs) as [t Ht]. rewrite <- F2 in Ht.
    destruct (cancel_world_self _ _ _ Ht) as (t1 & Ht1 & _).
    cbv zeta. simpl. exists (with_destroy_task (Some (fresh (dom (tasks (w_loop (cancel_world self w1)))))) t1).
    eexists. rewrite lookup_alter_eq, Ht1. split; [done|]. split; [done|].
    by rewrite lookup_insert_eq, cancel_world_now, F4.
Qed.

(** ** Shutdown *)

(** ** Shutdown *)

Lemma kill_world_fds pid w : os_fds (w_os (kill_world pid w)) = os_fds (w_os w).
Proof. by destruct (kill_world_rest pid w) as (_ & ? & _). Qed.

Lemma kill_world_keeps_dead pid w pid' p' :
  os_procs (w_os (kill_world pid w)) !! pid' = Some p' →
  ∃ p, os_procs (w_os w) !! pid' = Some p ∧ (p_alive p = false → p_alive p' = false).
Proof.
  unfold kill_world. destruct (os_procs (w_os w) !! pid) as [p0|] eqn:E; [|eauto].
  destruct (p_alive p0) eqn:Ha; [|eauto]. simpl.
  destruct (decide (pid = pid')) as [<-|Hne].
  - rewrite lookup_insert_eq. intros [= <-]. eauto.
  - rewrite lookup_insert_ne by done. eauto.
Qed.

Lemma close_fd_world_fds fd w : os_fds (w_os (close_fd_world fd w)) ⊆ os_fds (w_os w).
Proof.
  unfold close_fd_world. destruct (decide _) as [Hin|Hout]; simpl; [|done].
  intros x. rewrite elem_of_difference. tauto.
Qed.

Lemma close_world_fds self w : os_fds (w_os (close_world self w)) ⊆ os_fds (w_os w).
Proof.
  unfold close_world. destruct (w_objects w !! self) as [t|]; [|done].
  etrans; [apply close_fd_world_fds|]. by rewrite kill_world_fds.
Qed.

Lemma close_world_keeps_dead self w pid' p' :
  os_procs (w_os (close_world self w)) !! pid' = Some p' →
  ∃ p, os_procs (w_os w) !! pid' = Some p ∧ (p_alive p = false → p_alive p' = false).
Proof.
  unfold close_world. destruct (w_objects w !! self) as [t|]; [|eauto].
  destruct (close_fd_world_rest (master_fd t)
              (kill_world (proc t) (set_readers (delete (master_fd t)) w)))
    as (_ & -> & _).
  intros H. by apply kill_world_keeps_dead in H.
Qed.

Lemma destroy_world_os tid w :
  os_fds (w_os (destroy_world tid w)) ⊆ os_fds (w_os w)
  ∧ ∀ pid' p', os_procs (w_os (destroy_world tid w)) !! pid' = Some p' →
      ∃ p, os_procs (w_os w) !! pid' = Some p ∧ (p_alive p = false → p_alive p' = false).
Proof.
  unfold destroy_world. destruct (terminals w !! tid) as [a|]; [|by eauto].
  simpl. split.
  - etrans; [apply close_world_fds|]. by rewrite cancel_world_os.
  - intros pid' p' H. apply close_world_keeps_dead in H.
    by rewrite cancel_world_os in H.
Qed.

Lemma destroy_world_keeps_closed tid t w : closed_in t w → closed_in t (destroy_world tid w).
Proof.
  intros [Hfd Hdead]. destruct (destroy_world_os tid w) as [Hsub Hp]. split.
  - set_solver.
  - intros p' H. destruct (Hp _ _ H) as (p & Hl & Himp). eauto.
Qed.

(** [destroy] changes no object but in its [_destroy_task]. *)
Lemma destroy_world_object tid w a t :
  w_objects w !! a = Some t →
  ∃ t', w_objects (destroy_world tid w) !! a = Some t'
        ∧ master_fd t' = master_fd t ∧ proc t' = proc t
        ∧ output_queue t' = output_queue t ∧ terminal_id t' = terminal_id t.
Proof.
  intros Ht. unfold destroy_world.
  destruct (terminals w !! tid) as [self|]; [|simpl; by eauto 10].
  simpl. rewrite close_world_objects.
  destruct (decide (a = self)) as [->|Hne].
  - destruct (cancel_world_self self (set_terminals (delete tid) w) t Ht)
      as (t' & H1 & H2 & H3 & H4 & H5 & _). eauto 10.
  - rewrite cancel_world_other by done. eauto 10.
Qed.

Lemma destroy_world_closes tid self t w :
  terminals w !! tid = Some self → w_objects w !! self = Some t →
  closed_in t (destroy_world tid w).
Proof.
  intros Hs Ht. unfold destroy_world. rewrite Hs.
  destruct (cancel_world_self self (set_terminals (delete tid) w) t Ht)
    as (t1 & Ht1 & Hfd & Hpr & _).
  destruct (close_world_closed self t1 _ Ht1) as (_ & H2 & H3).
  rewrite Hfd in H2. rewrite Hpr in H3. by split.
Qed.

Lemma destroy_each_spec tids : ∀ w,
  ∃ w', destroy_each tids w = (Ok tt, w')
        ∧ (∀ k, terminals w' !! k = if decide (k ∈ tids) then None else terminals w !! k)
        ∧ (∀ t, closed_in t w → closed_in t w')
        ∧ (∀ tid self t, tid ∈ tids → terminals w !! tid = Some self →
                         w_objects w !! self = Some t → closed_in t w').
Proof.
  induction tids as [|x tids IH]; intros w.
  - exists w. split; [done|]. split; [by intros k|]. split; [done|].
    by intros ??? ?%elem_of_nil.
  - destruct (IH (destroy_world x w)) as (w' & Hrun & Hreg & Hmono & Hclosed).
    exists w'. split; [|split; [|split]].
    + simpl. unfold mbind, M_bind. by rewrite destroy_eq.
    + intros k. rewrite Hreg, destroy_world_terminals.
      destruct (decide (k = x)) as [->|Hne].
      * rewrite lookup_delete_eq. rewrite (decide_True (P := x ∈ x :: tids)) by left.
        by destruct (decide _).
      * rewrite lookup_delete_ne by done.
        destruct (decide (k ∈ tids)) as [Hin|Hout].
        -- by rewrite decide_True by by right.
        -- rewrite decide_False; [done|]. by intros [?|?]%elem_of_cons.
    + intros t Hc. by apply Hmono, destroy_world_keeps_closed.
    + intros tid self t Hin Hs Ht.
      destruct (decide (tid = x)) as [->|Hne].
      * by eapply Hmono, destroy_world_closes.
      * apply elem_of_cons in Hin as [?|Hin]; [done|].
        destruct (destroy_world_object x w self t Ht) as (t' & Ht' & Hfd & Hpr & _).
        assert (closed_in t' w') as [C1 C2].
        { apply (Hclosed tid self); [done| |done].
          by rewrite destroy_world_terminals, lookup_delete_ne. }
        rewrite Hfd in C1. rewrite Hpr in C2. by split.
Qed.

(** X9. [destroy_all] never raises and empties the registry; every
    session that was registered has its descriptor closed and its child
    killed. *)
Theorem destroy_all_empties_registry w :
  ∃ w', destroy_all w = (Ok tt, w')
        ∧ terminals w' = ∅
        ∧ ∀ tid self t, terminals w !! tid = Some self → w_objects w !! self = Some t →
            (master_fd t ∉ os_fds (w_os w'))
            ∧ ∀ p, os_procs (w_os w') !! proc t = Some p → p_alive p = false.
Proof.
  destruct (destroy_each_spec (elements (dom (terminals w))) w)
    as (w' & Hrun & Hreg & _ & Hclosed).
  exists w'. split; [|split].
  - unfold destroy_all, mbind, M_bind, gets. exact Hrun.
  - apply map_empty. intros k. rewrite Hreg.
    destruct (decide _) as [Hin|Hout]; [done|].
    apply not_elem_of_dom. by rewrite <- elem_of_elements.
  - intros tid self t Hs Ht. apply (Hclosed tid self); [|done..].
    apply elem_of_elements, elem_of_dom. eauto.
Qed.

(** ** Creation, relay and working directory *)

(** ** What a successful [create] leaves *)

Lemma create_success_fds tid wd w self w' :
  create tid wd w = (Ok self, w') →
  os_fds (w_os w') =
    ({[fresh (os_fds (w_os w)); fresh ({[fresh (os_fds (w_os w))]} ∪ os_fds (w_os w))]}
     ∪ os_fds (w_os w)) ∖ {[fresh ({[fresh (os_fds (w_os w))]} ∪ os_fds (w_os w))]}
  ∧ readers (w_loop w') = readers (w_loop w).
Proof.
  unfold create.
  unfold os_openpty, ioctl_TIOCSWINSZ, create_subprocess_exec, os_close,
    TerminalProcess_init. munfold. simpl.
  fold (resolved_dir w wd).
  destruct (os_pty_available (w_os w)); [|done].
  simpl. destruct (decide (_ ∈ _)) as [_|Hn]; [|exfalso; set_solver].
  destruct (spawn_command (BACKEND_CONTAINER w) (resolved_dir w wd)) as [cmd cwd] eqn:Hcmd.
  simpl. rewrite Hcmd. simpl.
  destruct (os_exec_ok (w_os w) cmd cwd); [|done].
  destruct (decide (_ ∈ _)) as [_|Hn]; [|exfalso; simpl in Hn; set_solver].
  intros [= <- <-]. done.
Qed.

(** X10. A successful [create] allocates a new object and a descriptor
    that was not open, sets the window to 24 rows and 80 columns, starts
    a child that inherits the environment with TERM and COLORTERM
    overridden, closes the slave end, registers the session under its
    identifier with an empty queue and no timer, and registers no reader. *)
Theorem create_registers_fresh_session w tid wd :
  os_pty_available (w_os w) = true → can_spawn w wd = true →
  ∃ self w' t p,
    create tid wd w = (Ok self, w')
    ∧ w_objects w !! self = None
    ∧ terminals w' = <[tid := self]> (terminals w)
    ∧ w_objects w' = <[self := t]> (w_objects w)
    ∧ terminal_id t = tid ∧ output_queue t = [] ∧ _destroy_task t = None
    ∧ (master_fd t ∉ os_fds (w_os w)) ∧ master_fd t ∈ os_fds (w_os w')
    ∧ os_winsize (w_os w') !! master_fd t = Some (24, 80)%Z
    ∧ readers (w_loop w') = readers (w_loop w)
    ∧ os_procs (w_os w) !! proc t = None
    ∧ os_procs (w_os w') = <[proc t := p]> (os_procs (w_os w))
    ∧ p_alive p = true
    ∧ (p_stdio p ∉ os_fds (w_os w'))
    ∧ p_env p !! "TERM" = Some "xterm-256color"
    ∧ p_env p !! "COLORTERM" = Some "truecolor"
    ∧ ∀ k, k ≠ "TERM" → k ≠ "COLORTERM" → p_env p !! k = os_environ (w_os w) !! k.
Proof.
  intros Hpty Hspawn.
  destruct (create_spec tid wd w)
    as [[Hp _]|[(_ & Hs & _)|(_ & _ & w' & E & Ht & Ho & Hl & Hpr & Hws & _)]];
    [congruence..|].
  destruct (create_success_fds _ _ _ _ _ E) as [Hfds Hrd].
  pose proof (is_fresh (os_fds (w_os w))) as Hm.
  pose proof (is_fresh ({[fresh (os_fds (w_os w))]} ∪ os_fds (w_os w))) as Hsl.
  exists (fresh (dom (w_objects w))), w', (new_terminal tid w), (new_process w wd).
  split; [done|]. split; [apply not_elem_of_dom, is_fresh|].
  split; [done|]. split; [done|]. split; [done|]. split; [done|]. split; [done|].
  split; [done|]. split.
  { rewrite Hfds. simpl. apply elem_of_difference. split.
    - apply elem_of_union_l, elem_of_union_l. by apply elem_of_singleton.
    - rewrite elem_of_singleton. intros Heq. apply Hsl. rewrite <- Heq.
      apply elem_of_union_l. by apply elem_of_singleton. }
  split; [done|]. split; [done|].
  split; [apply not_elem_of_dom, is_fresh|]. split; [done|]. split; [done|].
  split; [rewrite Hfds; simpl; rewrite elem_of_difference, elem_of_singleton; tauto|].
  split; [simpl; by rewrite lookup_insert_ne, lookup_insert_eq|].
  split; [simpl; by rewrite lookup_insert_eq|].
  intros k H1 H2. simpl. by rewrite !lookup_insert_ne.
Qed.

(** ** The consumer of the queue *)

Lemma forward_output_sends_all q : _forward_output_sends q None = _forward_output q.
Proof.
  induction q as [|[d|] q IH]; simpl; [done| |done]. by rewrite IH.
Qed.

(** X11. Whatever number of sends succeeds, [_forward_output] sends a
    prefix of the queue's chunks in queue order; it closes the socket only
    on meeting the sentinel, and when no send fails it stops only at the
    sentinel or at the end of the queue. *)
Theorem forward_output_sends_prefix q ok :
  ∃ rest,
    q = (map Some (_forward_output_sends q ok).1 ++ rest)%list
    ∧ ((_forward_output_sends q ok).2 = true → ∃ rest', rest = None :: rest')
    ∧ (ok = None → rest = [] ∨ ∃ rest', rest = None :: rest').
Proof.
  revert ok. induction q as [|[d|] q IH]; intros ok; simpl.
  - exists []. split; [done|]. split; [done|]. by left.
  - destruct ok as [[|n]|].
    + exists (Some d :: q). split; [done|]. split; done.
    + destruct (IH (Some n)) as (rest & Hq & Hc & _).
      destruct (_forward_output_sends q (Some n)) as [sent closed]. simpl in *.
      exists rest. split; [by rewrite Hq at 1|]. split; done.
    + destruct (IH None) as (rest & Hq & Hc & Hn).
      destruct (_forward_output_sends q None) as [sent closed]. simpl in *.
      exists rest. split; [by rewrite Hq at 1|]. split; [done|]. auto.
  - exists (None :: q). split; [done|]. split; eauto.
Qed.

(** ** The working directory of a terminal *)

Lemma string_app_cons x (a b : string) : String x a ++ b = String x (a ++ b).
Proof. reflexivity. Qed.

Lemma string_app_assoc (a b c : string) : (a ++ b) ++ c = a ++ (b ++ c).
Proof.
  induction a as [|x a IH]; [done|]. rewrite !string_app_cons. by rewrite IH.
Qed.

Lemma string_app_nil_inv (a b : string) : a ++ b = "" → b = "".
Proof. destruct a; [done|]. by rewrite string_app_cons. Qed.

Lemma endswith_char_app c a b :
  b ≠ "" → endswith_char c (a ++ b) = endswith_char c b.
Proof.
  intros Hb. induction a as [|x a IH]; [done|].
  rewrite string_app_cons. simpl. rewrite IH.
  destruct (a ++ b) eqn:E; [|done]. by apply string_app_nil_inv in E.
Qed.

Lemma path_join2_relative path b :
  startswith "/" b = false →
  path_join2 path b =
    (if String.eqb path "" || endswith_char "/" path then path else path ++ "/") ++ b.
Proof.
  intros Hb. unfold path_join2. rewrite Hb.
  destruct (String.eqb path "" || endswith_char "/" path); [done|].
  by rewrite string_app_assoc.
Qed.

Lemma resolve_work_dir_eq session_id w :
  resolve_work_dir session_id w
  = (Ok (os_abspath (w_os w) (session_dir (WORK_DIR w) session_id)), w).
Proof.
  unfold resolve_work_dir, session_dir, mbind, M_bind, gets. simpl. do 3 f_equal.
  destruct (String.eqb session_id "") eqn:Hsid; [done|]. simpl.
  unfold path_join. simpl.
  rewrite (path_join2_relative (WORK_DIR w) "sessions") by done.
  set (pre := if String.eqb (WORK_DIR w) "" || endswith_char "/" (WORK_DIR w)
              then WORK_DIR w else WORK_DIR w ++ "/").
  unfold path_join2. destruct (startswith "/" session_id); [done|].
  rewrite endswith_char_app by done. simpl.
  destruct (String.eqb_spec (pre ++ "sessions") "") as [E|_].
  - by apply string_app_nil_inv in E.
  - simpl. by rewrite !string_app_assoc.
Qed.

(** X12. The working directory of a connection: the absolute path of
    WORK_DIR for an empty [session_id]; of [session_id] alone when it
    starts with a slash, since [os.path.join] then drops what precedes it;
    otherwise of WORK_DIR, a separating slash unless WORK_DIR is empty or
    ends with one, and sessions/[session_id]. *)
Theorem work_dir_of_session session_id w :
  let root := WORK_DIR w in
  (session_id = "" →
   resolve_work_dir session_id w = (Ok (os_abspath (w_os w) root), w))
  ∧ (startswith "/" session_id = true →
     resolve_work_dir session_id w = (Ok (os_abspath (w_os w) session_id), w))
  ∧ (session_id ≠ "" → startswith "/" session_id = false →
     resolve_work_dir session_id w
     = (Ok (os_abspath (w_os w)
              ((if String.eqb root "" || endswith_char "/" root then root
                else root ++ "/") ++ "sessions/" ++ session_id)), w)).
Proof.
  intros root. subst root. rewrite resolve_work_dir_eq. unfold session_dir.
  split; [|split].
  - by intros ->.
  - intros Habs. destruct session_id; [done|]. simpl in *. by rewrite Habs.
  - intros Hne Hrel. rewrite Hrel.
    destruct (String.eqb_spec session_id ""); done.
Qed.

(** ** Headers and the streaming test *)

(** ** Headers that pass through the proxy *)

Lemma dict_of_foldl_last (items : list (string * string)) (d : gmap string string) k :
  foldl (λ d kv, <[kv.1 := kv.2]> d) d items !! k
  = match last_value k items with
    | Some v => Some v
    | None => d !! k
    end.
Proof.
  revert d. induction items as [|[k' v'] items IH]; intros d; simpl; [done|].
  rewrite IH. destruct (last_value k items) as [v|]; [done|].
  destruct (String.eqb_spec k' k) as [->|Hne].
  - by rewrite lookup_insert_eq.
  - by rewrite lookup_insert_ne.
Qed.

Lemma dict_of_last items k : dict_of items !! k = last_value k items.
Proof.
  unfold dict_of. rewrite dict_of_foldl_last, lookup_empty.
  by destruct (last_value k items).
Qed.

Lemma last_value_filter (P : string * string → Prop) `{∀ kv, Decision (P kv)}
    items k :
  (∀ v, P (k, v)) → last_value k (filter P items) = last_value k items.
Proof.
  intros HP. induction items as [|[k' v'] items IH]; [done|].
  rewrite filter_cons. destruct (decide (P (k', v'))) as [Hk'|Hk'].
  - simpl. by rewrite IH.
  - rewrite IH. simpl. destruct (last_value k items); [done|].
    destruct (String.eqb_spec k' k) as [->|Hne]; [|done]. by destruct Hk'.
Qed.

(** X13. A header whose lower-cased name is not hop-by-hop is forwarded
    to the backend with the value of its last occurrence unless it is
    Host, and in buffered mode is returned to the client with the
    backend's status, body and content type. *)
Theorem proxy_keeps_other_headers (URL : string) request path backend k :
  lower k ∉ _HOP_BY_HOP →
  (lower k ≠ "host" →
   b_headers (forwarded URL request path) !! k = last_value k (req_headers request))
  ∧ (∀ status hs chunks,
       is_sse request = false →
       backend (forwarded URL request path) = Reply status hs chunks None →
       ∃ resp, proxy URL request path backend = Some resp
               ∧ status_code resp = status
               ∧ body resp = Content (concat_bytes chunks)
               ∧ media_type resp = content_type_of hs
               ∧ headers resp !! k = last_value k hs).
Proof.
  intros Hhop. split.
  - intros Hhost. simpl. unfold _forward_headers. rewrite dict_of_last.
    by apply last_value_filter.
  - intros status hs chunks Hs Hb. unfold proxy. rewrite Hs, Hb.
    eexists. split; [done|]. simpl. repeat split.
    rewrite dict_of_last.
    by apply last_value_filter.
Qed.

(** ** Which requests are streamed *)

Lemma prefix_spec p s : String.prefix p s = true ↔ ∃ b, s = p ++ b.
Proof.
  revert s. induction p as [|x p IH]; intros [|y s]; simpl.
  - split; [intros _; by exists ""|done].
  - split; [intros _; by exists (String y s)|done].
  - split; [done|]. by intros [b Hb].
  - destruct (ascii_dec x y) as [->|Hne].
    + rewrite IH. split; intros [b Hb]; exists b.
      * by rewrite string_app_cons, Hb.
      * rewrite string_app_cons in Hb. by simplify_eq.
    + split; [done|]. intros [b Hb]. rewrite string_app_cons in Hb. by simplify_eq.
Qed.

Lemma str_contains_nil needle : str_contains needle "" = String.prefix needle "" || false.
Proof. reflexivity. Qed.

Lemma str_contains_cons needle y hay :
  str_contains needle (String y hay)
  = String.prefix needle (String y hay) || str_contains needle hay.
Proof. reflexivity. Qed.

Lemma str_contains_spec needle hay :
  str_contains needle hay = true ↔ ∃ a b, hay = a ++ needle ++ b.
Proof.
  induction hay as [|y hay IH].
  - rewrite str_contains_nil, orb_false_r, prefix_spec. split.
    + intros [b Hb]. by exists "", b.
    + intros (a & b & Hab). destruct a; [by exists b|].
      by rewrite string_app_cons in Hab.
  - rewrite str_contains_cons, orb_true_iff, IH, prefix_spec. split.
    + intros [[b Hb]|(a & b & Hab)].
      * by exists "", b.
      * exists (String y a), b. by rewrite string_app_cons, Hab.
    + intros (a & b & Hab). destruct a as [|x a].
      * left. by exists b.
      * right. rewrite string_app_cons in Hab. simplify_eq. by exists a, b.
Qed.

(** X14. The proxy answers with a streaming response exactly when the value
    of the request's first accept header contains text/event-stream as a
    substring, and the response is then the [StreamingResponse] over the
    generator, whatever the backend does; every other request gets a
    response with a content body or, for a transport error the handler
    does not catch, none. *)
Theorem streaming_iff_accept_mentions_event_stream (URL : string) request path backend :
  let accept := headers_get (req_headers request) "accept" "" in
  ((∃ a b, accept = a ++ "text/event-stream" ++ b)
   ↔ ∃ resp chunks raised,
       proxy URL request path backend = Some resp ∧ body resp = Stream chunks raised)
  ∧ ((∃ a b, accept = a ++ "text/event-stream" ++ b) →
     proxy URL request path backend
     = Some (StreamingResponse (_sse_generator (backend (forwarded URL request path)))
               "text/event-stream" sse_headers))
  ∧ ((¬ ∃ a b, accept = a ++ "text/event-stream" ++ b) →
     ∀ resp, proxy URL request path backend = Some resp → ∃ content, body resp = Content content).
Proof.
  intros accept. subst accept.
  pose proof (str_contains_spec "text/event-stream"
                (headers_get (req_headers request) "accept" "")) as Hspec.
  fold (is_sse request) in Hspec.
  assert (is_sse request = false →
          ∀ resp, proxy URL request path backend = Some resp →
                  ∃ content, body resp = Content content) as Hbuf.
  { intros Hno resp. unfold proxy. rewrite Hno.
    destruct (backend (forwarded URL request path)) as [e|status hs chunks [e|]];
      try (destruct e; simpl; intros ?; simplify_eq; simpl; eauto).
    intros ?. simplify_eq. simpl. eauto. }
  split; [|split].
  - split.
    + intros Hacc. apply Hspec in Hacc. unfold proxy. rewrite Hacc.
      eexists _, _, _. split; [reflexivity|]. reflexivity.
    + intros (resp & chunks & raised & Hp & Hb).
      destruct (is_sse request) eqn:Hsse; [by apply Hspec|].
      destruct (Hbuf eq_refl resp Hp) as [content Hc]. congruence.
  - intros Hacc. apply Hspec in Hacc. unfold proxy. by rewrite Hacc.
  - intros Hacc. apply Hbuf. destruct (is_sse request); [|done].
    exfalso. by apply Hacc, Hspec.
Qed.

(** ** Disconnect, reconnect and eviction *)

(** ** Disconnecting, reconnecting and eviction *)

Lemma teardown_world_spec terminal tid e self t w :
  terminals w !! tid = Some self → w_objects w !! self = Some t →
  let w1 := teardown_world terminal tid e w in
  let k := fresh (dom (tasks (w_loop w))) in
  ∃ t1, terminals w1 = terminals w ∧ w_os w1 = w_os w
        ∧ now (w_loop w1) = now (w_loop w)
        ∧ w_objects w1 !! self = Some t1
        ∧ _destroy_task t1 = Some k
        ∧ master_fd t1 = master_fd t ∧ proc t1 = proc t
        ∧ tasks (w_loop w1) !! k =
            Some {| task_target := tid;
                    task_state_of := Sleeping (now (w_loop w) + 300) |}.
Proof.
  intros Hs Ht w1 k. subst w1 k. unfold teardown_world, finally_world.
  set (w0 := if decide (e = WebSocketDisconnect) then w else add_log (LogWsError tid e) w).
  assert (terminals w0 = terminals w ∧ w_objects w0 = w_objects w
          ∧ w_loop w0 = w_loop w ∧ w_os w0 = w_os w) as (E1 & E2 & E3 & E4)
    by (subst w0; by destruct (decide _)).
  set (w1 := match w_objects w0 !! terminal with
             | Some t => set_readers (delete (master_fd t)) w0
             | None => w0
             end).
  assert (terminals w1 = terminals w ∧ w_objects w1 = w_objects w
          ∧ tasks (w_loop w1) = tasks (w_loop w)
          ∧ now (w_loop w1) = now (w_loop w) ∧ w_os w1 = w_os w)
    as (F1 & F2 & F3 & F4 & F5).
  { subst w1. destruct (w_objects w0 !! terminal); simpl; by rewrite ?E1, ?E2, ?E3, ?E4. }
  unfold schedule_world. rewrite F1, Hs. cbv zeta.
  rewrite <- F2 in Ht. destruct (cancel_world_self _ _ _ Ht) as (t1 & Ht1 & Hfd & Hpr & _).
  rewrite cancel_world_tasks_dom, F3, cancel_world_now, F4.
  exists (with_destroy_task (Some (fresh (dom (tasks (w_loop w))))) t1). simpl.
  rewrite cancel_world_terminals, cancel_world_os, cancel_world_now, lookup_alter_eq, Ht1,
    lookup_insert_eq.
  by repeat split.
Qed.

Lemma step_receive_raises terminal tid e w :
  step w (Receive terminal tid (ReceiveRaises e)) = teardown_world terminal tid e w.
Proof.
  unfold step, handle, mbind, M_bind.
  by rewrite (terminal_ws_turn_raise terminal tid (ReceiveRaises e) e w w).
Qed.

(** X15. After [delete_terminal] the teardown of the handler that was
    serving the identifier arms no timer: the identifier stays
    unregistered and no task or object changes. *)
Theorem disconnect_after_delete_arms_nothing w terminal tid e :
  let w1 := (delete_terminal tid w).2 in
  ∃ w2, terminal_ws_turn terminal tid (ReceiveRaises e) w1 = (Ok false, w2)
        ∧ terminals w2 !! tid = None
        ∧ tasks (w_loop w2) = tasks (w_loop w1)
        ∧ w_objects w2 = w_objects w1.
Proof.
  intros w1. subst w1. unfold delete_terminal. rewrite destroy_eq. simpl.
  exists (teardown_world terminal tid e (destroy_world tid w)).
  split; [by apply terminal_ws_turn_raise|].
  assert (terminals (destroy_world tid w) !! tid = None) as Hnone
    by (rewrite destroy_world_terminals; apply lookup_delete_eq).
  unfold teardown_world, finally_world, schedule_world.
  destruct (decide (e = WebSocketDisconnect));
    destruct (w_objects _ !! terminal); simpl; by rewrite Hnone.
Qed.

(** X16. A client that reconnects after a disconnect gets the same
    session back: the timer armed at the disconnect is cancelled, the
    reader is registered again, no descriptor is opened or closed, and
    the later wake-up of that timer does nothing. *)
Theorem reconnect_in_time_keeps_session w tid sid e self t :
  terminals w !! tid = Some self → w_objects w !! self = Some t →
  let k := fresh (dom (tasks (w_loop w))) in
  let w2 := run [Receive self tid (ReceiveRaises e); Connect tid sid] w in
  tasks (w_loop w2) !! k
    = Some {| task_target := tid; task_state_of := Finished false |}
  ∧ terminals w2 !! tid = Some self
  ∧ readers (w_loop w2) !! master_fd t = Some self
  ∧ os_fds (w_os w2) = os_fds (w_os w)
  ∧ ∀ secs, run [Tick secs; Wakeup k] w2 = step w2 (Tick secs).
Proof.
  intros Hs Ht k w2. subst w2. unfold run. simpl foldl.
  rewrite step_receive_raises.
  destruct (teardown_world_spec self tid e self t w Hs Ht)
    as (t1 & E1 & E2 & E3 & Ht1 & Hk & Hfd & _ & Htask).
  fold k in Hk, Htask.
  set (w1 := teardown_world self tid e w) in *.
  rewrite (step_connect_existing tid sid self) by by rewrite E1.
  pose proof (cancel_world_cancels self w1 t1 k _ _ Ht1 Hk Htask eq_refl) as Hc.
  destruct (cancel_world_self _ _ _ Ht1) as (t2 & Ht2 & Hfd2 & _).
  rewrite (start_reading_eq self t2) by done. simpl in *.
  rewrite Hc, cancel_world_terminals, E1, Hfd2, Hfd, lookup_insert_eq, cancel_world_os, E2.
  repeat split; try done.
  intros secs. unfold step at 1. simpl. rewrite delayed_wakeup_eq. simpl.
  unfold wakeup_world. simpl. by rewrite Hc.
Qed.

(** X17. A session left without a connection for at least 300 seconds is
    destroyed when its timer wakes up: it leaves the registry, its
    descriptor is closed, its child is killed and the timer has run to
    completion. *)
Theorem idle_session_is_evicted w tid e self t secs :
  terminals w !! tid = Some self → w_objects w !! self = Some t →
  (300 ≤ secs)%nat →
  let k := fresh (dom (tasks (w_loop w))) in
  let w3 := run [Receive self tid (ReceiveRaises e); Tick secs; Wakeup k] w in
  terminals w3 !! tid = None
  ∧ (master_fd t ∉ os_fds (w_os w3))
  ∧ (∀ p, os_procs (w_os w3) !! proc t = Some p → p_alive p = false)
  ∧ tasks (w_loop w3) !! k
    = Some {| task_target := tid; task_state_of := Finished true |}.
Proof.
  intros Hs Ht Hsecs k w3. subst w3. unfold run. simpl foldl.
  rewrite step_receive_raises.
  destruct (teardown_world_spec self tid e self t w Hs Ht)
    as (t1 & E1 & E2 & E3 & Ht1 & Hk & Hfd & Hpr & Htask).
  fold k in Hk, Htask.
  set (w1 := teardown_world self tid e w) in *.
  set (w2 := set_tasks (alter (with_state (λ _, Running)) k) (step w1 (Tick secs))).
  assert (step (step w1 (Tick secs)) (Wakeup k)
          = set_tasks (alter (with_state (λ _, Finished true)) k)
              (add_log (LogAutoDestroyed tid RECONNECT_TIMEOUT_SECONDS)
                 (destroy_world tid w2))) as ->.
  { unfold step at 1. simpl. rewrite delayed_wakeup_eq. simpl.
    unfold wakeup_world. simpl. rewrite Htask. simpl.
    destruct (Nat.leb_spec (now (w_loop w) + 300) (now (w_loop w1) + secs)); [done|lia]. }
  assert (terminals w2 !! tid = Some self) as Hs2 by (subst w2; simpl; by rewrite E1).
  assert (w_objects w2 !! self = Some t1) as Ht2 by done.
  destruct (destroy_world_closes tid self t1 w2 Hs2 Ht2) as [C1 C2].
  rewrite Hfd in C1. rewrite Hpr in C2.
  simpl. rewrite destroy_world_terminals, lookup_delete_eq, lookup_alter_eq.
  split; [done|]. split; [done|]. split; [done|].
  pose proof (destroy_world_target tid w2 k) as Htg.
  subst w2. simpl in Htg. rewrite lookup_alter_eq, Htask in Htg. simpl in Htg.
  destruct (tasks (w_loop (destroy_world _ _)) !! k) as [task'|]; [|done].
  simpl in *. unfold with_state. congruence.
Qed.

(** ** Changes that keep every session *)

(** ** No dangling session *)

Global Instance keeps_sessions_preorder : PreOrder keeps_sessions.
Proof.
  split.
  - by intros w.
  - intros w1 w2 w3 (H1 & H2 & H3 & H4) (G1 & G2 & G3 & G4).
    unfold keeps_sessions. rewrite G1. repeat split; try done.
    + by etrans.
    + by etrans.
    + intros a. by rewrite G4.
Qed.

Global Instance inv_step_preorder I : PreOrder (inv_step I).
Proof. split; unfold inv_step; [by intros w|intros w1 w2 w3 H1 H2 H; auto]. Qed.

Lemma live_sessions_keeps w w' : keeps_sessions w w' → live_sessions w → live_sessions w'.
Proof.
  intros (Ht & Hf & Hp & Ho) Hlive tid a t Hs Hobj. rewrite Ht in Hs.
  assert (Hback : ∀ a1 t1, w_objects w' !! a1 = Some t1 →
            ∃ t0, w_objects w !! a1 = Some t0 ∧ master_fd t0 = master_fd t1
                  ∧ proc t0 = proc t1).
  { intros a1 t1 H. specialize (Ho a1). rewrite H in Ho. simpl in Ho.
    destruct (w_objects w !! a1) as [t0|]; simplify_eq/=. eauto. }
  destruct (Hback _ _ Hobj) as (t0 & Hobj0 & Hfd & Hpr).
  destruct (Hlive _ _ _ Hs Hobj0) as (L1 & L2 & L3).
  rewrite <- Hfd, <- Hpr. split; [by apply Hf|]. split.
  - apply elem_of_dom, Hp, elem_of_dom, L2.
  - intros tid' a' t' Hs' Hobj' Heq. rewrite Ht in Hs'.
    destruct (Hback _ _ Hobj') as (t0' & Hobj0' & Hfd' & Hpr').
    apply (L3 tid' a' t0' Hs' Hobj0'). by rewrite Hfd', Hpr'.
Qed.

Lemma keeps_sessions_os f w :
  os_fds (f (w_os w)) = os_fds (w_os w) → os_procs (f (w_os w)) = os_procs (w_os w) →
  keeps_sessions w (set_os f w).
Proof. intros H1 H2. unfold keeps_sessions. simpl. by rewrite H1, H2. Qed.

Lemma keeps_sessions_loop f w : keeps_sessions w (set_loop f w).
Proof. done. Qed.

Lemma keeps_sessions_alter f self w :
  (∀ t, master_fd (f t) = master_fd t ∧ proc (f t) = proc t) →
  keeps_sessions w (set_objects (alter f self) w).
Proof.
  intros Hf. repeat split; simpl; try done.
  intros a. rewrite lookup_alter. case_decide; [subst|done].
  destruct (w_objects w !! a) as [t|]; [|done]. simpl.
  by destruct (Hf t) as [-> ->].
Qed.

Lemma respects_sessions_write fd data : respects keeps_sessions (os_write fd data).
Proof. intros w. unfold os_write. by destruct (decide _). Qed.

Lemma respects_sessions_pack a b : respects keeps_sessions (struct_pack_HHHH a b).
Proof. unfold struct_pack_HHHH. respects_tac. Qed.

Lemma respects_sessions_ioctl fd p : respects keeps_sessions (ioctl_TIOCSWINSZ fd p).
Proof. intros w. unfold ioctl_TIOCSWINSZ. by destruct (decide _). Qed.

Lemma respects_sessions_add_reader fd self : respects keeps_sessions (add_reader fd self).
Proof. done. Qed.

Lemma respects_sessions_remove_reader fd : respects keeps_sessions (remove_reader fd).
Proof. done. Qed.

Lemma respects_sessions_set_queue self f : respects keeps_sessions (set_output_queue self f).
Proof. intros w. by apply keeps_sessions_alter. Qed.

Lemma respects_sessions_set_task self k : respects keeps_sessions (set_destroy_task self k).
Proof. intros w. by apply keeps_sessions_alter. Qed.

Lemma respects_sessions_log r : respects keeps_sessions (modify (add_log r)).
Proof. done. Qed.

Lemma respects_sessions_is_done k : respects keeps_sessions (task_is_done k).
Proof. done. Qed.

Lemma respects_sessions_cancel_task k : respects keeps_sessions (task_cancel k).
Proof. done. Qed.

Lemma respects_sessions_ensure tid : respects keeps_sessions (ensure_future_delayed tid).
Proof. done. Qed.

Create HintDb session_frame discriminated.
#[export] Hint Resolve respects_sessions_write respects_sessions_pack
  respects_sessions_ioctl respects_sessions_add_reader respects_sessions_remove_reader
  respects_sessions_set_queue respects_sessions_set_task respects_sessions_log
  respects_sessions_is_done respects_sessions_cancel_task respects_sessions_ensure
  : session_frame.

Ltac session_frame := respects_tac; eauto with session_frame.

Lemma respects_sessions_stop_reading self : respects keeps_sessions (stop_reading self).
Proof. unfold stop_reading. session_frame. Qed.

Lemma respects_sessions_start_reading self : respects keeps_sessions (start_reading self).
Proof. unfold start_reading, drain_queue. session_frame. Qed.

Lemma respects_sessions_on_readable self r : respects keeps_sessions (_on_readable self r).
Proof. unfold _on_readable, os_read. session_frame. Qed.

Lemma respects_sessions_write_method self data : respects keeps_sessions (write self data).
Proof. unfold write. session_frame. Qed.

Lemma respects_sessions_resize self c r : respects keeps_sessions (resize self c r).
Proof. unfold resize. session_frame. Qed.

Lemma respects_sessions_cancel self : respects keeps_sessions (cancel_destroy_timer self).
Proof. unfold cancel_destroy_timer. session_frame. Qed.

#[export] Hint Resolve respects_sessions_stop_reading respects_sessions_start_reading
  respects_sessions_on_readable respects_sessions_write_method respects_sessions_resize
  respects_sessions_cancel : session_frame.

Lemma respects_sessions_dispatch terminal msg :
  respects keeps_sessions (terminal_ws_dispatch terminal msg).
Proof. unfold terminal_ws_dispatch, json_loads. session_frame. Qed.

Lemma respects_sessions_schedule tid : respects keeps_sessions (schedule_destroy tid).
Proof. unfold schedule_destroy. session_frame. Qed.

(** ** Live sessions as an invariant of the system *)

Lemma create_os tid wd w :
  os_fds (w_os w) ⊆ os_fds (w_os (create tid wd w).2)
  ∧ dom (os_procs (w_os w)) ⊆ dom (os_procs (w_os (create tid wd w).2)).
Proof.
  pose proof (is_fresh ({[fresh (os_fds (w_os w))]} ∪ os_fds (w_os w))) as Hsl.
  unfold create.
  unfold os_openpty, ioctl_TIOCSWINSZ, create_subprocess_exec, os_close,
    TerminalProcess_init. munfold. simpl.
  fold (resolved_dir w wd).
  destruct (os_pty_available (w_os w)); [|done].
  simpl. destruct (decide (_ ∈ _)) as [_|Hn]; [|exfalso; set_solver].
  destruct (spawn_command (BACKEND_CONTAINER w) (resolved_dir w wd)) as [cmd cwd] eqn:Hcmd.
  simpl. rewrite Hcmd. simpl.
  destruct (os_exec_ok (w_os w) cmd cwd).
  - destruct (decide (_ ∈ _)) as [_|Hn]; [|exfalso; simpl in Hn; set_solver].
    simpl. split.
    + intros x Hx. apply elem_of_difference. split; [by apply elem_of_union_r|].
      rewrite elem_of_singleton. intros ->. apply Hsl. by apply elem_of_union_r.
    + rewrite dom_insert_L. apply union_subseteq_r.
  - simpl. split; [apply union_subseteq_r|done].
Qed.

Lemma create_sound tid wd w :
  terminals w !! tid = None → sound w → live_sessions (create tid wd w).2.
Proof.
  intros Habs [[_ Hreg] Hlive].
  destruct (create_os tid wd w) as [Hfds Hprocs].
  assert (Hold : ∀ tid1 a1 t1, terminals w !! tid1 = Some a1 → w_objects w !! a1 = Some t1 →
            master_fd t1 ≠ fresh (os_fds (w_os w))
            ∧ proc t1 ≠ fresh (dom (os_procs (w_os w)))).
  { intros tid1 a1 t1 Hs Ho. destruct (Hlive _ _ _ Hs Ho) as (L1 & L2 & _). split.
    - intros E. rewrite E in L1. by apply is_fresh in L1.
    - intros E. rewrite E in L2. apply elem_of_dom in L2. by apply is_fresh in L2. }
  destruct (create_spec tid wd w)
    as [[_ E]|[(_ & _ & w' & E & Ht & Ho & _)
              |(_ & _ & w' & E & Ht & Ho & _ & Hpr & _)]];
    rewrite E in *; simpl in *; unfold live_sessions.
  - done.
  - intros tid1 a1 t1. rewrite Ht, Ho. intros Hs Hobj.
    destruct (Hlive _ _ _ Hs Hobj) as (L1 & L2 & L3).
    split; [by apply Hfds|]. split; [apply elem_of_dom, Hprocs, elem_of_dom, L2|].
    apply L3.
  - destruct (create_success_fds _ _ _ _ _ E) as [Hfds' _].
    assert (w_objects w !! fresh (dom (w_objects w)) = None) as Hfr
      by apply not_elem_of_dom, is_fresh.
    assert (Hreg' : ∀ tid1 a1 t1, tid1 ≠ tid →
              terminals w' !! tid1 = Some a1 → w_objects w' !! a1 = Some t1 →
              terminals w !! tid1 = Some a1 ∧ w_objects w !! a1 = Some t1).
    { intros tid1 a1 t1 Hne. rewrite Ht, Ho, lookup_insert_ne by done. intros Hs.
      destruct (Hreg _ _ Hs) as [t0 Ht0].
      rewrite lookup_insert_ne by (intros <-; congruence). done. }
    assert (Hnew : ∀ a1 t1, terminals w' !! tid = Some a1 → w_objects w' !! a1 = Some t1 →
              t1 = new_terminal tid w).
    { intros a1 t1. rewrite Ht, Ho, lookup_insert_eq. intros [= <-].
      rewrite lookup_insert_eq. by intros [= <-]. }
    intros tid1 a1 t1 Hs Hobj.
    destruct (decide (tid1 = tid)) as [->|Hne].
    + rewrite (Hnew _ _ Hs Hobj). simpl. split; [|split].
      * rewrite Hfds'. apply elem_of_difference. split.
        -- apply elem_of_union_l, elem_of_union_l. by apply elem_of_singleton.
        -- rewrite elem_of_singleton. intros Heq.
           pose proof (is_fresh ({[fresh (os_fds (w_os w))]} ∪ os_fds (w_os w))) as Hsl.
           apply Hsl. rewrite <- Heq. apply elem_of_union_l. by apply elem_of_singleton.
      * rewrite Hpr, lookup_insert_eq. eauto.
      * intros tid' a' t' Hs' Hobj' Heq.
        destruct (decide (tid' = tid)) as [|Hne']; [done|].
        destruct (Hreg' _ _ _ Hne' Hs' Hobj') as [Hs0 Ho0].
        destruct (Hold _ _ _ Hs0 Ho0). by destruct Heq.
    + destruct (Hreg' _ _ _ Hne Hs Hobj) as [Hs0 Ho0].
      destruct (Hlive _ _ _ Hs0 Ho0) as (L1 & L2 & L3).
      split; [by apply Hfds|]. split; [apply elem_of_dom, Hprocs, elem_of_dom, L2|].
      intros tid' a' t' Hs' Hobj' Heq.
      destruct (decide (tid' = tid)) as [->|Hne'].
      * rewrite (Hnew _ _ Hs' Hobj') in Heq. simpl in Heq.
        destruct (Hold _ _ _ Hs0 Ho0). destruct Heq; congruence.
      * destruct (Hreg' _ _ _ Hne' Hs' Hobj') as [Hs0' Ho0']. by eapply L3.
Qed.

Lemma kill_world_procs_dom pid w :
  dom (os_procs (w_os (kill_world pid w))) = dom (os_procs (w_os w)).
Proof.
  unfold kill_world. destruct (os_procs (w_os w) !! pid) as [p|] eqn:E; [|done].
  destruct (p_alive p); [|done]. simpl. rewrite dom_insert_L.
  apply elem_of_dom_2 in E. apply leibniz_equiv. intros x.
  rewrite elem_of_union, elem_of_singleton. split; [intros [->|?]; done|auto].
Qed.

Lemma close_world_procs_dom self w :
  dom (os_procs (w_os (close_world self w))) = dom (os_procs (w_os w)).
Proof.
  unfold close_world. destruct (w_objects w !! self) as [t|]; [|done].
  destruct (close_fd_world_rest (master_fd t)
              (kill_world (proc t) (set_readers (delete (master_fd t)) w)))
    as (_ & -> & _).
  by rewrite kill_world_procs_dom.
Qed.

Lemma close_world_fds_other self t w x :
  w_objects w !! self = Some t → x ∈ os_fds (w_os w) → x ≠ master_fd t →
  x ∈ os_fds (w_os (close_world self w)).
Proof.
  intros Ht Hx Hne. unfold close_world. rewrite Ht.
  unfold close_fd_world.
  destruct (decide _); simpl; rewrite kill_world_fds; simpl; [|done].
  apply elem_of_difference. split; [done|]. by rewrite elem_of_singleton.
Qed.

Lemma destroy_world_object_back tid w a t' :
  w_objects (destroy_world tid w) !! a = Some t' →
  ∃ t, w_objects w !! a = Some t ∧ master_fd t' = master_fd t ∧ proc t' = proc t
       ∧ output_queue t' = output_queue t.
Proof.
  intros H. destruct (w_objects w !! a) as [t|] eqn:Ht.
  - destruct (destroy_world_object tid w a t Ht) as (t1 & H1 & H2 & H3 & H4 & _).
    rewrite H in H1. simplify_eq. eauto.
  - exfalso. apply not_elem_of_dom in Ht.
    assert (a ∈ dom (w_objects (destroy_world tid w))) as Hin by (apply elem_of_dom; eauto).
    apply Ht. revert Hin. unfold destroy_world.
    destruct (terminals w !! tid) as [self|]; [|done].
    simpl. by rewrite close_world_objects, cancel_world_dom.
Qed.

Lemma destroy_world_live tid w : sound w → live_sessions (destroy_world tid w).
Proof.
  intros [[_ Hreg] Hlive] tid1 a1 t1 Hs Hobj.
  rewrite destroy_world_terminals in Hs. apply lookup_delete_Some in Hs as [Hne Hs].
  destruct (destroy_world_object_back _ _ _ _ Hobj) as (t0 & Hobj0 & Hfd & Hpr & _).
  destruct (Hlive _ _ _ Hs Hobj0) as (L1 & L2 & L3).
  rewrite Hfd, Hpr. split; [|split].
  - unfold destroy_world. destruct (terminals w !! tid) as [self|] eqn:Hself; [|done].
    destruct (Hreg _ _ Hself) as [t Ht].
    destruct (cancel_world_self self (set_terminals (delete tid) w) t Ht)
      as (t' & Ht' & Hfd' & _).
    simpl. apply (close_world_fds_other self t'); [done|by rewrite cancel_world_os|].
    rewrite Hfd'. intros E. apply Hne. apply (L3 tid self t); auto.
  - apply elem_of_dom. apply elem_of_dom in L2.
    unfold destroy_world. destruct (terminals w !! tid) as [self|]; [|done].
    simpl. by rewrite close_world_procs_dom, cancel_world_os.
  - intros tid' a' t' Hs' Hobj' Heq.
    rewrite destroy_world_terminals in Hs'. apply lookup_delete_Some in Hs' as [_ Hs'].
    destruct (destroy_world_object_back _ _ _ _ Hobj') as (t0' & Hobj0' & Hfd' & Hpr' & _).
    apply (L3 tid' a' t0' Hs' Hobj0'). by rewrite <- Hfd', <- Hpr'.
Qed.

(** Every event keeps an invariant that each operation of the handlers
    keeps. *)
Section HandleOps.
Context (R : relation World) `{!PreOrder R}.
Hypothesis R_start : ∀ self, respects R (start_reading self).
Hypothesis R_stop : ∀ self, respects R (stop_reading self).
Hypothesis R_readable : ∀ self r, respects R (_on_readable self r).
Hypothesis R_dispatch : ∀ terminal msg, respects R (terminal_ws_dispatch terminal msg).
Hypothesis R_log : ∀ r, respects R (modify (add_log r)).
Hypothesis R_tick : ∀ f, respects R (modify (set_now f)).
Hypothesis R_destroy : ∀ tid, respects R (destroy tid).
Hypothesis R_schedule : ∀ tid, respects R (schedule_destroy tid).
Hypothesis R_wakeup : ∀ k, respects R (_delayed_wakeup k).
Hypothesis R_lookup_or_create : ∀ tid wd, respects R (lookup_or_create tid wd).

Lemma ops_destroy_each tids : respects R (destroy_each tids).
Proof.
  induction tids as [|tid tids IH]; simpl.
  - apply respects_ret; tc_solve.
  - apply respects_bind; [tc_solve|apply R_destroy|done].
Qed.

Lemma ops_turn terminal tid r : respects R (terminal_ws_turn terminal tid r).
Proof.
  intros w. unfold terminal_ws_turn.
  assert (respects R (msg ← receive r; terminal_ws_dispatch terminal msg)) as Hd.
  { unfold receive. respects_tac; apply R_dispatch. }
  specialize (Hd w).
  destruct ((msg ← receive r; terminal_ws_dispatch terminal msg) w) as [[[]|e] w']; [done|].
  simpl in Hd. etrans; [exact Hd|].
  assert (respects R
    ((if decide (e = WebSocketDisconnect) then pass
      else modify (add_log (LogWsError tid e)));;
     terminal_ws_finally terminal tid;; mret false)) as Hrest; [|apply Hrest].
  unfold terminal_ws_finally. respects_tac; auto.
Qed.

Lemma ops_handle ev : respects R (handle ev).
Proof.
  destruct ev as [tid sid|terminal tid r|fd r|tid|k|secs|]; simpl.
  - unfold terminal_ws_attach, resolve_work_dir. respects_tac; auto.
  - apply respects_bind; [tc_solve| |intros; apply respects_ret; tc_solve].
    apply ops_turn.
  - intros w. unfold on_readable_event.
    destruct (readers (w_loop w) !! fd); [apply R_readable|reflexivity].
  - apply R_destroy.
  - apply R_wakeup.
  - apply R_tick.
  - unfold destroy_all. respects_tac. apply ops_destroy_each.
Qed.

Lemma ops_run evs w : R w (run evs w).
Proof.
  revert w. induction evs as [|ev evs IH]; intros w; simpl; [reflexivity|].
  etrans; [apply (ops_handle ev w)|apply IH].
Qed.
End HandleOps.

Lemma sound_of_frames {A} (m : M A) :
  respects same_core m → respects keeps_sessions m → respects (inv_step sound) m.
Proof.
  intros H1 H2 w [Hwf Hlive]. split.
  - exact (wf_same_core _ _ (H1 w) Hwf).
  - exact (live_sessions_keeps _ _ (H2 w) Hlive).
Qed.

Lemma sound_destroy tid : respects (inv_step sound) (destroy tid).
Proof.
  intros w Hs. rewrite destroy_eq. simpl. split.
  - apply destroy_world_wf, Hs.
  - by apply destroy_world_live.
Qed.

Lemma run_sound evs w : sound w → sound (run evs w).
Proof.
  apply (ops_run (inv_step sound)).
  - intros self. apply sound_of_frames; eauto with core_frame session_frame.
  - intros self. apply sound_of_frames; eauto with core_frame session_frame.
  - intros self r. apply sound_of_frames; eauto with core_frame session_frame.
  - intros terminal msg.
    apply sound_of_frames; [apply respects_core_dispatch|apply respects_sessions_dispatch].
  - intros r. apply sound_of_frames; eauto with core_frame session_frame.
  - intros f. by apply sound_of_frames.
  - apply sound_destroy.
  - intros tid w1 [Hwf Hlive]. split.
    + rewrite schedule_destroy_eq. by apply schedule_world_wf.
    + exact (live_sessions_keeps _ _ (respects_sessions_schedule tid w1) Hlive).
  - intros k w1 Hs. rewrite delayed_wakeup_eq. simpl. unfold wakeup_world.
    destruct (tasks (w_loop w1) !! k) as [t|]; [|done].
    destruct (task_state_of t) as [d| |]; try done.
    destruct (Nat.leb d (now (w_loop w1))); [|done].
    assert (sound (set_tasks (alter (with_state (λ _, Running)) k) w1)) as Hs1.
    { destruct Hs as [Hwf Hlive]. split; [by apply set_state_wf|done]. }
    pose proof (sound_destroy (task_target t) _ Hs1) as Hs2.
    rewrite destroy_eq in Hs2. simpl in Hs2. destruct Hs2 as [Hwf2 Hlive2].
    split; [apply set_state_wf; [done|]; by eapply wf_same_core; [apply same_core_log|]|done].
  - intros tid wd w1 Hs. unfold lookup_or_create, mbind, M_bind, gets. simpl.
    destruct (terminals w1 !! tid) as [a|] eqn:Ha.
    + unfold mbind, M_bind.
      pose proof (respects_sessions_cancel a w1) as Hk.
      rewrite cancel_destroy_timer_eq in *. simpl in *. destruct Hs as [Hwf Hlive]. split.
      * by apply cancel_world_wf.
      * exact (live_sessions_keeps _ _ Hk Hlive).
    + split; [apply create_wf; [done|apply Hs]|by apply create_sound].
Qed.

(** X18. Through every sequence of events the registry refers to stored
    objects only, and every registered session has an open descriptor and
    a child in the process table and shares neither with a session
    registered under another identifier. *)
Theorem registered_sessions_stay_live w evs :
  sound w →
  registry_closed (run evs w) ∧ live_sessions (run evs w).
Proof.
  intros Hs. destruct (run_sound evs w Hs) as [[_ Hreg] Hlive]. by split.
Qed.

Lemma kill_world_other pid pid' w :
  pid' ≠ pid → os_procs (w_os (kill_world pid w)) !! pid' = os_procs (w_os w) !! pid'.
Proof.
  intros Hne. unfold kill_world. destruct (os_procs (w_os w) !! pid) as [p|]; [|done].
  destruct (p_alive p); [|done]. simpl. by rewrite lookup_insert_ne.
Qed.

Lemma kill_world_winsize pid w :
  os_winsize (w_os (kill_world pid w)) = os_winsize (w_os w).
Proof.
  unfold kill_world. destruct (os_procs (w_os w) !! pid) as [p|]; [|done].
  by destruct (p_alive p).
Qed.

Lemma close_fd_world_winsize_other fd fd' w :
  fd' ≠ fd →
  os_winsize (w_os (close_fd_world fd w)) !! fd' = os_winsize (w_os w) !! fd'.
Proof.
  intros Hne. unfold close_fd_world. destruct (decide _); [|done].
  simpl. by rewrite lookup_delete_ne.
Qed.

(** [close] leaves another descriptor and another process as they are. *)
Lemma close_world_other self t w fd' pid' :
  w_objects w !! self = Some t → fd' ≠ master_fd t → pid' ≠ proc t →
  readers (w_loop (close_world self w)) !! fd' = readers (w_loop w) !! fd'
  ∧ os_winsize (w_os (close_world self w)) !! fd' = os_winsize (w_os w) !! fd'
  ∧ os_procs (w_os (close_world self w)) !! pid' = os_procs (w_os w) !! pid'.
Proof.
  intros Ht Hfd Hpid. unfold close_world. rewrite Ht.
  destruct (close_fd_world_rest (master_fd t)
              (kill_world (proc t) (set_readers (delete (master_fd t)) w)))
    as (-> & -> & _).
  destruct (kill_world_rest (proc t) (set_readers (delete (master_fd t)) w)) as (-> & _).
  rewrite close_fd_world_winsize_other, kill_world_winsize, kill_world_other by done.
  simpl. by rewrite lookup_delete_ne.
Qed.

(** X19. Destroying one session leaves every session registered under
    another identifier as it was: registry entry, object, open
    descriptor, reader, window size and child process. *)
Theorem destroy_leaves_other_sessions w tid tid' a' t' :
  sound w → tid' ≠ tid →
  terminals w !! tid' = Some a' → w_objects w !! a' = Some t' →
  ∃ w1, destroy tid w = (Ok tt, w1)
        ∧ terminals w1 !! tid' = Some a'
        ∧ w_objects w1 !! a' = Some t'
        ∧ master_fd t' ∈ os_fds (w_os w1)
        ∧ readers (w_loop w1) !! master_fd t' = readers (w_loop w) !! master_fd t'
        ∧ os_winsize (w_os w1) !! master_fd t' = os_winsize (w_os w) !! master_fd t'
        ∧ os_procs (w_os w1) !! proc t' = os_procs (w_os w) !! proc t'.
Proof.
  intros Hs Hne Hs' Hobj'. exists (destroy_world tid w). split; [apply destroy_eq|].
  pose proof (destroy_world_live tid w Hs) as Hlive1.
  destruct Hs as [[_ Hreg] Hlive].
  split; [by rewrite destroy_world_terminals, lookup_delete_ne|].
  unfold destroy_world in *. destruct (terminals w !! tid) as [self|] eqn:Hself.
  - destruct (Hreg _ _ Hself) as [t Ht].
    destruct (Hlive _ _ _ Hself Ht) as (_ & _ & L3).
    assert (a' ≠ self) as Ha.
    { intros ->. apply Hne. apply (L3 tid' self t' Hs' Hobj'). left. congruence. }
    assert (master_fd t' ≠ master_fd t ∧ proc t' ≠ proc t) as [Hfd Hpr].
    { split; intros E; apply Hne; apply (L3 tid' a' t' Hs' Hobj'); [by left|by right]. }
    destruct (cancel_world_self self (set_terminals (delete tid) w) t Ht)
      as (t1 & Ht1 & Hfd1 & Hpr1 & _).
    rewrite <- Hfd1 in Hfd. rewrite <- Hpr1 in Hpr.
    destruct (close_world_other self t1 _ (master_fd t') (proc t') Ht1 Hfd Hpr)
      as (C1 & C2 & C3).
    simpl. rewrite close_world_objects, cancel_world_other by done.
    rewrite C1, C2, C3, cancel_world_readers, cancel_world_os. simpl.
    repeat split; try done.
    apply (Hlive1 tid' a' t').
    + destruct (close_world_same_core self (cancel_world self (set_terminals (delete tid) w)))
        as (Htm & _).
      simpl. rewrite Htm, cancel_world_terminals. simpl. by rewrite lookup_delete_ne.
    + simpl. by rewrite close_world_objects, cancel_world_other.
  - simpl. repeat split; try done. by apply (Hlive tid' a' t').
Qed.

(** ** Failed spawn, relay order, frames, first connection *)

(** ** A spawn that fails *)

(** X20. When the spawn fails after the PTY was allocated, [create]
    raises with both ends of the PTY still open: the two descriptors were
    not open before and nothing closes them; registry, objects, processes
    and the loop are untouched. *)
Theorem failed_spawn_leaves_descriptors_open w tid wd :
  os_pty_available (w_os w) = true → can_spawn w wd = false →
  let master := fresh (os_fds (w_os w)) in
  let slave := fresh ({[master]} ∪ os_fds (w_os w)) in
  ∃ w', create tid wd w = (Raise FileNotFoundError, w')
        ∧ os_fds (w_os w') = {[master; slave]} ∪ os_fds (w_os w)
        ∧ (master ∉ os_fds (w_os w)) ∧ (slave ∉ os_fds (w_os w)) ∧ master ≠ slave
        ∧ terminals w' = terminals w ∧ w_objects w' = w_objects w
        ∧ os_procs (w_os w') = os_procs (w_os w)
        ∧ w_loop w' = w_loop w.
Proof.
  intros Hpty Hspawn master slave.
  pose proof (is_fresh (os_fds (w_os w))) as Hm.
  pose proof (is_fresh ({[master]} ∪ os_fds (w_os w))) as Hsl. fold slave in Hsl.
  unfold can_spawn in Hspawn. unfold create.
  unfold os_openpty, ioctl_TIOCSWINSZ, create_subprocess_exec, os_close,
    TerminalProcess_init. munfold. simpl.
  fold (resolved_dir w wd). rewrite Hpty.
  simpl. destruct (decide (_ ∈ _)) as [_|Hn]; [|exfalso; set_solver].
  destruct (spawn_command (BACKEND_CONTAINER w) (resolved_dir w wd)) as [cmd cwd] eqn:Hcmd.
  simpl in *. rewrite Hcmd. simpl. rewrite Hspawn.
  eexists. split; [reflexivity|]. simpl. repeat split; try done.
  - intros Hin. apply Hsl. by apply elem_of_union_r.
  - intros E. apply Hsl. rewrite <- E. apply elem_of_union_l. by apply elem_of_singleton.
Qed.

(** ** Output in order *)

Lemma forward_output_until_sentinel ds q :
  _forward_output (map Some ds ++ None :: q) = (ds, true).
Proof. induction ds as [|d ds IH]; simpl; [done|]. by rewrite IH. Qed.

Lemma forward_output_no_sentinel ds : _forward_output (map Some ds) = (ds, false).
Proof. induction ds as [|d ds IH]; simpl; [done|]. by rewrite IH. Qed.

(** X21. After [start_reading], the chunks read from the PTY reach the
    client in the order they were read; a read error after them stops
    the relay there and closes the socket, whatever is read later. *)
Theorem output_is_relayed_in_order w self t ds :
  w_objects w !! self = Some t →
  let fd := master_fd t in
  let w0 := (start_reading self w).2 in
  (∃ t', w_objects (run (map (Readable fd) (map ReadData ds)) w0) !! self = Some t'
         ∧ _forward_output (output_queue t') = (ds, false))
  ∧ (∀ rs, ∃ t', w_objects (run (map (Readable fd) (map ReadData ds ++ ReadError :: rs)) w0)
                   !! self = Some t'
                 ∧ _forward_output (output_queue t') = (ds, true)).
Proof.
  intros Ht fd w0. subst fd w0.
  rewrite (start_reading_eq _ t) by done. simpl.
  set (w0 := set_readers (<[master_fd t := self]>)
               (set_objects (alter (with_queue drain) self) w)).
  assert (w_objects w0 !! self = Some (with_queue drain t)) as Ht0
    by (subst w0; simpl; by rewrite lookup_alter_eq, Ht).
  assert (readers (w_loop w0) !! master_fd t = Some self) as Hr
    by (subst w0; simpl; apply lookup_insert_eq).
  split.
  - destruct (reads_fill_queue (map ReadData ds) w0 self _ (master_fd t) Ht0 Hr)
      as (t' & H1 & H2 & _).
    exists t'. split; [done|]. rewrite H2. simpl. rewrite drain_nil. simpl.
    rewrite map_map. simpl. apply forward_output_no_sentinel.
  - intros rs.
    destruct (reads_fill_queue (map ReadData ds ++ ReadError :: rs) w0 self _
                (master_fd t) Ht0 Hr) as (t' & H1 & H2 & _).
    exists t'. split; [done|]. rewrite H2. simpl. rewrite drain_nil. simpl.
    rewrite map_app, map_map. simpl. apply forward_output_until_sentinel.
Qed.

(** ** What a frame can change *)

Lemma set_winsize_id (w : World) : set_os (os_set_winsize (λ m, m)) w = w.
Proof. by destruct w as [[] ? ? ? ? ? ?]. Qed.

Lemma set_winsize_compose f g (w : World) :
  set_os (os_set_winsize g) (set_os (os_set_winsize f) w)
  = set_os (os_set_winsize (λ m, g (f m))) w.
Proof. done. Qed.

Global Instance only_winsize_preorder : PreOrder only_winsize.
Proof.
  split.
  - intros w. exists (λ m, m). by rewrite set_winsize_id.
  - intros w1 w2 w3 [f ->] [g ->]. eexists. apply set_winsize_compose.
Qed.

Lemma respects_winsize_write fd data : respects only_winsize (os_write fd data).
Proof. intros w. unfold os_write. destruct (decide _); reflexivity. Qed.

Lemma respects_winsize_pack a b : respects only_winsize (struct_pack_HHHH a b).
Proof. unfold struct_pack_HHHH. respects_tac. Qed.

Lemma respects_winsize_ioctl fd p : respects only_winsize (ioctl_TIOCSWINSZ fd p).
Proof.
  intros w. unfold ioctl_TIOCSWINSZ. destruct (decide _); [|reflexivity].
  simpl. by eexists.
Qed.

(** X22. Handling a received frame changes at most window sizes:
    registry, objects, readers, timers, descriptors, processes and the
    log are the same before and after, whether the frame is handled or
    its handling raises. *)
Theorem frame_changes_window_size_only terminal msg w :
  ∃ f, (terminal_ws_dispatch terminal msg w).2 = set_os (os_set_winsize f) w.
Proof.
  assert (respects only_winsize (terminal_ws_dispatch terminal msg)) as H; [|apply H].
  unfold terminal_ws_dispatch, json_loads, write, resize.
  respects_tac;
    auto using respects_winsize_write, respects_winsize_pack, respects_winsize_ioctl.
Qed.

(** ** A first connection *)

(** X23. The first connection for an identifier creates the session in
    the resolved working directory, with the command and the working
    directory of the configured mode, registers it, and registers the
    reader of its descriptor; no timer exists for it. *)
Theorem first_connection_starts_reading w tid sid :
  terminals w !! tid = None →
  let work_dir := os_abspath (w_os w) (session_dir (WORK_DIR w) sid) in
  os_pty_available (w_os w) = true → can_spawn w work_dir = true →
  ∃ self w' t p,
    terminal_ws_attach tid sid w = (Ok self, w')
    ∧ terminals w' = <[tid := self]> (terminals w)
    ∧ w_objects w' !! self = Some t
    ∧ output_queue t = [] ∧ _destroy_task t = None
    ∧ readers (w_loop w') = <[master_fd t := self]> (readers (w_loop w))
    ∧ master_fd t ∈ os_fds (w_os w')
    ∧ os_winsize (w_os w') !! master_fd t = Some (24, 80)%Z
    ∧ tasks (w_loop w') = tasks (w_loop w)
    ∧ os_procs (w_os w') !! proc t = Some p
    ∧ p_alive p = true
    ∧ p_argv p = (spawn_command (BACKEND_CONTAINER w) (resolved_dir w work_dir)).1
    ∧ p_cwd p = (spawn_command (BACKEND_CONTAINER w) (resolved_dir w work_dir)).2.
Proof.
  intros Habs work_dir Hpty Hspawn.
  destruct (create_spec tid work_dir w)
    as [[Hp _]|[(_ & Hs & _)|(_ & _ & w1 & E & Ht & Ho & Hl & Hpr & Hws & _)]];
    [congruence..|].
  destruct (create_success_fds _ _ _ _ _ E) as [Hfds Hrd].
  set (self := fresh (dom (w_objects w))) in *.
  assert (w_objects w1 !! self = Some (new_terminal tid w)) as Hobj
    by (rewrite Ho; apply lookup_insert_eq).
  exists self, (start_reading self w1).2, (with_queue drain (new_terminal tid w)),
    (new_process w work_dir).
  split.
  - unfold terminal_ws_attach, mbind, M_bind. rewrite resolve_work_dir_eq.
    rewrite lookup_or_create_absent by done. fold work_dir. rewrite E.
    by rewrite (start_reading_eq self (new_terminal tid w)).
  - rewrite (start_reading_eq self (new_terminal tid w)) by done. simpl.
    rewrite Ht, lookup_alter_eq, Hobj, Hl, Hpr, Hws. simpl.
    rewrite lookup_insert_eq. repeat split; try done.
    rewrite Hfds. apply elem_of_difference. split.
    + apply elem_of_union_l, elem_of_union_l. by apply elem_of_singleton.
    + rewrite elem_of_singleton. intros Heq.
      pose proof (is_fresh ({[fresh (os_fds (w_os w))]} ∪ os_fds (w_os w))) as Hsl.
      apply Hsl. rewrite <- Heq. apply elem_of_union_l. by apply elem_of_singleton.
Qed.

(** ** The properties at the sample inputs *)

Lemma initial_sound : sound initial_world.
Proof.
  split; [exact initial_wf|].
  intros tid a t H. unfold initial_world in H. simpl in H. by rewrite lookup_empty in H.
Qed.

Lemma resize_on_closed_pty_is_ignored_witness :
  terminal_ws_turn 0 "t1" (Received resize_120x40) deleted_world = (Ok true, deleted_world).
Proof.
  apply (resize_on_closed_pty_is_ignored deleted_world 0 "t1" sample_terminal
           [("type", PStr "resize"); ("cols", PInt 120); ("rows", PInt 40)]
           120%Z 40%Z); try (vm_compute; reflexivity).
  apply (bool_decide_unpack (master_fd sample_terminal ∉ os_fds (w_os deleted_world))).
  vm_compute. exact I.
Defined.

Lemma unpackable_size_ends_handler_witness :
  terminal_ws_turn 0 "t1" (Received (resize_frame oversized_cols_items)) connected_world
  = (Ok false, teardown_world 0 "t1" struct_error connected_world).
Proof.
  destruct (unpackable_size_ends_handler connected_world 0 "t1" sample_terminal
              oversized_cols_items eq_refl eq_refl) as [H _].
  apply (H 70000%Z 24%Z); reflexivity.
Defined.

Lemma non_object_json_ends_handler_witness :
  terminal_ws_turn 0 "t1"
    (Received {| msg_bytes := None; msg_text := Some (Decoded (PStr "text")) |})
    connected_world
  = (Ok false, teardown_world 0 "t1" AttributeError connected_world).
Proof.
  apply (non_object_json_ends_handler connected_world 0 "t1" (PStr "text")).
  reflexivity.
Defined.

Lemma other_object_is_ignored_witness :
  terminal_ws_turn 0 "t1" (Received (resize_frame [("type", PStr "ping")])) connected_world
  = (Ok true, connected_world).
Proof.
  apply (other_object_is_ignored connected_world 0 "t1" [("type", PStr "ping")]).
  reflexivity.
Defined.

Lemma teardown_arms_timer_or_finds_no_session_witness :
  ∃ w', terminal_ws_turn 0 "t1" (ReceiveRaises RuntimeError) connected_world = (Ok false, w')
        ∧ terminals w' = terminals connected_world.
Proof.
  destruct (teardown_arms_timer_or_finds_no_session connected_world 0 "t1" RuntimeError
              (proj2 (run_wf [Connect "t1" ""] initial_world initial_wf)))
    as (w' & H1 & H2 & _).
  exists w'. split; [exact H1|exact H2].
Defined.

Lemma create_registers_fresh_session_witness :
  ∃ self w', create "t1" "/work" initial_world = (Ok self, w')
             ∧ terminals w' = <["t1" := self]> (terminals initial_world).
Proof.
  destruct (create_registers_fresh_session initial_world "t1" "/work" eq_refl eq_refl)
    as (self & w' & t & p & H1 & _ & H3 & _).
  exists self, w'. split; [exact H1|exact H3].
Defined.

Lemma work_dir_of_session_witness :
  resolve_work_dir "s1" initial_world = (Ok "/work/sessions/s1", initial_world).
Proof.
  destruct (work_dir_of_session "s1" initial_world) as (_ & _ & H).
  apply H; [discriminate|reflexivity].
Defined.

Lemma proxy_keeps_other_headers_witness :
  b_headers (forwarded "http://localhost:5000" sse_request "chat") !! "accept"
  = last_value "accept" (req_headers sse_request).
Proof.
  refine (proj1 (proxy_keeps_other_headers "http://localhost:5000" sse_request "chat"
                   sample_backend "accept" _) _).
  - apply (bool_decide_unpack (lower "accept" ∉ _HOP_BY_HOP)). vm_compute. exact I.
  - vm_compute. discriminate.
Defined.

Lemma reconnect_in_time_keeps_session_witness :
  tasks (w_loop (run disconnect_then_reconnect connected_world)) !! 0
  = Some {| task_target := "t1"; task_state_of := Finished false |}.
Proof.
  exact (proj1 (reconnect_in_time_keeps_session connected_world "t1" ""
                  WebSocketDisconnect 0 sample_terminal eq_refl eq_refl)).
Defined.

Lemma idle_session_is_evicted_witness :
  terminals (run disconnect_then_timeout connected_world) !! "t1" = None.
Proof.
  exact (proj1 (idle_session_is_evicted connected_world "t1" WebSocketDisconnect 0
                  sample_terminal 300 eq_refl eq_refl (le_n 300))).
Defined.

Lemma registered_sessions_stay_live_witness :
  registry_closed (run reconnect_events initial_world)
  ∧ live_sessions (run reconnect_events initial_world).
Proof.
  exact (registered_sessions_stay_live initial_world reconnect_events initial_sound).
Defined.

Lemma destroy_leaves_other_sessions_witness :
  ∃ w1, destroy "t1" two_sessions_world = (Ok tt, w1)
        ∧ terminals w1 !! "t2" = Some 1
        ∧ master_fd second_terminal ∈ os_fds (w_os w1).
Proof.
  destruct (destroy_leaves_other_sessions two_sessions_world "t1" "t2" 1 second_terminal
              (run_sound [Connect "t1" ""; Connect "t2" ""] initial_world initial_sound))
    as (w1 & H1 & H2 & _ & H4 & _).
  - discriminate.
  - vm_compute. reflexivity.
  - vm_compute. reflexivity.
  - exists w1. split; [exact H1|]. split; [exact H2|exact H4].
Defined.

Lemma failed_spawn_leaves_descriptors_open_witness :
  ∃ w', create "t1" "/work" no_exec_world = (Raise FileNotFoundError, w')
        ∧ terminals w' = terminals no_exec_world
        ∧ os_procs (w_os w') = os_procs (w_os no_exec_world).
Proof.
  destruct (failed_spawn_leaves_descriptors_open no_exec_world "t1" "/work"
              eq_refl eq_refl)
    as (w' & H1 & _ & _ & _ & _ & H6 & _ & H8 & _).
  exists w'. split; [exact H1|]. split; [exact H6|exact H8].
Defined.

Lemma output_is_relayed_in_order_witness :
  ∃ t', w_objects (run (map (Readable 3) (map ReadData ["a"; "b"]))
                     (start_reading 0 connected_world).2) !! 0 = Some t'
        ∧ _forward_output (output_queue t') = (["a"; "b"], false).
Proof.
  exact (proj1 (output_is_relayed_in_order connected_world 0 sample_terminal
                  ["a"; "b"] eq_refl)).
Defined.

Lemma first_connection_starts_reading_witness :
  ∃ self w', terminal_ws_attach "t1" "" initial_world = (Ok self, w')
             ∧ terminals w' = <["t1" := self]> (terminals initial_world).
Proof.
  destruct (first_connection_starts_reading initial_world "t1" "" eq_refl eq_refl eq_refl)
    as (self & w' & t & p & H1 & H2 & _).
  exists self, w'. split; [exact H1|exact H2].
Defined.
